(** * Tax-intake assistant: complexity scoring, routing, checklist and intake

    A shallow embedding of the TypeScript services of the repository
    (types/client.ts, database/index.ts, services/checklist.ts,
    services/routing.ts, services/intake.ts, services/reminders.ts) together
    with the properties that its specification states about them, followed by
    further properties of the same code.

    Conventions of the embedding.
    - String-literal union types are inductive types, interfaces are records;
      a field keeps its source name unless several interfaces share it
      ([id], [name], [clientId], [status], [type]), in which case it gets the
      record's prefix.
    - [number] fields that hold counts are [nat], complexity scores are [Z],
      the staff rating is a rational [Q]. The store-level properties of
      routing use the score as an exact rational; module [Float64] computes
      it in IEEE 754 doubles as the source does, and the property about the
      value of the score and the choice by it is stated there.
    - [Date] values are [Z] (milliseconds); every operation that reads the
      clock takes the current time as an argument.
    - The process-wide [db] singleton is an explicit [Database] value that
      operations take and return. *)

From Stdlib Require Import ZArith QArith Qround Lia Lqa Sorted Ascii.
From Stdlib Require Floats.
From stdpp Require Import base decidable option list strings gmap pretty.

Local Open Scope string_scope.
Local Open Scope list_scope.
Local Open Scope Z_scope.

(** ** types/client.ts *)

Inductive FilingStatus :=
  | single
  | married_filing_jointly
  | married_filing_separately
  | head_of_household
  | qualifying_widow.

Inductive IncomeType :=
  | wages_w2
  | self_employment_1099nec
  | freelance_1099misc
  | gig_economy
  | rental_income
  | investment_income
  | dividends
  | capital_gains
  | retirement_distributions
  | social_security
  | unemployment
  | alimony_received
  | gambling_winnings
  | crypto_income
  | foreign_income
  | other_income.            (* 'other' *)

Inductive DeductionType :=
  | mortgage_interest
  | property_taxes
  | state_local_taxes
  | charitable_donations
  | medical_expenses
  | student_loan_interest
  | educator_expenses
  | home_office
  | business_expenses
  | hsa_contributions
  | ira_contributions
  | k401_contributions       (* '401k_contributions' *)
  | childcare_expenses
  | alimony_paid
  | moving_expenses
  | no_deduction.            (* 'none' *)

Inductive DocumentCategory :=
  | cat_identity
  | cat_income
  | cat_expenses
  | cat_investments
  | cat_property
  | cat_business
  | cat_healthcare
  | cat_education
  | cat_other.

Inductive AppointmentStatus :=
  | apt_scheduled
  | apt_confirmed
  | apt_in_progress
  | apt_completed
  | apt_cancelled
  | apt_no_show.

Inductive AppointmentType := virtual | in_person.

Inductive ComplexityLevel := simple | moderate | complex | expert.

Inductive Specialization :=
  | sp_individual
  | sp_self_employment
  | sp_small_business
  | sp_investments
  | sp_real_estate
  | sp_crypto
  | sp_foreign_income
  | sp_estate_planning
  | sp_audit_representation.

Inductive IntakeStep :=
  | personal_info
  | filing_status
  | dependents_step          (* 'dependents' *)
  | employment
  | income_types
  | deductions_step          (* 'deductions' *)
  | special_situations
  | document_upload
  | review
  | complete.

Inductive SessionStatus := in_progress | completed | abandoned.

Inductive EmploymentIncomeType := emp_W2 | emp_1099 | emp_both.

#[global] Instance FilingStatus_eq_dec : EqDecision FilingStatus.
Proof. solve_decision. Defined.
#[global] Instance IncomeType_eq_dec : EqDecision IncomeType.
Proof. solve_decision. Defined.
#[global] Instance DeductionType_eq_dec : EqDecision DeductionType.
Proof. solve_decision. Defined.
#[global] Instance DocumentCategory_eq_dec : EqDecision DocumentCategory.
Proof. solve_decision. Defined.
#[global] Instance ComplexityLevel_eq_dec : EqDecision ComplexityLevel.
Proof. solve_decision. Defined.
#[global] Instance Specialization_eq_dec : EqDecision Specialization.
Proof. solve_decision. Defined.
#[global] Instance IntakeStep_eq_dec : EqDecision IntakeStep.
Proof. solve_decision. Defined.
#[global] Instance SessionStatus_eq_dec : EqDecision SessionStatus.
Proof. solve_decision. Defined.

Record Address := {
  street : string;
  city : string;
  state : string;
  zipCode : string;
}.

Record Dependent := {
  dep_firstName : string;
  dep_lastName : string;
  relationship : string;
  dep_dateOfBirth : string;
  dep_ssn : option string;
  livesWithClient : bool;
  monthsLivedWithClient : nat;
}.

Record EmploymentInfo := {
  employerName : string;
  employerEIN : option string;
  jobTitle : string;
  isCurrentJob : bool;
  startDate : string;
  endDate : option string;
  emp_incomeType : EmploymentIncomeType;
  estimatedIncome : option Z;
}.

Record ClientProfile := {
  client_id : string;
  firstName : string;
  lastName : string;
  email : string;
  phone : string;
  ssn : option string;
  dateOfBirth : option string;
  address : option Address;
  filingStatus : FilingStatus;
  dependents : list Dependent;
  employmentInfo : list EmploymentInfo;
  incomeTypes : list IncomeType;
  deductions : list DeductionType;
  previousYearAGI : option Z;
  hasHealthInsurance : bool;
  hasCrypto : bool;
  hasForeignAccounts : bool;
  hasRentalProperty : bool;
  hasBusinessIncome : bool;
  appointmentId : option string;
  intakeCompleted : bool;
  intakeCompletedAt : option Z;
  documentsCollected : list string;
  documentsPending : list string;
  complexityScore : Z;
  assignedTaxPro : option string;
  notes : list string;
  createdAt : Z;
  updatedAt : Z;
}.

Record DocumentItem := {
  doc_id : string;
  doc_name : string;
  description : string;
  category : DocumentCategory;
  required : bool;
  collected : bool;
  source : option string;
  reminderSent : bool;
  reminderSentAt : option Z;
  doc_notes : option string;
}.

Record DocumentChecklist := {
  cl_clientId : string;
  documents : list DocumentItem;
  generatedAt : Z;
  lastUpdated : Z;
}.

Record Appointment := {
  apt_id : string;
  apt_clientId : string;
  taxProId : string;
  scheduledAt : Z;
  duration : Z;
  apt_status : AppointmentStatus;
  apt_type : AppointmentType;
  apt_notes : option string;
  intakeScore : Z;
  estimatedComplexity : ComplexityLevel;
}.

Record TaxProfessional := {
  tp_id : string;
  tp_name : string;
  tp_email : string;
  specializations : list Specialization;
  maxComplexity : ComplexityLevel;
  currentLoad : nat;
  maxDailyAppointments : nat;
  available : bool;
  rating : Q;
}.

Record IntakeResponse := {
  step : IntakeStep;
  question : string;
  answer : string;
  timestamp : Z;
}.

Record IntakeSession := {
  session_id : string;
  ses_clientId : string;
  startedAt : Z;
  lastActivityAt : Z;
  currentStep : IntakeStep;
  completedSteps : list IntakeStep;
  responses : list IntakeResponse;
  ses_status : SessionStatus;
}.

Inductive ReminderType :=
  | appointment_confirmation
  | document_reminder
  | appointment_reminder_24h
  | appointment_reminder_1h
  | follow_up.

Inductive Channel := ch_email | ch_sms | ch_both.

Record Reminder := {
  reminder_id : string;
  rem_clientId : string;
  rem_appointmentId : string;
  rem_type : ReminderType;
  message : string;
  scheduledFor : Z;
  sent : bool;
  sentAt : option Z;
  channel : Channel;
  documentIds : option (list string);
}.

(** ** Functional record updates (object spread with one field replaced) *)

Definition set_firstName (v : string) (c : ClientProfile) : ClientProfile :=
  {| client_id := client_id c; firstName := v; lastName := lastName c; email := email c;
     phone := phone c; ssn := ssn c; dateOfBirth := dateOfBirth c; address := address c;
     filingStatus := filingStatus c; dependents := dependents c;
     employmentInfo := employmentInfo c; incomeTypes := incomeTypes c;
     deductions := deductions c; previousYearAGI := previousYearAGI c;
     hasHealthInsurance := hasHealthInsurance c; hasCrypto := hasCrypto c;
     hasForeignAccounts := hasForeignAccounts c; hasRentalProperty := hasRentalProperty c;
     hasBusinessIncome := hasBusinessIncome c; appointmentId := appointmentId c;
     intakeCompleted := intakeCompleted c; intakeCompletedAt := intakeCompletedAt c;
     documentsCollected := documentsCollected c; documentsPending := documentsPending c;
     complexityScore := complexityScore c; assignedTaxPro := assignedTaxPro c;
     notes := notes c; createdAt := createdAt c; updatedAt := updatedAt c |}.

Definition set_lastName (v : string) (c : ClientProfile) : ClientProfile :=
  {| client_id := client_id c; firstName := firstName c; lastName := v; email := email c;
     phone := phone c; ssn := ssn c; dateOfBirth := dateOfBirth c; address := address c;
     filingStatus := filingStatus c; dependents := dependents c;
     employmentInfo := employmentInfo c; incomeTypes := incomeTypes c;
     deductions := deductions c; previousYearAGI := previousYearAGI c;
     hasHealthInsurance := hasHealthInsurance c; hasCrypto := hasCrypto c;
     hasForeignAccounts := hasForeignAccounts c; hasRentalProperty := hasRentalProperty c;
     hasBusinessIncome := hasBusinessIncome c; appointmentId := appointmentId c;
     intakeCompleted := intakeCompleted c; intakeCompletedAt := intakeCompletedAt c;
     documentsCollected := documentsCollected c; documentsPending := documentsPending c;
     complexityScore := complexityScore c; assignedTaxPro := assignedTaxPro c;
     notes := notes c; createdAt := createdAt c; updatedAt := updatedAt c |}.

Definition set_email (v : string) (c : ClientProfile) : ClientProfile :=
  {| client_id := client_id c; firstName := firstName c; lastName := lastName c; email := v;
     phone := phone c; ssn := ssn c; dateOfBirth := dateOfBirth c; address := address c;
     filingStatus := filingStatus c; dependents := dependents c;
     employmentInfo := employmentInfo c; incomeTypes := incomeTypes c;
     deductions := deductions c; previousYearAGI := previousYearAGI c;
     hasHealthInsurance := hasHealthInsurance c; hasCrypto := hasCrypto c;
     hasForeignAccounts := hasForeignAccounts c; hasRentalProperty := hasRentalProperty c;
     hasBusinessIncome := hasBusinessIncome c; appointmentId := appointmentId c;
     intakeCompleted := intakeCompleted c; intakeCompletedAt := intakeCompletedAt c;
     documentsCollected := documentsCollected c; documentsPending := documentsPending c;
     complexityScore := complexityScore c; assignedTaxPro := assignedTaxPro c;
     notes := notes c; createdAt := createdAt c; updatedAt := updatedAt c |}.

Definition set_phone (v : string) (c : ClientProfile) : ClientProfile :=
  {| client_id := client_id c; firstName := firstName c; lastName := lastName c;
     email := email c; phone := v; ssn := ssn c; dateOfBirth := dateOfBirth c;
     address := address c; filingStatus := filingStatus c; dependents := dependents c;
     employmentInfo := employmentInfo c; incomeTypes := incomeTypes c;
     deductions := deductions c; previousYearAGI := previousYearAGI c;
     hasHealthInsurance := hasHealthInsurance c; hasCrypto := hasCrypto c;
     hasForeignAccounts := hasForeignAccounts c; hasRentalProperty := hasRentalProperty c;
     hasBusinessIncome := hasBusinessIncome c; appointmentId := appointmentId c;
     intakeCompleted := intakeCompleted c; intakeCompletedAt := intakeCompletedAt c;
     documentsCollected := documentsCollected c; documentsPending := documentsPending c;
     complexityScore := complexityScore c; assignedTaxPro := assignedTaxPro c;
     notes := notes c; createdAt := createdAt c; updatedAt := updatedAt c |}.

Definition set_filingStatus (v : FilingStatus) (c : ClientProfile) : ClientProfile :=
  {| client_id := client_id c; firstName := firstName c; lastName := lastName c;
     email := email c; phone := phone c; ssn := ssn c; dateOfBirth := dateOfBirth c;
     address := address c; filingStatus := v; dependents := dependents c;
     employmentInfo := employmentInfo c; incomeTypes := incomeTypes c;
     deductions := deductions c; previousYearAGI := previousYearAGI c;
     hasHealthInsurance := hasHealthInsurance c; hasCrypto := hasCrypto c;
     hasForeignAccounts := hasForeignAccounts c; hasRentalProperty := hasRentalProperty c;
     hasBusinessIncome := hasBusinessIncome c; appointmentId := appointmentId c;
     intakeCompleted := intakeCompleted c; intakeCompletedAt := intakeCompletedAt c;
     documentsCollected := documentsCollected c; documentsPending := documentsPending c;
     complexityScore := complexityScore c; assignedTaxPro := assignedTaxPro c;
     notes := notes c; createdAt := createdAt c; updatedAt := updatedAt c |}.

Definition set_incomeTypes (v : list IncomeType) (c : ClientProfile) : ClientProfile :=
  {| client_id := client_id c; firstName := firstName c; lastName := lastName c;
     email := email c; phone := phone c; ssn := ssn c; dateOfBirth := dateOfBirth c;
     address := address c; filingStatus := filingStatus c; dependents := dependents c;
     employmentInfo := employmentInfo c; incomeTypes := v; deductions := deductions c;
     previousYearAGI := previousYearAGI c; hasHealthInsurance := hasHealthInsurance c;
     hasCrypto := hasCrypto c; hasForeignAccounts := hasForeignAccounts c;
     hasRentalProperty := hasRentalProperty c; hasBusinessIncome := hasBusinessIncome c;
     appointmentId := appointmentId c; intakeCompleted := intakeCompleted c;
     intakeCompletedAt := intakeCompletedAt c; documentsCollected := documentsCollected c;
     documentsPending := documentsPending c; complexityScore := complexityScore c;
     assignedTaxPro := assignedTaxPro c; notes := notes c; createdAt := createdAt c;
     updatedAt := updatedAt c |}.

Definition set_deductions (v : list DeductionType) (c : ClientProfile) : ClientProfile :=
  {| client_id := client_id c; firstName := firstName c; lastName := lastName c;
     email := email c; phone := phone c; ssn := ssn c; dateOfBirth := dateOfBirth c;
     address := address c; filingStatus := filingStatus c; dependents := dependents c;
     employmentInfo := employmentInfo c; incomeTypes := incomeTypes c; deductions := v;
     previousYearAGI := previousYearAGI c; hasHealthInsurance := hasHealthInsurance c;
     hasCrypto := hasCrypto c; hasForeignAccounts := hasForeignAccounts c;
     hasRentalProperty := hasRentalProperty c; hasBusinessIncome := hasBusinessIncome c;
     appointmentId := appointmentId c; intakeCompleted := intakeCompleted c;
     intakeCompletedAt := intakeCompletedAt c; documentsCollected := documentsCollected c;
     documentsPending := documentsPending c; complexityScore := complexityScore c;
     assignedTaxPro := assignedTaxPro c; notes := notes c; createdAt := createdAt c;
     updatedAt := updatedAt c |}.

Definition set_hasCrypto (v : bool) (c : ClientProfile) : ClientProfile :=
  {| client_id := client_id c; firstName := firstName c; lastName := lastName c;
     email := email c; phone := phone c; ssn := ssn c; dateOfBirth := dateOfBirth c;
     address := address c; filingStatus := filingStatus c; dependents := dependents c;
     employmentInfo := employmentInfo c; incomeTypes := incomeTypes c;
     deductions := deductions c; previousYearAGI := previousYearAGI c;
     hasHealthInsurance := hasHealthInsurance c; hasCrypto := v;
     hasForeignAccounts := hasForeignAccounts c; hasRentalProperty := hasRentalProperty c;
     hasBusinessIncome := hasBusinessIncome c; appointmentId := appointmentId c;
     intakeCompleted := intakeCompleted c; intakeCompletedAt := intakeCompletedAt c;
     documentsCollected := documentsCollected c; documentsPending := documentsPending c;
     complexityScore := complexityScore c; assignedTaxPro := assignedTaxPro c;
     notes := notes c; createdAt := createdAt c; updatedAt := updatedAt c |}.

Definition set_hasForeignAccounts (v : bool) (c : ClientProfile) : ClientProfile :=
  {| client_id := client_id c; firstName := firstName c; lastName := lastName c;
     email := email c; phone := phone c; ssn := ssn c; dateOfBirth := dateOfBirth c;
     address := address c; filingStatus := filingStatus c; dependents := dependents c;
     employmentInfo := employmentInfo c; incomeTypes := incomeTypes c;
     deductions := deductions c; previousYearAGI := previousYearAGI c;
     hasHealthInsurance := hasHealthInsurance c; hasCrypto := hasCrypto c;
     hasForeignAccounts := v; hasRentalProperty := hasRentalProperty c;
     hasBusinessIncome := hasBusinessIncome c; appointmentId := appointmentId c;
     intakeCompleted := intakeCompleted c; intakeCompletedAt := intakeCompletedAt c;
     documentsCollected := documentsCollected c; documentsPending := documentsPending c;
     complexityScore := complexityScore c; assignedTaxPro := assignedTaxPro c;
     notes := notes c; createdAt := createdAt c; updatedAt := updatedAt c |}.

Definition set_hasRentalProperty (v : bool) (c : ClientProfile) : ClientProfile :=
  {| client_id := client_id c; firstName := firstName c; lastName := lastName c;
     email := email c; phone := phone c; ssn := ssn c; dateOfBirth := dateOfBirth c;
     address := address c; filingStatus := filingStatus c; dependents := dependents c;
     employmentInfo := employmentInfo c; incomeTypes := incomeTypes c;
     deductions := deductions c; previousYearAGI := previousYearAGI c;
     hasHealthInsurance := hasHealthInsurance c; hasCrypto := hasCrypto c;
     hasForeignAccounts := hasForeignAccounts c; hasRentalProperty := v;
     hasBusinessIncome := hasBusinessIncome c; appointmentId := appointmentId c;
     intakeCompleted := intakeCompleted c; intakeCompletedAt := intakeCompletedAt c;
     documentsCollected := documentsCollected c; documentsPending := documentsPending c;
     complexityScore := complexityScore c; assignedTaxPro := assignedTaxPro c;
     notes := notes c; createdAt := createdAt c; updatedAt := updatedAt c |}.

Definition set_hasBusinessIncome (v : bool) (c : ClientProfile) : ClientProfile :=
  {| client_id := client_id c; firstName := firstName c; lastName := lastName c;
     email := email c; phone := phone c; ssn := ssn c; dateOfBirth := dateOfBirth c;
     address := address c; filingStatus := filingStatus c; dependents := dependents c;
     employmentInfo := employmentInfo c; incomeTypes := incomeTypes c;
     deductions := deductions c; previousYearAGI := previousYearAGI c;
     hasHealthInsurance := hasHealthInsurance c; hasCrypto := hasCrypto c;
     hasForeignAccounts := hasForeignAccounts c; hasRentalProperty := hasRentalProperty c;
     hasBusinessIncome := v; appointmentId := appointmentId c;
     intakeCompleted := intakeCompleted c; intakeCompletedAt := intakeCompletedAt c;
     documentsCollected := documentsCollected c; documentsPending := documentsPending c;
     complexityScore := complexityScore c; assignedTaxPro := assignedTaxPro c;
     notes := notes c; createdAt := createdAt c; updatedAt := updatedAt c |}.

Definition set_appointmentId (v : option string) (c : ClientProfile) : ClientProfile :=
  {| client_id := client_id c; firstName := firstName c; lastName := lastName c;
     email := email c; phone := phone c; ssn := ssn c; dateOfBirth := dateOfBirth c;
     address := address c; filingStatus := filingStatus c; dependents := dependents c;
     employmentInfo := employmentInfo c; incomeTypes := incomeTypes c;
     deductions := deductions c; previousYearAGI := previousYearAGI c;
     hasHealthInsurance := hasHealthInsurance c; hasCrypto := hasCrypto c;
     hasForeignAccounts := hasForeignAccounts c; hasRentalProperty := hasRentalProperty c;
     hasBusinessIncome := hasBusinessIncome c; appointmentId := v;
     intakeCompleted := intakeCompleted c; intakeCompletedAt := intakeCompletedAt c;
     documentsCollected := documentsCollected c; documentsPending := documentsPending c;
     complexityScore := complexityScore c; assignedTaxPro := assignedTaxPro c;
     notes := notes c; createdAt := createdAt c; updatedAt := updatedAt c |}.

Definition set_intakeCompleted (v : bool) (c : ClientProfile) : ClientProfile :=
  {| client_id := client_id c; firstName := firstName c; lastName := lastName c;
     email := email c; phone := phone c; ssn := ssn c; dateOfBirth := dateOfBirth c;
     address := address c; filingStatus := filingStatus c; dependents := dependents c;
     employmentInfo := employmentInfo c; incomeTypes := incomeTypes c;
     deductions := deductions c; previousYearAGI := previousYearAGI c;
     hasHealthInsurance := hasHealthInsurance c; hasCrypto := hasCrypto c;
     hasForeignAccounts := hasForeignAccounts c; hasRentalProperty := hasRentalProperty c;
     hasBusinessIncome := hasBusinessIncome c; appointmentId := appointmentId c;
     intakeCompleted := v; intakeCompletedAt := intakeCompletedAt c;
     documentsCollected := documentsCollected c; documentsPending := documentsPending c;
     complexityScore := complexityScore c; assignedTaxPro := assignedTaxPro c;
     notes := notes c; createdAt := createdAt c; updatedAt := updatedAt c |}.

Definition set_intakeCompletedAt (v : option Z) (c : ClientProfile) : ClientProfile :=
  {| client_id := client_id c; firstName := firstName c; lastName := lastName c;
     email := email c; phone := phone c; ssn := ssn c; dateOfBirth := dateOfBirth c;
     address := address c; filingStatus := filingStatus c; dependents := dependents c;
     employmentInfo := employmentInfo c; incomeTypes := incomeTypes c;
     deductions := deductions c; previousYearAGI := previousYearAGI c;
     hasHealthInsurance := hasHealthInsurance c; hasCrypto := hasCrypto c;
     hasForeignAccounts := hasForeignAccounts c; hasRentalProperty := hasRentalProperty c;
     hasBusinessIncome := hasBusinessIncome c; appointmentId := appointmentId c;
     intakeCompleted := intakeCompleted c; intakeCompletedAt := v;
     documentsCollected := documentsCollected c; documentsPending := documentsPending c;
     complexityScore := complexityScore c; assignedTaxPro := assignedTaxPro c;
     notes := notes c; createdAt := createdAt c; updatedAt := updatedAt c |}.

Definition set_documentsCollected (v : list string) (c : ClientProfile) : ClientProfile :=
  {| client_id := client_id c; firstName := firstName c; lastName := lastName c;
     email := email c; phone := phone c; ssn := ssn c; dateOfBirth := dateOfBirth c;
     address := address c; filingStatus := filingStatus c; dependents := dependents c;
     employmentInfo := employmentInfo c; incomeTypes := incomeTypes c;
     deductions := deductions c; previousYearAGI := previousYearAGI c;
     hasHealthInsurance := hasHealthInsurance c; hasCrypto := hasCrypto c;
     hasForeignAccounts := hasForeignAccounts c; hasRentalProperty := hasRentalProperty c;
     hasBusinessIncome := hasBusinessIncome c; appointmentId := appointmentId c;
     intakeCompleted := intakeCompleted c; intakeCompletedAt := intakeCompletedAt c;
     documentsCollected := v; documentsPending := documentsPending c;
     complexityScore := complexityScore c; assignedTaxPro := assignedTaxPro c;
     notes := notes c; createdAt := createdAt c; updatedAt := updatedAt c |}.

Definition set_documentsPending (v : list string) (c : ClientProfile) : ClientProfile :=
  {| client_id := client_id c; firstName := firstName c; lastName := lastName c;
     email := email c; phone := phone c; ssn := ssn c; dateOfBirth := dateOfBirth c;
     address := address c; filingStatus := filingStatus c; dependents := dependents c;
     employmentInfo := employmentInfo c; incomeTypes := incomeTypes c;
     deductions := deductions c; previousYearAGI := previousYearAGI c;
     hasHealthInsurance := hasHealthInsurance c; hasCrypto := hasCrypto c;
     hasForeignAccounts := hasForeignAccounts c; hasRentalProperty := hasRentalProperty c;
     hasBusinessIncome := hasBusinessIncome c; appointmentId := appointmentId c;
     intakeCompleted := intakeCompleted c; intakeCompletedAt := intakeCompletedAt c;
     documentsCollected := documentsCollected c; documentsPending := v;
     complexityScore := complexityScore c; assignedTaxPro := assignedTaxPro c;
     notes := notes c; createdAt := createdAt c; updatedAt := updatedAt c |}.

Definition set_complexityScore (v : Z) (c : ClientProfile) : ClientProfile :=
  {| client_id := client_id c; firstName := firstName c; lastName := lastName c;
     email := email c; phone := phone c; ssn := ssn c; dateOfBirth := dateOfBirth c;
     address := address c; filingStatus := filingStatus c; dependents := dependents c;
     employmentInfo := employmentInfo c; incomeTypes := incomeTypes c;
     deductions := deductions c; previousYearAGI := previousYearAGI c;
     hasHealthInsurance := hasHealthInsurance c; hasCrypto := hasCrypto c;
     hasForeignAccounts := hasForeignAccounts c; hasRentalProperty := hasRentalProperty c;
     hasBusinessIncome := hasBusinessIncome c; appointmentId := appointmentId c;
     intakeCompleted := intakeCompleted c; intakeCompletedAt := intakeCompletedAt c;
     documentsCollected := documentsCollected c; documentsPending := documentsPending c;
     complexityScore := v; assignedTaxPro := assignedTaxPro c; notes := notes c;
     createdAt := createdAt c; updatedAt := updatedAt c |}.

Definition set_assignedTaxPro (v : option string) (c : ClientProfile) : ClientProfile :=
  {| client_id := client_id c; firstName := firstName c; lastName := lastName c;
     email := email c; phone := phone c; ssn := ssn c; dateOfBirth := dateOfBirth c;
     address := address c; filingStatus := filingStatus c; dependents := dependents c;
     employmentInfo := employmentInfo c; incomeTypes := incomeTypes c;
     deductions := deductions c; previousYearAGI := previousYearAGI c;
     hasHealthInsurance := hasHealthInsurance c; hasCrypto := hasCrypto c;
     hasForeignAccounts := hasForeignAccounts c; hasRentalProperty := hasRentalProperty c;
     hasBusinessIncome := hasBusinessIncome c; appointmentId := appointmentId c;
     intakeCompleted := intakeCompleted c; intakeCompletedAt := intakeCompletedAt c;
     documentsCollected := documentsCollected c; documentsPending := documentsPending c;
     complexityScore := complexityScore c; assignedTaxPro := v; notes := notes c;
     createdAt := createdAt c; updatedAt := updatedAt c |}.

Definition set_updatedAt (v : Z) (c : ClientProfile) : ClientProfile :=
  {| client_id := client_id c; firstName := firstName c; lastName := lastName c;
     email := email c; phone := phone c; ssn := ssn c; dateOfBirth := dateOfBirth c;
     address := address c; filingStatus := filingStatus c; dependents := dependents c;
     employmentInfo := employmentInfo c; incomeTypes := incomeTypes c;
     deductions := deductions c; previousYearAGI := previousYearAGI c;
     hasHealthInsurance := hasHealthInsurance c; hasCrypto := hasCrypto c;
     hasForeignAccounts := hasForeignAccounts c; hasRentalProperty := hasRentalProperty c;
     hasBusinessIncome := hasBusinessIncome c; appointmentId := appointmentId c;
     intakeCompleted := intakeCompleted c; intakeCompletedAt := intakeCompletedAt c;
     documentsCollected := documentsCollected c; documentsPending := documentsPending c;
     complexityScore := complexityScore c; assignedTaxPro := assignedTaxPro c;
     notes := notes c; createdAt := createdAt c; updatedAt := v |}.

Definition set_collected (v : bool) (d : DocumentItem) : DocumentItem :=
  {| doc_id := doc_id d; doc_name := doc_name d; description := description d;
     category := category d; required := required d; collected := v; source := source d;
     reminderSent := reminderSent d; reminderSentAt := reminderSentAt d;
     doc_notes := doc_notes d |}.

Definition set_documents (v : list DocumentItem) (cl : DocumentChecklist) : DocumentChecklist :=
  {| cl_clientId := cl_clientId cl; documents := v; generatedAt := generatedAt cl;
     lastUpdated := lastUpdated cl |}.

Definition set_lastUpdated (v : Z) (cl : DocumentChecklist) : DocumentChecklist :=
  {| cl_clientId := cl_clientId cl; documents := documents cl; generatedAt := generatedAt cl;
     lastUpdated := v |}.

Definition set_currentLoad (v : nat) (tp : TaxProfessional) : TaxProfessional :=
  {| tp_id := tp_id tp; tp_name := tp_name tp; tp_email := tp_email tp;
     specializations := specializations tp; maxComplexity := maxComplexity tp;
     currentLoad := v; maxDailyAppointments := maxDailyAppointments tp;
     available := available tp; rating := rating tp |}.

Definition set_lastActivityAt (v : Z) (s : IntakeSession) : IntakeSession :=
  {| session_id := session_id s; ses_clientId := ses_clientId s; startedAt := startedAt s;
     lastActivityAt := v; currentStep := currentStep s; completedSteps := completedSteps s;
     responses := responses s; ses_status := ses_status s |}.

Definition set_currentStep (v : IntakeStep) (s : IntakeSession) : IntakeSession :=
  {| session_id := session_id s; ses_clientId := ses_clientId s; startedAt := startedAt s;
     lastActivityAt := lastActivityAt s; currentStep := v; completedSteps := completedSteps s;
     responses := responses s; ses_status := ses_status s |}.

Definition set_completedSteps (v : list IntakeStep) (s : IntakeSession) : IntakeSession :=
  {| session_id := session_id s; ses_clientId := ses_clientId s; startedAt := startedAt s;
     lastActivityAt := lastActivityAt s; currentStep := currentStep s; completedSteps := v;
     responses := responses s; ses_status := ses_status s |}.

Definition set_responses (v : list IntakeResponse) (s : IntakeSession) : IntakeSession :=
  {| session_id := session_id s; ses_clientId := ses_clientId s; startedAt := startedAt s;
     lastActivityAt := lastActivityAt s; currentStep := currentStep s;
     completedSteps := completedSteps s; responses := v; ses_status := ses_status s |}.

Definition set_ses_status (v : SessionStatus) (s : IntakeSession) : IntakeSession :=
  {| session_id := session_id s; ses_clientId := ses_clientId s; startedAt := startedAt s;
     lastActivityAt := lastActivityAt s; currentStep := currentStep s;
     completedSteps := completedSteps s; responses := responses s; ses_status := v |}.

Definition set_sent (v : bool) (r : Reminder) : Reminder :=
  {| reminder_id := reminder_id r; rem_clientId := rem_clientId r;
     rem_appointmentId := rem_appointmentId r; rem_type := rem_type r; message := message r;
     scheduledFor := scheduledFor r; sent := v; sentAt := sentAt r; channel := channel r;
     documentIds := documentIds r |}.

Definition set_sentAt (v : option Z) (r : Reminder) : Reminder :=
  {| reminder_id := reminder_id r; rem_clientId := rem_clientId r;
     rem_appointmentId := rem_appointmentId r; rem_type := rem_type r; message := message r;
     scheduledFor := scheduledFor r; sent := sent r; sentAt := v; channel := channel r;
     documentIds := documentIds r |}.

(** ** database/index.ts: the in-memory store

    The [Map]s whose iteration order no modelled operation observes are
    [gmap]s. [taxPros] is iterated by [getAvailableTaxPros], so it is the list
    of the map's values in insertion order; its key is the record's own [id]
    (the only insertion is [this.taxPros.set(tp.id, tp)]). *)

Record Database := {
  clients : gmap string ClientProfile;
  checklists : gmap string DocumentChecklist;
  appointments : gmap string Appointment;
  taxPros : list TaxProfessional;
  reminders : gmap string Reminder;
  sessions : gmap string IntakeSession;
}.

Definition set_clients (v : gmap string ClientProfile) (db : Database) : Database :=
  {| clients := v; checklists := checklists db; appointments := appointments db;
     taxPros := taxPros db; reminders := reminders db; sessions := sessions db |}.

Definition set_checklists (v : gmap string DocumentChecklist) (db : Database) : Database :=
  {| clients := clients db; checklists := v; appointments := appointments db;
     taxPros := taxPros db; reminders := reminders db; sessions := sessions db |}.

Definition set_appointments (v : gmap string Appointment) (db : Database) : Database :=
  {| clients := clients db; checklists := checklists db; appointments := v;
     taxPros := taxPros db; reminders := reminders db; sessions := sessions db |}.

Definition set_taxPros (v : list TaxProfessional) (db : Database) : Database :=
  {| clients := clients db; checklists := checklists db; appointments := appointments db;
     taxPros := v; reminders := reminders db; sessions := sessions db |}.

Definition set_reminders (v : gmap string Reminder) (db : Database) : Database :=
  {| clients := clients db; checklists := checklists db; appointments := appointments db;
     taxPros := taxPros db; reminders := v; sessions := sessions db |}.

Definition set_sessions (v : gmap string IntakeSession) (db : Database) : Database :=
  {| clients := clients db; checklists := checklists db; appointments := appointments db;
     taxPros := taxPros db; reminders := reminders db; sessions := v |}.

(** ** JavaScript helpers *)

(** [Array.prototype.includes] on values compared with [===]. *)
Definition includes {A} `{EqDecision A} (l : list A) (x : A) : bool :=
  bool_decide (x ∈ l).

(** [v || d] for a numeric [v]: zero is falsy. *)
Definition or_default (v d : Z) : Z := if Z.eqb v 0 then d else v.

(** ** services/routing.ts: complexity scoring *)

Module COMPLEXITY_WEIGHTS.

Definition filingStatus (s : FilingStatus) : Z :=
    match s with
    | single => 0
    | married_filing_jointly => 5
    | married_filing_separately => 15
    | head_of_household => 10
    | qualifying_widow => 10
    end.

Definition incomeTypes (t : IncomeType) : Z :=
    match t with
    | wages_w2 => 0
    | self_employment_1099nec => 20
    | freelance_1099misc => 15
    | gig_economy => 15
    | rental_income => 25
    | investment_income => 10
    | dividends => 5
    | capital_gains => 15
    | retirement_distributions => 5
    | social_security => 5
    | unemployment => 5
    | alimony_received => 10
    | gambling_winnings => 10
    | crypto_income => 30
    | foreign_income => 35
    | other_income => 10
    end.

Definition deductions (d : DeductionType) : Z :=
    match d with
    | mortgage_interest => 5
    | property_taxes => 5
    | state_local_taxes => 5
    | charitable_donations => 5
    | medical_expenses => 10
    | student_loan_interest => 0
    | educator_expenses => 0
    | home_office => 15
    | business_expenses => 20
    | hsa_contributions => 5
    | ira_contributions => 5
    | k401_contributions => 0
    | childcare_expenses => 5
    | alimony_paid => 10
    | moving_expenses => 10
    | no_deduction => 0
    end.

Module specialSituations.
Definition crypto : Z := 25.
Definition foreignAccounts : Z := 30.
Definition rentalProperty : Z := 20.
Definition businessIncome : Z := 20.
End specialSituations.

Definition dependentsBase : Z := 5.
Definition dependentsMax : Z := 20.

End COMPLEXITY_WEIGHTS.

Record Threshold := { min : Z; max : Z }.

Definition COMPLEXITY_THRESHOLDS (l : ComplexityLevel) : Threshold :=
  match l with
  | simple => {| min := 0; max := 20 |}
  | moderate => {| min := 21; max := 50 |}
  | complex => {| min := 51; max := 80 |}
  | expert => {| min := 81; max := 200 |}
  end.

Definition calculateComplexityScore (client : ClientProfile) : Z :=
  let score := 0 in
  (* Filing status *)
  let score := score + or_default (COMPLEXITY_WEIGHTS.filingStatus (filingStatus client)) 0 in
  (* Income types *)
  let score :=
    fold_left (fun score type => score + or_default (COMPLEXITY_WEIGHTS.incomeTypes type) 0)
              (incomeTypes client) score in
  (* Deductions *)
  let score :=
    fold_left (fun score ded => score + or_default (COMPLEXITY_WEIGHTS.deductions ded) 0)
              (deductions client) score in
  (* Special situations *)
  let score := if hasCrypto client
               then score + COMPLEXITY_WEIGHTS.specialSituations.crypto else score in
  let score := if hasForeignAccounts client
               then score + COMPLEXITY_WEIGHTS.specialSituations.foreignAccounts else score in
  let score := if hasRentalProperty client
               then score + COMPLEXITY_WEIGHTS.specialSituations.rentalProperty else score in
  let score := if hasBusinessIncome client
               then score + COMPLEXITY_WEIGHTS.specialSituations.businessIncome else score in
  (* Dependents *)
  let dependentScore :=
    Z.min (Z.of_nat (length (dependents client)) * COMPLEXITY_WEIGHTS.dependentsBase)
          COMPLEXITY_WEIGHTS.dependentsMax in
  let score := score + dependentScore in
  (* Cap the score at 100 *)
  Z.min score 100.

Definition getComplexityLevel (score : Z) : ComplexityLevel :=
  if score <=? max (COMPLEXITY_THRESHOLDS simple) then simple
  else if score <=? max (COMPLEXITY_THRESHOLDS moderate) then moderate
  else if score <=? max (COMPLEXITY_THRESHOLDS complex) then complex
  else expert.

(** ** database/index.ts: operations of the [Database] class *)

Module db.

(* Client operations *)
Definition createClient (st : Database) (client : ClientProfile) : Database * ClientProfile :=
  (set_clients (<[client_id client := client]> (clients st)) st, client).

Definition getClient (st : Database) (id : string) : option ClientProfile :=
  clients st !! id.

(** [updates] is the effect of spreading a [Partial<ClientProfile>] over the
    stored record. *)
Definition updateClient (st : Database) (id : string)
    (updates : ClientProfile -> ClientProfile) (now : Z) : Database * option ClientProfile :=
  match clients st !! id with
  | Some client =>
      let updated := set_updatedAt now (updates client) in
      (set_clients (<[id := updated]> (clients st)) st, Some updated)
  | None => (st, None)
  end.

(* Checklist operations *)
Definition saveChecklist (st : Database) (checklist : DocumentChecklist)
    : Database * DocumentChecklist :=
  (set_checklists (<[cl_clientId checklist := checklist]> (checklists st)) st, checklist).

Definition getChecklist (st : Database) (clientId : string) : option DocumentChecklist :=
  checklists st !! clientId.

Definition updateChecklistItem (st : Database) (clientId documentId : string)
    (updates : DocumentItem -> DocumentItem) (now : Z) : Database * option DocumentChecklist :=
  match checklists st !! clientId with
  | Some checklist =>
      match list_find (fun d => doc_id d = documentId) (documents checklist) with
      | Some (docIndex, d) =>
          let checklist :=
            set_lastUpdated now
              (set_documents (<[docIndex := updates d]> (documents checklist)) checklist) in
          (set_checklists (<[clientId := checklist]> (checklists st)) st, Some checklist)
      | None => (st, None)
      end
  | None => (st, None)
  end.

(* Appointment operations *)
Definition createAppointment (st : Database) (appointment : Appointment)
    : Database * Appointment :=
  (set_appointments (<[apt_id appointment := appointment]> (appointments st)) st, appointment).

Definition getAppointment (st : Database) (id : string) : option Appointment :=
  appointments st !! id.

(* Tax Professional operations *)
Definition getTaxPro (st : Database) (id : string) : option TaxProfessional :=
  snd <$> list_find (fun tp => tp_id tp = id) (taxPros st).

Definition getAllTaxPros (st : Database) : list TaxProfessional := taxPros st.

Definition getAvailableTaxPros (st : Database) : list TaxProfessional :=
  List.filter (fun tp => available tp && (currentLoad tp <? maxDailyAppointments tp)%nat)
              (taxPros st).

Definition updateTaxProLoad (st : Database) (id : string) (change : Z)
    : Database * option TaxProfessional :=
  match list_find (fun tp => tp_id tp = id) (taxPros st) with
  | Some (i, taxPro) =>
      let taxPro :=
        set_currentLoad (Z.to_nat (Z.max 0 (Z.of_nat (currentLoad taxPro) + change))) taxPro in
      (set_taxPros (<[i := taxPro]> (taxPros st)) st, Some taxPro)
  | None => (st, None)
  end.

(* Reminder operations *)
Definition createReminder (st : Database) (reminder : Reminder) : Database * Reminder :=
  (set_reminders (<[reminder_id reminder := reminder]> (reminders st)) st, reminder).

Definition getReminder (st : Database) (id : string) : option Reminder :=
  reminders st !! id.

Definition markReminderSent (st : Database) (id : string) (now : Z)
    : Database * option Reminder :=
  match reminders st !! id with
  | Some reminder =>
      let reminder := set_sentAt (Some now) (set_sent true reminder) in
      (set_reminders (<[id := reminder]> (reminders st)) st, Some reminder)
  | None => (st, None)
  end.

(* Session operations *)
Definition createSession (st : Database) (session : IntakeSession)
    : Database * IntakeSession :=
  (set_sessions (<[session_id session := session]> (sessions st)) st, session).

Definition getSession (st : Database) (id : string) : option IntakeSession :=
  sessions st !! id.

Definition updateSession (st : Database) (id : string)
    (updates : IntakeSession -> IntakeSession) (now : Z) : Database * option IntakeSession :=
  match sessions st !! id with
  | Some session =>
      let updated := set_lastActivityAt now (updates session) in
      (set_sessions (<[id := updated]> (sessions st)) st, Some updated)
  | None => (st, None)
  end.

End db.

(** The staff directory seeded by [initializeTaxPros]. *)
Definition tp_001 : TaxProfessional :=
  {| tp_id := "tp-001"; tp_name := "Sarah Johnson"; tp_email := "sarah.johnson@taxfirm.com";
     specializations := [sp_individual; sp_self_employment];
     maxComplexity := moderate; currentLoad := 3; maxDailyAppointments := 8;
     available := true; rating := 48 # 10 |}.

Definition tp_002 : TaxProfessional :=
  {| tp_id := "tp-002"; tp_name := "Michael Chen"; tp_email := "michael.chen@taxfirm.com";
     specializations := [sp_investments; sp_crypto; sp_foreign_income];
     maxComplexity := expert; currentLoad := 5; maxDailyAppointments := 6;
     available := true; rating := 49 # 10 |}.

Definition tp_003 : TaxProfessional :=
  {| tp_id := "tp-003"; tp_name := "Emily Rodriguez"; tp_email := "emily.rodriguez@taxfirm.com";
     specializations := [sp_small_business; sp_self_employment; sp_real_estate];
     maxComplexity := complex; currentLoad := 4; maxDailyAppointments := 7;
     available := true; rating := 47 # 10 |}.

Definition tp_004 : TaxProfessional :=
  {| tp_id := "tp-004"; tp_name := "James Wilson"; tp_email := "james.wilson@taxfirm.com";
     specializations := [sp_individual];
     maxComplexity := simple; currentLoad := 6; maxDailyAppointments := 12;
     available := true; rating := 45 # 10 |}.

Definition tp_005 : TaxProfessional :=
  {| tp_id := "tp-005"; tp_name := "Dr. Patricia Martinez";
     tp_email := "patricia.martinez@taxfirm.com";
     specializations := [sp_estate_planning; sp_foreign_income; sp_audit_representation];
     maxComplexity := expert; currentLoad := 2; maxDailyAppointments := 4;
     available := true; rating := 5 # 1 |}.

Definition initialTaxPros : list TaxProfessional := [tp_001; tp_002; tp_003; tp_004; tp_005].

(** [new Database()]. *)
Definition initialDatabase : Database :=
  {| clients := ∅; checklists := ∅; appointments := ∅;
     taxPros := initialTaxPros; reminders := ∅; sessions := ∅ |}.

(** ** More JavaScript helpers *)

(** What a call produces: a returned value or a thrown [Error(message)]. *)
Inductive Outcome (A : Type) :=
  | Returned (a : A)
  | Thrown (error : string).
Arguments Returned {A} a.
Arguments Thrown {A} error.

Definition nl : string := String (Ascii.ascii_of_nat 10) "".

(** [Array.prototype.indexOf]: the first index holding [x], or -1. *)
Fixpoint indexOf {A} `{EqDecision A} (l : list A) (x : A) : Z :=
  match l with
  | [] => -1
  | y :: l' =>
      if decide (y = x) then 0
      else let i := indexOf l' x in if i <? 0 then -1 else i + 1
  end.

(** [Set.prototype.add] on a set kept in insertion order. *)
Definition Set_add {A} `{EqDecision A} (s : list A) (x : A) : list A :=
  if includes s x then s else s ++ [x].

(** [Array.prototype.sort(compareFn)], which is stable: [after a b] stands for
    [compareFn(a, b) > 0], that is, [a] has to come after [b]. *)
Fixpoint sort_insert {A} (after : A -> A -> bool) (x : A) (l : list A) : list A :=
  match l with
  | [] => [x]
  | y :: l' => if after x y then y :: sort_insert after x l' else x :: l
  end.

Definition Array_sort {A} (after : A -> A -> bool) (l : list A) : list A :=
  foldr (sort_insert after) [] l.

(** [Array.prototype.slice(start, end)] for indices within [0, length]. *)
Definition slice {A} (l : list A) (start end_ : nat) : list A :=
  take (end_ - start) (drop start l).

(** [Array.prototype.join]. *)
Fixpoint join (sep : string) (l : list string) : string :=
  match l with
  | [] => ""
  | [x] => x
  | x :: l' => x +:+ sep +:+ join sep l'
  end.

(** The string value of each literal of the union types that get printed. *)
Definition ComplexityLevel_str (l : ComplexityLevel) : string :=
  match l with
  | simple => "simple"
  | moderate => "moderate"
  | complex => "complex"
  | expert => "expert"
  end.

Definition Specialization_str (s : Specialization) : string :=
  match s with
  | sp_individual => "individual"
  | sp_self_employment => "self_employment"
  | sp_small_business => "small_business"
  | sp_investments => "investments"
  | sp_real_estate => "real_estate"
  | sp_crypto => "crypto"
  | sp_foreign_income => "foreign_income"
  | sp_estate_planning => "estate_planning"
  | sp_audit_representation => "audit_representation"
  end.

(** ** services/routing.ts: required specializations and routing *)

Definition getRequiredSpecializations (client : ClientProfile) : list Specialization :=
  let specs : list Specialization := [] in
  (* Base specialization *)
  let specs := Set_add specs sp_individual in
  (* Self-employment / Business *)
  let specs :=
    if hasBusinessIncome client
       || includes (incomeTypes client) self_employment_1099nec
       || includes (incomeTypes client) freelance_1099misc
       || includes (incomeTypes client) gig_economy
    then
      let specs := Set_add specs sp_self_employment in
      if hasBusinessIncome client then Set_add specs sp_small_business else specs
    else specs in
  (* Investments *)
  let specs :=
    if includes (incomeTypes client) investment_income
       || includes (incomeTypes client) dividends
       || includes (incomeTypes client) capital_gains
    then Set_add specs sp_investments else specs in
  (* Real Estate *)
  let specs :=
    if hasRentalProperty client || includes (incomeTypes client) rental_income
    then Set_add specs sp_real_estate else specs in
  (* Crypto *)
  let specs :=
    if hasCrypto client || includes (incomeTypes client) crypto_income
    then Set_add specs sp_crypto else specs in
  (* Foreign *)
  let specs :=
    if hasForeignAccounts client || includes (incomeTypes client) foreign_income
    then Set_add specs sp_foreign_income else specs in
  specs.

(** A scored candidate; the score is the exact rational that the doubles of
    the source approximate ([Float64.ScoredPro] has the double itself). *)
Record ScoredPro := {
  pro : TaxProfessional;
  score : Q;
  reasons : list string;
}.

Definition proComplexityOrder : list ComplexityLevel := [simple; moderate; complex; expert].

(** The callback of [availablePros.map] in [findBestTaxPro]. *)
Definition scorePro (complexityLevel : ComplexityLevel) (requiredSpecs : list Specialization)
    (pro : TaxProfessional) : ScoredPro :=
  let score : Q := 0%Q in
  let reasons : list string := [] in
  (* Can handle complexity? *)
  let proMaxIndex := indexOf proComplexityOrder (maxComplexity pro) in
  let requiredIndex := indexOf proComplexityOrder complexityLevel in
  let '(score, reasons) :=
    if proMaxIndex <? requiredIndex
    then ((score - 100)%Q, reasons ++ ["Cannot handle complexity level"])
    else ((score + 20)%Q, reasons ++ ["Can handle complexity"]) in
  (* Specialization match *)
  let matchingSpecs := List.filter (fun spec => includes (specializations pro) spec) requiredSpecs in
  let specMatchScore :=
    (inject_Z (Z.of_nat (length matchingSpecs)) / inject_Z (Z.of_nat (length requiredSpecs))
     * 50)%Q in
  let score := (score + specMatchScore)%Q in
  let reasons :=
    if (length matchingSpecs =? length requiredSpecs)%nat
    then reasons ++ ["Full specialization match"]
    else if (0 <? length matchingSpecs)%nat
    then reasons ++ ["Partial specialization match (" +:+ pretty (length matchingSpecs)
                     +:+ "/" +:+ pretty (length requiredSpecs) +:+ ")"]
    else reasons in
  (* Availability (prefer less loaded pros) *)
  let loadScore :=
    (inject_Z (Z.of_nat (maxDailyAppointments pro) - Z.of_nat (currentLoad pro))
     / inject_Z (Z.of_nat (maxDailyAppointments pro)) * 20)%Q in
  let score := (score + loadScore)%Q in
  (* Rating bonus *)
  let score := (score + rating pro * 2)%Q in
  {| pro := pro; score := score; reasons := reasons |}.

(** [q > 0] on rationals, as a boolean. *)
Definition Qpositive (q : Q) : bool := negb (Qle_bool q 0).

(** [q < 0] on rationals, as a boolean. *)
Definition Qnegative (q : Q) : bool := negb (Qle_bool 0 q).

(** [scoredPros] after [scoredPros.sort((a, b) => b.score - a.score)]. *)
Definition scoredPros (complexityLevel : ComplexityLevel) (requiredSpecs : list Specialization)
    (availablePros : list TaxProfessional) : list ScoredPro :=
  Array_sort (fun a b => Qpositive (score b - score a))
             (map (scorePro complexityLevel requiredSpecs) availablePros).

Record FindResult := {
  taxPro : option TaxProfessional;
  reason : string;
  alternates : list TaxProfessional;
}.

Record RouteResult := {
  rt_success : bool;
  rt_taxPro : option TaxProfessional;
  rt_message : string;
  rt_alternates : option (list TaxProfessional);
}.

Section Routing.

(** The narrative of a successful match ([formatRoutingReason]) prints a
    floating-point rating and has no effect on the store: its text is kept
    abstract. *)
Variable formatRoutingReason :
  ClientProfile -> TaxProfessional -> ComplexityLevel -> list Specialization -> string.

Definition findBestTaxPro (st : Database) (client : ClientProfile) (now : Z)
    : Database * FindResult :=
  (* Calculate complexity *)
  let complexityScore := calculateComplexityScore client in
  let complexityLevel := getComplexityLevel complexityScore in
  let requiredSpecs := getRequiredSpecializations client in
  (* Update client's complexity score *)
  let st := fst (db.updateClient st (client_id client) (set_complexityScore complexityScore) now) in
  (* Get available tax pros *)
  let availablePros := db.getAvailableTaxPros st in
  if (length availablePros =? 0)%nat then
    (st, {| taxPro := None;
            reason := "No tax professionals are currently available. Please try again later.";
            alternates := [] |})
  else
    (* Score each tax pro, sort by score *)
    match scoredPros complexityLevel requiredSpecs availablePros with
    | [] => (st, {| taxPro := None; reason := ""; alternates := [] |}) (* unreachable *)
    | (best :: _) as sorted =>
        let alternates := map pro (slice sorted 1 3) in
        if Qnegative (score best) then
          (st, {| taxPro := None;
                  reason := "No tax professional available can handle your case (Complexity: "
                            +:+ ComplexityLevel_str complexityLevel
                            +:+ ", Specializations needed: "
                            +:+ join ", " (map Specialization_str requiredSpecs) +:+ ")";
                  alternates := [] |})
        else
          let reasonText := formatRoutingReason client (pro best) complexityLevel requiredSpecs in
          (st, {| taxPro := Some (pro best); reason := reasonText; alternates := alternates |})
    end.

(** The [taxPro] of the result is the object held by the store, so the caller
    sees it with the load that [updateTaxProLoad] has just written. *)
Definition routeClientToTaxPro (st : Database) (clientId : string) (now : Z)
    : Database * RouteResult :=
  match db.getClient st clientId with
  | None => (st, {| rt_success := false; rt_taxPro := None;
                    rt_message := "Client not found"; rt_alternates := None |})
  | Some client =>
      let '(st, found) := findBestTaxPro st client now in
      match taxPro found with
      | None => (st, {| rt_success := false; rt_taxPro := None;
                        rt_message := reason found; rt_alternates := Some (alternates found) |})
      | Some taxPro =>
          (* Update client with assigned tax pro *)
          let st := fst (db.updateClient st clientId (set_assignedTaxPro (Some (tp_id taxPro))) now) in
          (* Update tax pro's load *)
          let '(st, updated) := db.updateTaxProLoad st (tp_id taxPro) 1 in
          (st, {| rt_success := true; rt_taxPro := Some (default taxPro updated);
                  rt_message := reason found; rt_alternates := Some (alternates found) |})
      end
  end.

End Routing.

(** ** services/checklist.ts *)

(** [Omit<DocumentItem, 'id' | 'collected' | 'reminderSent'>] with the
    optional fields that the table sets. *)
Record DocumentTemplate := {
  t_name : string;
  t_description : string;
  t_category : DocumentCategory;
  t_required : bool;
  t_source : option string;
}.

(** The object literal, in property order. *)
Definition DOCUMENT_TEMPLATES : list (string * DocumentTemplate) :=
  [ ("id_primary",
     {| t_name := "Government-issued Photo ID";
        t_description := "Valid driver's license, state ID, or passport";
        t_category := cat_identity; t_required := true; t_source := None |});
    ("id_ssn_card",
     {| t_name := "Social Security Card";
        t_description := "SSN card for yourself and all dependents";
        t_category := cat_identity; t_required := true; t_source := None |});
    ("id_prior_return",
     {| t_name := "Prior Year Tax Return";
        t_description := "Complete copy of last year's federal and state tax returns";
        t_category := cat_identity; t_required := false; t_source := None |});
    ("income_w2",
     {| t_name := "W-2 Forms";
        t_description := "W-2 from each employer showing wages and withholdings";
        t_category := cat_income; t_required := true; t_source := None |});
    ("income_1099nec",
     {| t_name := "1099-NEC Forms";
        t_description := "Non-employee compensation from clients/companies (Uber, freelance work, etc.)";
        t_category := cat_income; t_required := true; t_source := None |});
    ("income_1099misc",
     {| t_name := "1099-MISC Forms";
        t_description := "Miscellaneous income including royalties, prizes, awards";
        t_category := cat_income; t_required := true; t_source := None |});
    ("income_1099k",
     {| t_name := "1099-K Forms";
        t_description := "Payment card and third-party network transactions (PayPal, Venmo, etc.)";
        t_category := cat_income; t_required := true; t_source := None |});
    ("income_1099div",
     {| t_name := "1099-DIV Forms";
        t_description := "Dividend income from investments";
        t_category := cat_investments; t_required := true; t_source := None |});
    ("income_1099int",
     {| t_name := "1099-INT Forms";
        t_description := "Interest income from banks and investments";
        t_category := cat_investments; t_required := true; t_source := None |});
    ("income_1099b",
     {| t_name := "1099-B Forms";
        t_description := "Proceeds from broker and barter exchange transactions";
        t_category := cat_investments; t_required := true; t_source := None |});
    ("income_1099r",
     {| t_name := "1099-R Forms";
        t_description := "Distributions from pensions, annuities, retirement plans, IRAs";
        t_category := cat_income; t_required := true; t_source := None |});
    ("income_ssa1099",
     {| t_name := "SSA-1099";
        t_description := "Social Security benefit statement";
        t_category := cat_income; t_required := true; t_source := None |});
    ("income_1099g",
     {| t_name := "1099-G Forms";
        t_description := "Unemployment compensation and state tax refunds";
        t_category := cat_income; t_required := true; t_source := None |});
    ("income_crypto",
     {| t_name := "Cryptocurrency Transaction Records";
        t_description := "Complete transaction history from all crypto exchanges (Coinbase, Binance, etc.)";
        t_category := cat_investments; t_required := true; t_source := None |});
    ("income_crypto_1099",
     {| t_name := "Crypto 1099 Forms";
        t_description := "1099-MISC or 1099-B from cryptocurrency exchanges";
        t_category := cat_investments; t_required := false; t_source := None |});
    ("income_rental",
     {| t_name := "Rental Income Records";
        t_description := "Annual rental income summary for each property";
        t_category := cat_property; t_required := true; t_source := None |});
    ("expense_rental",
     {| t_name := "Rental Expense Records";
        t_description := "Receipts for repairs, maintenance, property management, insurance";
        t_category := cat_property; t_required := true; t_source := None |});
    ("doc_1098_rental",
     {| t_name := "1098 Mortgage Interest (Rental)";
        t_description := "Mortgage interest statement for rental properties";
        t_category := cat_property; t_required := true; t_source := None |});
    ("income_foreign",
     {| t_name := "Foreign Income Documentation";
        t_description := "Income statements from foreign employers or sources";
        t_category := cat_income; t_required := true; t_source := None |});
    ("doc_fbar",
     {| t_name := "Foreign Bank Account Records";
        t_description := "Statements showing highest balances for all foreign accounts (FBAR requirement)";
        t_category := cat_other; t_required := true; t_source := None |});
    ("income_business",
     {| t_name := "Business Income Records";
        t_description := "Profit & Loss statement or income summary for your business";
        t_category := cat_business; t_required := true; t_source := None |});
    ("expense_business",
     {| t_name := "Business Expense Records";
        t_description := "Receipts and records for all business expenses";
        t_category := cat_business; t_required := true; t_source := None |});
    ("doc_business_assets",
     {| t_name := "Business Asset Records";
        t_description := "Records of equipment, vehicles, and other assets purchased for business";
        t_category := cat_business; t_required := false; t_source := None |});
    ("ded_1098",
     {| t_name := "1098 Mortgage Interest Statement";
        t_description := "Shows mortgage interest paid during the year";
        t_category := cat_property; t_required := true; t_source := None |});
    ("ded_property_tax",
     {| t_name := "Property Tax Statements";
        t_description := "Annual property tax bills or statements";
        t_category := cat_property; t_required := true; t_source := None |});
    ("ded_charity_cash",
     {| t_name := "Charitable Donation Receipts";
        t_description := "Receipts for cash donations to qualified charities";
        t_category := cat_expenses; t_required := true; t_source := None |});
    ("ded_charity_noncash",
     {| t_name := "Non-Cash Donation Records";
        t_description := "Receipts and fair market value for donated items";
        t_category := cat_expenses; t_required := false; t_source := None |});
    ("ded_1098e",
     {| t_name := "1098-E Student Loan Interest";
        t_description := "Statement showing student loan interest paid";
        t_category := cat_education; t_required := true; t_source := None |});
    ("ded_1098t",
     {| t_name := "1098-T Tuition Statement";
        t_description := "Statement of tuition paid for higher education";
        t_category := cat_education; t_required := true; t_source := None |});
    ("ded_401k",
     {| t_name := "401(k) Contribution Records";
        t_description := "Year-end statement showing 401(k) contributions (usually on W-2)";
        t_category := cat_other; t_required := false; t_source := None |});
    ("ded_ira",
     {| t_name := "IRA Contribution Records";
        t_description := "Form 5498 or statements showing IRA contributions";
        t_category := cat_other; t_required := true; t_source := None |});
    ("ded_hsa",
     {| t_name := "HSA Contribution Records";
        t_description := "Form 5498-SA or statements showing HSA contributions";
        t_category := cat_healthcare; t_required := true; t_source := None |});
    ("ded_1099sa",
     {| t_name := "1099-SA HSA Distributions";
        t_description := "Statement of HSA distributions";
        t_category := cat_healthcare; t_required := true; t_source := None |});
    ("ded_medical",
     {| t_name := "Medical Expense Records";
        t_description := "Receipts for out-of-pocket medical expenses";
        t_category := cat_healthcare; t_required := false; t_source := None |});
    ("ded_childcare",
     {| t_name := "Childcare Provider Information";
        t_description := "Provider name, address, tax ID, and amount paid";
        t_category := cat_expenses; t_required := true; t_source := None |});
    ("hc_1095a",
     {| t_name := "1095-A Health Insurance Marketplace";
        t_description := "Statement from Healthcare.gov if you had marketplace insurance";
        t_category := cat_healthcare; t_required := true; t_source := None |});
    ("hc_1095b",
     {| t_name := "1095-B Health Coverage";
        t_description := "Statement from health insurance provider";
        t_category := cat_healthcare; t_required := false; t_source := None |});
    ("ded_home_office",
     {| t_name := "Home Office Records";
        t_description := "Square footage of home and office, home expenses (utilities, rent/mortgage, etc.)";
        t_category := cat_business; t_required := true; t_source := None |});
    ("gig_uber",
     {| t_name := "1099-NEC from Uber";
        t_description := "Non-employee compensation from Uber";
        t_category := cat_income; t_required := true; t_source := Some "Uber" |});
    ("gig_lyft",
     {| t_name := "1099-NEC from Lyft";
        t_description := "Non-employee compensation from Lyft";
        t_category := cat_income; t_required := true; t_source := Some "Lyft" |});
    ("gig_doordash",
     {| t_name := "1099-NEC from DoorDash";
        t_description := "Non-employee compensation from DoorDash";
        t_category := cat_income; t_required := true; t_source := Some "DoorDash" |});
    ("gig_mileage",
     {| t_name := "Mileage Log";
        t_description := "Record of business miles driven for gig work";
        t_category := cat_business; t_required := true; t_source := None |}) ].

(** Property access [table[key]] on an object literal. *)
Fixpoint Object_get {V} (table : list (string * V)) (key : string) : option V :=
  match table with
  | [] => None
  | (k, v) :: table' => if decide (k = key) then Some v else Object_get table' key
  end.

Definition INCOME_TO_DOCUMENTS (t : IncomeType) : list string :=
  match t with
  | wages_w2 => ["income_w2"]
  | self_employment_1099nec => ["income_1099nec"; "income_1099k"; "expense_business"]
  | freelance_1099misc => ["income_1099misc"; "income_1099nec"; "expense_business"]
  | gig_economy => ["income_1099nec"; "income_1099k"; "gig_mileage"]
  | rental_income => ["income_rental"; "expense_rental"; "doc_1098_rental"]
  | investment_income => ["income_1099b"; "income_1099int"]
  | dividends => ["income_1099div"]
  | capital_gains => ["income_1099b"]
  | retirement_distributions => ["income_1099r"]
  | social_security => ["income_ssa1099"]
  | unemployment => ["income_1099g"]
  | alimony_received => []
  | gambling_winnings => []
  | crypto_income => ["income_crypto"; "income_crypto_1099"]
  | foreign_income => ["income_foreign"; "doc_fbar"]
  | other_income => []
  end.

Definition DEDUCTION_TO_DOCUMENTS (d : DeductionType) : list string :=
  match d with
  | mortgage_interest => ["ded_1098"]
  | property_taxes => ["ded_property_tax"]
  | state_local_taxes => []
  | charitable_donations => ["ded_charity_cash"; "ded_charity_noncash"]
  | medical_expenses => ["ded_medical"]
  | student_loan_interest => ["ded_1098e"]
  | educator_expenses => []
  | home_office => ["ded_home_office"]
  | business_expenses => ["expense_business"; "doc_business_assets"]
  | hsa_contributions => ["ded_hsa"; "ded_1099sa"]
  | ira_contributions => ["ded_ira"]
  | k401_contributions => ["ded_401k"]
  | childcare_expenses => ["ded_childcare"]
  | alimony_paid => []
  | moving_expenses => []
  | no_deduction => []
  end.

(** One call of an id generator reads [Date.now()] and draws
    [Math.random().toString(36).substr(2, 9)]: both come from outside, as a
    pair. *)
Definition Entropy : Type := Z * string.

Definition generateDocumentId (e : Entropy) : string :=
  "doc-" +:+ pretty (fst e) +:+ "-" +:+ snd e.

Definition DocumentCategory_str (c : DocumentCategory) : string :=
  match c with
  | cat_identity => "identity"
  | cat_income => "income"
  | cat_expenses => "expenses"
  | cat_investments => "investments"
  | cat_property => "property"
  | cat_business => "business"
  | cat_healthcare => "healthcare"
  | cat_education => "education"
  | cat_other => "other"
  end.

(** [a.localeCompare(b)] on lower-case ASCII words, where it is the
    lexicographic order. *)
Definition localeCompare (a b : string) : Z :=
  match String.compare a b with
  | Lt => -1
  | Eq => 0
  | Gt => 1
  end.

(** The comparator of [documents.sort]. *)
Definition compareDocuments (a b : DocumentItem) : Z :=
  if negb (Bool.eqb (required a) (required b))
  then (if required a then -1 else 1)
  else localeCompare (DocumentCategory_str (category a)) (DocumentCategory_str (category b)).

(** The callback of [documentSet.forEach] in [generateDocumentChecklist]:
    [documents] is the array built so far. [entropy n] feeds the [n]-th call of
    [generateDocumentId] of the run. *)
Definition addDocumentItem (client : ClientProfile) (entropy : nat -> Entropy)
    (documents : list DocumentItem) (docKey : string) : list DocumentItem :=
  match Object_get DOCUMENT_TEMPLATES docKey with
  | Some template =>
      documents ++
      [ {| doc_id := generateDocumentId (entropy (length documents));
           doc_name := t_name template;
           description := t_description template;
           category := t_category template;
           required := t_required template;
           collected := includes (documentsCollected client) docKey;
           source := t_source template;
           reminderSent := false;
           reminderSentAt := None;
           doc_notes := None |} ]
  | None => documents
  end.

(** The first half of [generateDocumentChecklist]: the keys gathered in
    [documentSet], in insertion order. *)
Definition documentSetOf (client : ClientProfile) : list string :=
  let documentSet : list string := [] in
  (* Always include identity documents *)
  let documentSet :=
    fold_left Set_add ["id_primary"; "id_ssn_card"; "id_prior_return"] documentSet in
  (* Add documents based on income types *)
  let documentSet :=
    fold_left (fun documentSet incomeType =>
                 fold_left Set_add (INCOME_TO_DOCUMENTS incomeType) documentSet)
              (incomeTypes client) documentSet in
  (* Add documents based on deductions *)
  let documentSet :=
    fold_left (fun documentSet deductionType =>
                 fold_left Set_add (DEDUCTION_TO_DOCUMENTS deductionType) documentSet)
              (deductions client) documentSet in
  (* Add special situation documents *)
  let documentSet :=
    if hasCrypto client
    then fold_left Set_add ["income_crypto"; "income_crypto_1099"] documentSet
    else documentSet in
  let documentSet :=
    if hasForeignAccounts client
    then fold_left Set_add ["income_foreign"; "doc_fbar"] documentSet
    else documentSet in
  let documentSet :=
    if hasRentalProperty client
    then fold_left Set_add ["income_rental"; "expense_rental"; "doc_1098_rental"] documentSet
    else documentSet in
  let documentSet :=
    if hasBusinessIncome client
    then fold_left Set_add ["income_business"; "expense_business"; "doc_business_assets";
                            "ded_home_office"] documentSet
    else documentSet in
  let documentSet :=
    if hasHealthInsurance client
    then fold_left Set_add ["hc_1095a"; "hc_1095b"] documentSet
    else documentSet in
  documentSet.

Definition generateDocumentChecklist (st : Database) (clientId : string) (now : Z)
    (entropy : nat -> Entropy) : Outcome (Database * DocumentChecklist) :=
  match db.getClient st clientId with
  | None => Thrown "Client not found"
  | Some client =>
      let documentSet := documentSetOf client in
      (* Convert to DocumentItem array *)
      let documents := fold_left (addDocumentItem client entropy) documentSet [] in
      (* Sort by category and required status *)
      let documents := Array_sort (fun a b => 0 <? compareDocuments a b) documents in
      let checklist :=
        {| cl_clientId := clientId; documents := documents;
           generatedAt := now; lastUpdated := now |} in
      (* Update client with pending documents *)
      let documentsPending :=
        map doc_id (List.filter (fun d => negb (collected d) && required d) documents) in
      let st := fst (db.updateClient st clientId (set_documentsPending documentsPending) now) in
      (* Save checklist *)
      let st := fst (db.saveChecklist st checklist) in
      Returned (st, checklist)
  end.

Definition getDocumentChecklist (st : Database) (clientId : string) : option DocumentChecklist :=
  db.getChecklist st clientId.

Record OpResult := {
  success : bool;
  op_message : string;
}.

Definition dquote : string := String (Ascii.ascii_of_nat 34) "".

Definition markDocumentCollected (st : Database) (clientId documentId : string) (now : Z)
    : Database * OpResult :=
  match db.getChecklist st clientId with
  | None => (st, {| success := false; op_message := "Checklist not found" |})
  | Some checklist =>
      match List.find (fun d => bool_decide (doc_id d = documentId)) (documents checklist) with
      | None => (st, {| success := false; op_message := "Document not found in checklist" |})
      | Some document =>
          let st := fst (db.updateChecklistItem st clientId documentId (set_collected true) now) in
          (* Update client's collected documents *)
          let st :=
            match db.getClient st clientId with
            | Some client =>
                let documentsCollected :=
                  if negb (includes (documentsCollected client) documentId)
                  then documentsCollected client ++ [documentId]
                  else documentsCollected client in
                let documentsPending :=
                  List.filter (fun id => negb (bool_decide (id = documentId)))
                              (documentsPending client) in
                fst (db.updateClient st clientId
                       (fun c => set_documentsPending documentsPending
                                   (set_documentsCollected documentsCollected c))
                       now)
            | None => st
            end in
          (st, {| success := true;
                  op_message := "Marked " +:+ dquote +:+ doc_name document +:+ dquote
                                +:+ " as collected" |})
      end
  end.

Definition getPendingDocuments (st : Database) (clientId : string) : list DocumentItem :=
  match db.getChecklist st clientId with
  | None => []
  | Some checklist => List.filter (fun d => negb (collected d) && required d) (documents checklist)
  end.

(** ** services/routing.ts: appointments *)

Definition toUpperCase_ascii (c : Ascii.ascii) : Ascii.ascii :=
  let n := Ascii.nat_of_ascii c in
  if ((97 <=? n) && (n <=? 122))%nat then Ascii.ascii_of_nat (n - 32) else c.

(** [s.charAt(0).toUpperCase() + s.slice(1)] on an ASCII word. *)
Definition capitalize (s : string) : string :=
  match s with
  | EmptyString => EmptyString
  | String c rest => String (toUpperCase_ascii c) rest
  end.

Definition generateAppointmentId (e : Entropy) : string :=
  "apt-" +:+ pretty (fst e) +:+ "-" +:+ snd e.

(** [type] is [None] when the caller leaves the parameter out (it defaults to
    'virtual'). *)
Definition createAppointment (st : Database) (clientId taxProId : string) (scheduledAt : Z)
    (type : option AppointmentType) (now : Z) (e : Entropy)
    : Outcome (Database * Appointment) :=
  match db.getClient st clientId with
  | None => Thrown "Client not found"
  | Some client =>
      let type := default virtual type in
      let complexityLevel := getComplexityLevel (complexityScore client) in
      (* Determine duration based on complexity and intake completion *)
      let duration :=
        if intakeCompleted client then
          (* Reduced time for completed intake *)
          match complexityLevel with
          | simple => 15
          | moderate => 20
          | complex => 30
          | expert => 45
          end
        else
          (* Standard time without intake *)
          match complexityLevel with
          | simple => 30
          | moderate => 45
          | complex => 60
          | expert => 90
          end in
      let appointment :=
        {| apt_id := generateAppointmentId e;
           apt_clientId := clientId;
           taxProId := taxProId;
           scheduledAt := scheduledAt;
           duration := duration;
           apt_status := apt_scheduled;
           apt_type := type;
           apt_notes := None;
           intakeScore := if intakeCompleted client then 100 else 0;
           estimatedComplexity := complexityLevel |} in
      let st := fst (db.createAppointment st appointment) in
      let st := fst (db.updateClient st clientId (set_appointmentId (Some (apt_id appointment))) now) in
      Returned (st, appointment)
  end.

Record Estimate := {
  estimatedDuration : Z;
  savings : Z;
  est_complexityLevel : ComplexityLevel;
  est_message : string;
}.

Definition standardDurations (l : ComplexityLevel) : Z :=
  match l with
  | simple => 30
  | moderate => 45
  | complex => 60
  | expert => 90
  end.

Definition optimizedDurations (l : ComplexityLevel) : Z :=
  match l with
  | simple => 15
  | moderate => 20
  | complex => 30
  | expert => 45
  end.

Definition getAppointmentEstimate (st : Database) (clientId : string) : Outcome Estimate :=
  match db.getClient st clientId with
  | None => Thrown "Client not found"
  | Some client =>
      let complexityLevel := getComplexityLevel (complexityScore client) in
      (* Calculate time savings *)
      let standardTime := standardDurations complexityLevel in
      let optimizedTime := optimizedDurations complexityLevel in
      let savings := standardTime - optimizedTime in
      let message := ("## Appointment Time Estimate" +:+ nl +:+ nl) in
      let message := message +:+ ("üìä **Your Tax Complexity:** " +:+ capitalize (ComplexityLevel_str complexityLevel) +:+ nl +:+ nl) in
      let message :=
        if intakeCompleted client then
          let message := message +:+ ("‚úÖ **Intake Status:** Complete" +:+ nl +:+ nl) in
          let message := message +:+ ("‚è±Ô∏è **Estimated Appointment Time:** " +:+ pretty optimizedTime +:+ " minutes" +:+ nl) in
          let message := message +:+ ("üí™ **Time Saved:** " +:+ pretty savings +:+ " minutes (compared to " +:+ pretty standardTime +:+ " min without pre-intake)" +:+ nl +:+ nl) in
          message +:+ ("Thanks to completing your intake and gathering documents ahead of time, we can focus on what matters during your appointment!")
        else
          let message := message +:+ ("‚ö†Ô∏è **Intake Status:** Incomplete" +:+ nl +:+ nl) in
          let message := message +:+ ("‚è±Ô∏è **Current Estimated Time:** " +:+ pretty standardTime +:+ " minutes" +:+ nl) in
          let message := message +:+ ("üí° **Complete your intake to reduce to:** " +:+ pretty optimizedTime +:+ " minutes" +:+ nl) in
          message +:+ ("üìà **Potential Time Savings:** " +:+ pretty savings +:+ " minutes" +:+ nl) in
      Returned
        {| estimatedDuration := if intakeCompleted client then optimizedTime else standardTime;
           savings := if intakeCompleted client then savings else 0;
           est_complexityLevel := complexityLevel;
           est_message := message |}
  end.

(** ** services/reminders.ts: sending a reminder ([console.log] left out) *)

Definition Channel_str (c : Channel) : string :=
  match c with
  | ch_email => "email"
  | ch_sms => "sms"
  | ch_both => "both"
  end.

Definition sendReminder (st : Database) (reminderId : string) (now : Z) : Database * OpResult :=
  match db.getReminder st reminderId with
  | None => (st, {| success := false; op_message := "Reminder not found" |})
  | Some reminder =>
      if sent reminder
      then (st, {| success := false; op_message := "Reminder already sent" |})
      else
        match db.getClient st (rem_clientId reminder) with
        | None => (st, {| success := false; op_message := "Client not found" |})
        | Some client =>
            let st := fst (db.markReminderSent st reminderId now) in
            (st, {| success := true;
                    op_message := "Reminder sent to " +:+ email client +:+ " via "
                                  +:+ Channel_str (channel reminder) |})
        end
  end.

(** ** services/intake.ts *)

(** *** Strings

    Strings are byte strings; case mapping, whitespace and the character
    classes of the phone pattern are the ASCII ones. *)

Definition toLowerCase_ascii (c : Ascii.ascii) : Ascii.ascii :=
  let n := Ascii.nat_of_ascii c in
  if ((65 <=? n) && (n <=? 90))%nat then Ascii.ascii_of_nat (n + 32) else c.

Fixpoint toLowerCase (s : string) : string :=
  match s with
  | EmptyString => EmptyString
  | String c rest => String (toLowerCase_ascii c) (toLowerCase rest)
  end.

(** [String.prototype.includes]. *)
Fixpoint String_includes (s sub : string) : bool :=
  String.prefix sub s
  || match s with
     | EmptyString => false
     | String _ rest => String_includes rest sub
     end.

Definition isWhitespace (c : Ascii.ascii) : bool :=
  let n := Ascii.nat_of_ascii c in
  ((9 <=? n) && (n <=? 13) || (n =? 32))%nat.

Fixpoint trimStart (s : string) : string :=
  match s with
  | EmptyString => EmptyString
  | String c rest => if isWhitespace c then trimStart rest else s
  end.

Fixpoint trimEnd (s : string) : string :=
  match s with
  | EmptyString => EmptyString
  | String c rest =>
      match trimEnd rest with
      | EmptyString => if isWhitespace c then EmptyString else String c EmptyString
      | rest' => String c rest'
      end
  end.

Definition trim (s : string) : string := trimEnd (trimStart s).

(** [s.split(' ')]. *)
Fixpoint split_space (s : string) : list string :=
  match s with
  | EmptyString => [EmptyString]
  | String c rest =>
      if decide (c = " "%char) then EmptyString :: split_space rest
      else match split_space rest with
           | part :: parts => String c part :: parts
           | [] => [String c EmptyString]
           end
  end.

Definition isDigit (c : Ascii.ascii) : bool :=
  let n := Ascii.nat_of_ascii c in ((48 <=? n) && (n <=? 57))%nat.

(** [\d{n}] at the start of [s]: what follows the [n] digits. *)
Fixpoint digits (n : nat) (s : string) : option string :=
  match n with
  | O => Some s
  | S n' =>
      match s with
      | String c rest => if isDigit c then digits n' rest else None
      | EmptyString => None
      end
  end.

(** [[-.\s]?] at the start of [s]: a separator is never a digit, so the
    match that takes it is the only one that can go on. *)
Definition optionalSeparator (s : string) : string :=
  match s with
  | String c rest =>
      if bool_decide (c = "-"%char) || bool_decide (c = "."%char) || isWhitespace c
      then rest else s
  | EmptyString => s
  end.

Definition phonePatternAt (s : string) : bool :=
  match digits 3 s with
  | Some s1 =>
      match digits 3 (optionalSeparator s1) with
      | Some s2 =>
          match digits 4 (optionalSeparator s2) with
          | Some _ => true
          | None => false
          end
      | None => false
      end
  | None => false
  end.

(** [/\d{3}[-.\s]?\d{3}[-.\s]?\d{4}/.test(s)]. *)
Fixpoint phonePattern_test (s : string) : bool :=
  phonePatternAt s
  || match s with
     | EmptyString => false
     | String _ rest => phonePattern_test rest
     end.

(** *** The script *)

Definition INTAKE_STEPS : list IntakeStep :=
  [ personal_info; filing_status; dependents_step; employment; income_types;
    deductions_step; special_situations; document_upload; review; complete ].

Definition INTAKE_QUESTIONS (s : IntakeStep) : list string :=
  match s with
  | personal_info =>
      [ "What is your full legal name?";
        "What is your email address?";
        "What is your phone number?";
        "What is your date of birth?";
        "What is your current address?" ]
  | filing_status =>
      [ "What is your filing status? (Single, Married Filing Jointly, Married Filing Separately, Head of Household, Qualifying Widow/Widower)" ]
  | dependents_step =>
      [ "Do you have any dependents to claim?";
        "For each dependent, please provide: name, relationship, date of birth, and months lived with you." ]
  | employment =>
      [ "Who were your employers in 2024?";
        "For each employer, were you a W-2 employee or 1099 contractor?";
        "Did you have any self-employment or freelance income?" ]
  | income_types =>
      [ "Besides employment, what other types of income did you receive? (investments, rental property, retirement distributions, etc.)" ]
  | deductions_step =>
      [ "Do you own a home and pay mortgage interest?";
        "Did you make any charitable donations?";
        "Do you have student loans?";
        "Did you contribute to retirement accounts (401k, IRA)?";
        "Do you have any business expenses or home office deductions?" ]
  | special_situations =>
      [ "Did you buy or sell cryptocurrency?";
        "Do you have any foreign bank accounts or foreign income?";
        "Did you buy or sell real estate?";
        "Did you have any major life changes (marriage, divorce, new baby, etc.)?" ]
  | document_upload =>
      [ "Please upload or confirm you have gathered all required documents from your checklist." ]
  | review =>
      [ "Please review all your information and confirm it's accurate." ]
  | complete => []
  end.

Definition createNewClient (st : Database) (id : string) (now : Z) : Database * ClientProfile :=
  let client :=
    {| client_id := id; firstName := ""; lastName := ""; email := ""; phone := "";
       ssn := None; dateOfBirth := None; address := None;
       filingStatus := single; dependents := []; employmentInfo := [];
       incomeTypes := []; deductions := []; previousYearAGI := None;
       hasHealthInsurance := false; hasCrypto := false; hasForeignAccounts := false;
       hasRentalProperty := false; hasBusinessIncome := false;
       appointmentId := None; intakeCompleted := false; intakeCompletedAt := None;
       documentsCollected := []; documentsPending := []; complexityScore := 0;
       assignedTaxPro := None; notes := []; createdAt := now; updatedAt := now |} in
  db.createClient st client.

Definition getCurrentQuestion (session : IntakeSession) : string :=
  let stepQuestions := INTAKE_QUESTIONS (currentStep session) in
  let stepResponses :=
    List.filter (fun r => bool_decide (step r = currentStep session)) (responses session) in
  let index := Z.min (Z.of_nat (length stepResponses)) (Z.of_nat (length stepQuestions) - 1) in
  if index <? 0 then "" else default "" (stepQuestions !! Z.to_nat index).

Definition isStepComplete (step : IntakeStep) (answer : string) : bool :=
  (* Simple heuristics - can be enhanced with more sophisticated logic *)
  let lowerAnswer := toLowerCase answer in
  if bool_decide (step = dependents_step)
     && (String_includes lowerAnswer "no" || String_includes lowerAnswer "none")
  then true
  else if bool_decide (step = special_situations)
          && String_includes lowerAnswer "no" && String_includes lowerAnswer "none"
  then true
  else false.

(** [[...new Set([...old, ...added])]]. *)
Definition mergeUnique {A} `{EqDecision A} (old added : list A) : list A :=
  fold_left Set_add (old ++ added) [].

(** [if (cond) list.push(x)]. *)
Definition pushIf {A} (cond : bool) (x : A) (l : list A) : list A :=
  if cond then l ++ [x] else l.

(** The [client] object is changed in place and then written back with
    [db.updateClient(client.id, client)]; the changed object is returned as
    well, because the caller goes on using it. *)
Definition updateClientFromResponse (st : Database) (client : ClientProfile)
    (step : IntakeStep) (answer : string) (now : Z) : Database * ClientProfile :=
  let lowerAnswer := toLowerCase answer in
  let has := String_includes lowerAnswer in
  let client :=
    match step with
    | personal_info =>
        (* Parse name, email, phone from answer *)
        if String_includes answer "@" then set_email (trim answer) client
        else if phonePattern_test answer then set_phone (trim answer) client
        else if String_includes answer " " then
          let parts := split_space (trim answer) in
          set_lastName (join " " (drop 1 parts)) (set_firstName (default "" (parts !! 0%nat)) client)
        else client
    | filing_status =>
        if has "single" then set_filingStatus single client
        else if has "jointly" then set_filingStatus married_filing_jointly client
        else if has "separately" then set_filingStatus married_filing_separately client
        else if has "head" then set_filingStatus head_of_household client
        else if has "widow" then set_filingStatus qualifying_widow client
        else client
    | income_types =>
        (* [found] is the local array [incomeTypes] *)
        let found : list IncomeType := [] in
        let found := pushIf (has "w2" || has "w-2") wages_w2 found in
        let found :=
          pushIf (has "1099" || has "freelance" || has "contractor")
                 self_employment_1099nec found in
        let found :=
          pushIf (has "uber" || has "lyft" || has "doordash" || has "gig")
                 gig_economy found in
        let '(found, client) :=
          if has "rental" || has "property"
          then (found ++ [rental_income], set_hasRentalProperty true client)
          else (found, client) in
        let found :=
          if has "invest" || has "stock" || has "dividend"
          then found ++ [investment_income] ++ [dividends]
          else found in
        let '(found, client) :=
          if has "crypto" || has "bitcoin"
          then (found ++ [crypto_income], set_hasCrypto true client)
          else (found, client) in
        let found :=
          pushIf (has "retirement" || has "pension" || has "401k")
                 retirement_distributions found in
        let found := pushIf (has "social security") social_security found in
        set_incomeTypes (mergeUnique (incomeTypes client) found) client
    | deductions_step =>
        (* [found] is the local array [deductions] *)
        let found : list DeductionType := [] in
        let found := pushIf (has "mortgage") mortgage_interest found in
        let found := pushIf (has "property tax") property_taxes found in
        let found := pushIf (has "charit" || has "donat") charitable_donations found in
        let found := pushIf (has "student loan") student_loan_interest found in
        let found :=
          if has "401k" || has "ira" || has "retirement"
          then found ++ [k401_contributions] ++ [ira_contributions]
          else found in
        let found := pushIf (has "home office") home_office found in
        let '(found, client) :=
          if has "business expense"
          then (found ++ [business_expenses], set_hasBusinessIncome true client)
          else (found, client) in
        let found := pushIf (has "childcare" || has "daycare") childcare_expenses found in
        set_deductions (mergeUnique (deductions client) found) client
    | special_situations =>
        let client :=
          if has "crypto" || has "bitcoin" then
            let client := set_hasCrypto true client in
            set_incomeTypes
              (pushIf (negb (includes (incomeTypes client) crypto_income))
                      crypto_income (incomeTypes client))
              client
          else client in
        let client :=
          if has "foreign" then
            let client := set_hasForeignAccounts true client in
            set_incomeTypes
              (pushIf (negb (includes (incomeTypes client) foreign_income))
                      foreign_income (incomeTypes client))
              client
          else client in
        if has "rental" || has "real estate" then set_hasRentalProperty true client else client
    | employment =>
        (* Parse employment info *)
        if has "self-employ" || has "freelance" || has "own business" then
          let client := set_hasBusinessIncome true client in
          set_incomeTypes
            (pushIf (negb (includes (incomeTypes client) self_employment_1099nec))
                    self_employment_1099nec (incomeTypes client))
            client
        else client
    | _ => client
    end in
  (fst (db.updateClient st (client_id client) (fun _ => client) now), client).

Record IntakeResult := {
  ir_success : bool;
  nextQuestion : option string;
  ir_currentStep : option IntakeStep;
  stepCompleted : option bool;
  ir_intakeCompleted : option bool;
  ir_client : option ClientProfile;
  ir_message : option string;
}.

Definition intakeFailure (message : string) : IntakeResult :=
  {| ir_success := false; nextQuestion := None; ir_currentStep := None;
     stepCompleted := None; ir_intakeCompleted := None; ir_client := None;
     ir_message := Some message |}.

(** The tail of [processIntakeResponse], reached when the step goes on (or
    when the last step is answered): the session is written back and the next
    question of the current step is asked. *)
Definition continueStep (st : Database) (sessionId : string) (session : IntakeSession)
    (client : ClientProfile) (stepQuestions : list string) (stepResponses : list IntakeResponse)
    (now : Z) : Database * IntakeResult :=
  let st := fst (db.updateSession st sessionId (fun _ => session) now) in
  (* Get next question in current step *)
  let nextQuestionIndex := length stepResponses in
  if (nextQuestionIndex <? length stepQuestions)%nat then
    (st, {| ir_success := true; nextQuestion := stepQuestions !! nextQuestionIndex;
            ir_currentStep := Some (currentStep session); stepCompleted := Some false;
            ir_intakeCompleted := None; ir_client := Some client; ir_message := None |})
  else
    (st, {| ir_success := true; nextQuestion := Some "Please provide more details.";
            ir_currentStep := Some (currentStep session); stepCompleted := None;
            ir_intakeCompleted := None; ir_client := Some client; ir_message := None |}).

Definition processIntakeResponse (st : Database) (sessionId : string) (answer : string)
    (now : Z) : Database * IntakeResult :=
  match db.getSession st sessionId with
  | None => (st, intakeFailure "Session not found")
  | Some session =>
      match db.getClient st (ses_clientId session) with
      | None => (st, intakeFailure "Client not found")
      | Some client =>
          (* Store the response *)
          let response :=
            {| step := currentStep session; question := getCurrentQuestion session;
               answer := answer; timestamp := now |} in
          let session := set_responses (responses session ++ [response]) session in
          (* Process the response and update client profile *)
          let '(st, client) :=
            updateClientFromResponse st client (currentStep session) answer now in
          (* Is the current step complete? *)
          let stepQuestions := INTAKE_QUESTIONS (currentStep session) in
          let stepResponses :=
            List.filter (fun r => bool_decide (step r = currentStep session))
                        (responses session) in
          if (length stepQuestions <=? length stepResponses)%nat
             || isStepComplete (currentStep session) answer
          then
            (* Move to next step *)
            let session :=
              set_completedSteps (completedSteps session ++ [currentStep session]) session in
            let currentIndex := indexOf INTAKE_STEPS (currentStep session) in
            if currentIndex <? Z.of_nat (length INTAKE_STEPS) - 1 then
              let session :=
                set_currentStep
                  (default (currentStep session) (INTAKE_STEPS !! Z.to_nat (currentIndex + 1)))
                  session in
              if bool_decide (currentStep session = complete) then
                let session := set_ses_status completed session in
                let client := set_intakeCompletedAt (Some now) (set_intakeCompleted true client) in
                let st := fst (db.updateClient st (client_id client) (fun _ => client) now) in
                let st := fst (db.updateSession st sessionId (fun _ => session) now) in
                (st, {| ir_success := true; nextQuestion := None; ir_currentStep := None;
                        stepCompleted := None; ir_intakeCompleted := Some true;
                        ir_client := Some client;
                        ir_message := Some "Congratulations! Your intake is complete. We will now generate your personalized document checklist." |})
              else
                let st := fst (db.updateSession st sessionId (fun _ => session) now) in
                (st, {| ir_success := true;
                        nextQuestion := INTAKE_QUESTIONS (currentStep session) !! 0%nat;
                        ir_currentStep := Some (currentStep session);
                        stepCompleted := Some true; ir_intakeCompleted := None;
                        ir_client := Some client; ir_message := None |})
            else continueStep st sessionId session client stepQuestions stepResponses now
          else continueStep st sessionId session client stepQuestions stepResponses now
      end
  end.

(** ** index.ts: the boundary of a tool call

    The request handler runs the selected operation inside [try] and turns a
    thrown error into an error response. *)

Record ToolResponse := {
  text : string;
  isError : bool;
}.

Definition atCallBoundary {A} (render : A -> string) (o : Outcome A) : ToolResponse :=
  match o with
  | Returned a => {| text := render a; isError := false |}
  | Thrown error => {| text := "Error: " +:+ error; isError := true |}
  end.

(** ** Histories of operations

    The operations that write to the store, to speak about the stores that a
    run of the services can reach. [OpNewClient] and [OpNewSession] are the two
    writes of [startIntakeSession]. *)

Inductive Operation :=
  | OpNewClient (id : string) (now : Z)
  | OpNewSession (session : IntakeSession)
  | OpRespond (sessionId answer : string) (now : Z)
  | OpGenerate (clientId : string) (now : Z) (entropy : nat -> Entropy)
  | OpMark (clientId documentId : string) (now : Z)
  | OpRoute (clientId : string) (now : Z)
  | OpAppointment (clientId taxProId : string) (scheduledAt : Z)
      (type : option AppointmentType) (now : Z) (e : Entropy)
  | OpSendReminder (reminderId : string) (now : Z).

Section Histories.

Variable formatRoutingReason :
  ClientProfile -> TaxProfessional -> ComplexityLevel -> list Specialization -> string.

(** The store after an operation; a call that throws leaves it as it was. *)
Definition applyOp (st : Database) (op : Operation) : Database :=
  match op with
  | OpNewClient id now => fst (createNewClient st id now)
  | OpNewSession session => fst (db.createSession st session)
  | OpRespond sessionId answer now => fst (processIntakeResponse st sessionId answer now)
  | OpGenerate clientId now entropy =>
      match generateDocumentChecklist st clientId now entropy with
      | Returned (st', _) => st'
      | Thrown _ => st
      end
  | OpMark clientId documentId now => fst (markDocumentCollected st clientId documentId now)
  | OpRoute clientId now => fst (routeClientToTaxPro formatRoutingReason st clientId now)
  | OpAppointment clientId taxProId scheduledAt type now e =>
      match createAppointment st clientId taxProId scheduledAt type now e with
      | Returned (st', _) => st'
      | Thrown _ => st
      end
  | OpSendReminder reminderId now => fst (sendReminder st reminderId now)
  end.

Definition runOps (st : Database) (ops : list Operation) : Database :=
  fold_left applyOp ops st.

End Histories.

(** An id that [generateDocumentId] can produce. *)
Definition generatedId (s : string) : Prop := exists e : Entropy, s = generateDocumentId e.

(** ** The candidate score as the specification words it

    Used only to compare [scorePro] with: the tiers carry their ordinal in
    the order simple < moderate < complex < expert. *)

Definition tierOrdinal (l : ComplexityLevel) : nat :=
  match l with
  | simple => 0
  | moderate => 1
  | complex => 2
  | expert => 3
  end.

Definition spec_candidateScore (client : ClientProfile) (candidate : TaxProfessional) : Q :=
  let clientTier := getComplexityLevel (calculateComplexityScore client) in
  let required := getRequiredSpecializations client in
  let matched := List.filter (fun s => bool_decide (s ∈ specializations candidate)) required in
  ((if (tierOrdinal (maxComplexity candidate) <? tierOrdinal clientTier)%nat
    then -100 else 20)
   + inject_Z (Z.of_nat (length matched)) / inject_Z (Z.of_nat (length required)) * 50
   + inject_Z (Z.of_nat (maxDailyAppointments candidate) - Z.of_nat (currentLoad candidate))
     / inject_Z (Z.of_nat (maxDailyAppointments candidate)) * 20
   + rating candidate * 2)%Q.

(** ** The candidate score in double precision

    [findBestTaxPro] once more, in the arithmetic that the source runs:
    every [number] is an IEEE 754 binary64 value and every operation rounds
    to nearest, ties to even.  A count enters as the double of the same
    value; a rating enters as the double that its decimal literal denotes,
    which for a rating [n/d] with [n] and [d] below 2^53 is the quotient of
    [n] and [d] rounded once. *)

Module Float64.
Import Stdlib.Floats.Floats.

Definition Number : Type := float.

(** The double nearest to an integer. *)
Definition Number_of_Z (z : Z) : Number :=
  SF2Prim (binary_normalize prec emax z 0 false).

Definition Number_of_nat (n : nat) : Number := Number_of_Z (Z.of_nat n).

Definition Number_of_Q (q : Q) : Number :=
  (Number_of_Z (Qnum q) / Number_of_Z (Zpos (Qden q)))%float.

Record ScoredPro := {
  pro : TaxProfessional;
  score : Number;
  reasons : list string;
}.

(** The callback of [availablePros.map] in [findBestTaxPro]. *)
Definition scorePro (complexityLevel : ComplexityLevel) (requiredSpecs : list Specialization)
    (pro : TaxProfessional) : ScoredPro :=
  let score : Number := 0%float in
  let reasons : list string := [] in
  (* Can handle complexity? *)
  let proMaxIndex := indexOf proComplexityOrder (maxComplexity pro) in
  let requiredIndex := indexOf proComplexityOrder complexityLevel in
  let '(score, reasons) :=
    if proMaxIndex <? requiredIndex
    then ((score - 100)%float, reasons ++ ["Cannot handle complexity level"])
    else ((score + 20)%float, reasons ++ ["Can handle complexity"]) in
  (* Specialization match *)
  let matchingSpecs := List.filter (fun spec => includes (specializations pro) spec) requiredSpecs in
  let specMatchScore :=
    (Number_of_nat (length matchingSpecs) / Number_of_nat (length requiredSpecs) * 50)%float in
  let score := (score + specMatchScore)%float in
  let reasons :=
    if (length matchingSpecs =? length requiredSpecs)%nat
    then reasons ++ ["Full specialization match"]
    else if (0 <? length matchingSpecs)%nat
    then reasons ++ ["Partial specialization match (" +:+ pretty (length matchingSpecs)
                     +:+ "/" +:+ pretty (length requiredSpecs) +:+ ")"]
    else reasons in
  (* Availability (prefer less loaded pros) *)
  let loadScore :=
    ((Number_of_nat (maxDailyAppointments pro) - Number_of_nat (currentLoad pro))
     / Number_of_nat (maxDailyAppointments pro) * 20)%float in
  let score := (score + loadScore)%float in
  (* Rating bonus *)
  let score := (score + Number_of_Q (rating pro) * 2)%float in
  {| pro := pro; score := score; reasons := reasons |}.

(** [scoredPros] after [scoredPros.sort((a, b) => b.score - a.score)]: [a]
    goes after [b] when the difference is a number above zero. *)
Definition scoredPros (complexityLevel : ComplexityLevel) (requiredSpecs : list Specialization)
    (availablePros : list TaxProfessional) : list ScoredPro :=
  Array_sort (fun a b => (0 <? score b - score a)%float)
             (map (scorePro complexityLevel requiredSpecs) availablePros).

Section Routing.

Variable formatRoutingReason :
  ClientProfile -> TaxProfessional -> ComplexityLevel -> list Specialization -> string.

Definition findBestTaxPro (st : Database) (client : ClientProfile) (now : Z)
    : Database * FindResult :=
  (* Calculate complexity *)
  let complexityScore := calculateComplexityScore client in
  let complexityLevel := getComplexityLevel complexityScore in
  let requiredSpecs := getRequiredSpecializations client in
  (* Update client's complexity score *)
  let st := fst (db.updateClient st (client_id client) (set_complexityScore complexityScore) now) in
  (* Get available tax pros *)
  let availablePros := db.getAvailableTaxPros st in
  if (length availablePros =? 0)%nat then
    (st, {| taxPro := None;
            reason := "No tax professionals are currently available. Please try again later.";
            alternates := [] |})
  else
    (* Score each tax pro, sort by score *)
    match scoredPros complexityLevel requiredSpecs availablePros with
    | [] => (st, {| taxPro := None; reason := ""; alternates := [] |}) (* unreachable *)
    | (best :: _) as sorted =>
        let alternates := map pro (slice sorted 1 3) in
        if (score best <? 0)%float then
          (st, {| taxPro := None;
                  reason := "No tax professional available can handle your case (Complexity: "
                            +:+ ComplexityLevel_str complexityLevel
                            +:+ ", Specializations needed: "
                            +:+ join ", " (map Specialization_str requiredSpecs) +:+ ")";
                  alternates := [] |})
        else
          let reasonText := formatRoutingReason client (pro best) complexityLevel requiredSpecs in
          (st, {| taxPro := Some (pro best); reason := reasonText; alternates := alternates |})
    end.

End Routing.

(** The candidate score as the specification words it, each operation
    carried out in doubles from left to right. *)
Definition spec_candidateScore (client : ClientProfile) (candidate : TaxProfessional) : Number :=
  let clientTier := getComplexityLevel (calculateComplexityScore client) in
  let required := getRequiredSpecializations client in
  let matched := List.filter (fun s => bool_decide (s ∈ specializations candidate)) required in
  ((if (tierOrdinal (maxComplexity candidate) <? tierOrdinal clientTier)%nat
    then -100 else 20)
   + Number_of_nat (length matched) / Number_of_nat (length required) * 50
   + (Number_of_nat (maxDailyAppointments candidate) - Number_of_nat (currentLoad candidate))
     / Number_of_nat (maxDailyAppointments candidate) * 20
   + Number_of_Q (rating candidate) * 2)%float.

(** The score as a function of the six quantities that it depends on. *)
Definition scoreFrom (tooLow : bool) (matched required capacity load : nat) (stars : Q)
    : Number :=
  ((((if tooLow then 0 - 100 else 0 + 20)
     + Number_of_nat matched / Number_of_nat required * 50)
    + (Number_of_nat capacity - Number_of_nat load) / Number_of_nat capacity * 20)
   + Number_of_Q stars * 2)%float.

(** *** The order of doubles

    A finite double [m * 2^e] counted in units of the smallest subnormal
    [2^-1074]; the infinities lie beyond every finite value. *)
Definition magnitude (m : positive) (e : Z) : Z := Zpos m * 2 ^ (e + 1074).

Definition SFvalue (x : spec_float) : Z :=
  match x with
  | S754_zero _ => 0
  | S754_nan => 0
  | S754_infinity s => cond_Zopp s (2 ^ 2098)
  | S754_finite s m e => cond_Zopp s (magnitude m e)
  end.

Definition SFsignum (x : spec_float) : Z :=
  match x with
  | S754_zero _ => 0
  | S754_nan => 0
  | S754_infinity s => cond_Zopp s 1
  | S754_finite s _ _ => cond_Zopp s 1
  end.

Definition value (x : Number) : Z := SFvalue (Prim2SF x).

End Float64.

(** ** Predicates used by the properties *)


(** Every item that the conversion appends has a generated id, and it is
    not collected when the collected list holds generated ids only. *)
Definition freshItem (client : ClientProfile) (d : DocumentItem) : Prop :=
  generatedId (doc_id d) /\
  (Forall generatedId (documentsCollected client) -> collected d = false).

(** Every id of a stored checklist item and every collected entry of a
    client is a generated id. *)
Definition collectedFromMarking (st : Database) : Prop :=
  (forall k cl, checklists st !! k = Some cl ->
     Forall (fun d => generatedId (doc_id d)) (documents cl)) /\
  (forall k c, clients st !! k = Some c -> Forall generatedId (documentsCollected c)).

(** ** Sample data *)

Definition someDependent : Dependent :=
  {| dep_firstName := "Emma"; dep_lastName := "Smith"; relationship := "daughter";
     dep_dateOfBirth := "2016-05-01"; dep_ssn := None; livesWithClient := true;
     monthsLivedWithClient := 12 |}.

Definition saturatedClient : ClientProfile :=
  {| client_id := "client-1"; firstName := "John"; lastName := "Smith";
     email := "john.smith@email.com"; phone := "555-123-4567";
     ssn := None; dateOfBirth := None; address := None;
     filingStatus := married_filing_separately;
     dependents := replicate 10 someDependent;
     employmentInfo := [];
     incomeTypes := [wages_w2; self_employment_1099nec; freelance_1099misc; gig_economy;
                     rental_income; investment_income; dividends; capital_gains;
                     retirement_distributions; social_security; unemployment;
                     alimony_received; gambling_winnings; crypto_income; foreign_income;
                     other_income];
     deductions := [mortgage_interest; property_taxes; state_local_taxes;
                    charitable_donations; medical_expenses; student_loan_interest;
                    educator_expenses; home_office; business_expenses; hsa_contributions;
                    ira_contributions; k401_contributions; childcare_expenses; alimony_paid;
                    moving_expenses; no_deduction];
     previousYearAGI := None; hasHealthInsurance := true;
     hasCrypto := true; hasForeignAccounts := true; hasRentalProperty := true;
     hasBusinessIncome := true;
     appointmentId := None; intakeCompleted := false; intakeCompletedAt := None;
     documentsCollected := []; documentsPending := []; complexityScore := 0;
     assignedTaxPro := None; notes := []; createdAt := 0; updatedAt := 0 |}.

Definition cryptoWageEarner : ClientProfile :=
  {| client_id := "client-2"; firstName := ""; lastName := ""; email := ""; phone := "";
     ssn := None; dateOfBirth := None; address := None;
     filingStatus := single; dependents := []; employmentInfo := [];
     incomeTypes := [wages_w2; crypto_income]; deductions := [];
     previousYearAGI := None; hasHealthInsurance := false;
     hasCrypto := true; hasForeignAccounts := false; hasRentalProperty := false;
     hasBusinessIncome := false;
     appointmentId := None; intakeCompleted := false; intakeCompletedAt := None;
     documentsCollected := []; documentsPending := []; complexityScore := 0;
     assignedTaxPro := None; notes := []; createdAt := 0; updatedAt := 0 |}.

(** A roster whose only member can take expert cases and is at full load. *)
Definition fullExpert : TaxProfessional :=
  {| tp_id := "tp-100"; tp_name := "Only Expert"; tp_email := "only.expert@taxfirm.com";
     specializations := [sp_individual; sp_crypto];
     maxComplexity := expert; currentLoad := 4; maxDailyAppointments := 4;
     available := true; rating := 5 # 1 |}.

Definition fullRosterDatabase : Database :=
  {| clients := ∅; checklists := ∅; appointments := ∅;
     taxPros := [fullExpert]; reminders := ∅; sessions := ∅ |}.

(** The seeded store with one client whose intake data is known. *)
Definition routingDatabase : Database :=
  fst (db.createClient initialDatabase cryptoWageEarner).

(** A store in which the sample client has a generated checklist. *)
Definition sampleEntropy (n : nat) : Entropy := (1700000000000, pretty n).

Definition checklistDatabase : Database :=
  match generateDocumentChecklist routingDatabase "client-2" 7 sampleEntropy with
  | Returned (st, _) => st
  | Thrown _ => routingDatabase
  end.

Definition sampleChecklist : DocumentChecklist :=
  default {| cl_clientId := ""; documents := []; generatedAt := 0; lastUpdated := 0 |}
          (db.getChecklist checklistDatabase "client-2").

(** A client is created, answers a question, gets a checklist, has its first
    item marked and is routed. *)
Definition markedHistory : list Operation :=
  [ OpNewClient "client-9" 1;
    OpNewSession {| session_id := "session-9"; ses_clientId := "client-9";
                    startedAt := 1; lastActivityAt := 1; currentStep := personal_info;
                    completedSteps := []; responses := []; ses_status := in_progress |};
    OpRespond "session-9" "Jane Doe" 2;
    OpGenerate "client-9" 2 sampleEntropy;
    OpMark "client-9" "doc-1700000000000-0" 3;
    OpRoute "client-9" 4 ].

(** An intake session of the sample client that has reached the
    special-situations step and has not answered any of its questions. *)
Definition sampleSession : IntakeSession :=
  {| session_id := "session-1"; ses_clientId := "client-2";
     startedAt := 1; lastActivityAt := 2;
     currentStep := special_situations;
     completedSteps := [personal_info; filing_status; dependents_step; employment;
                        income_types; deductions_step];
     responses := [];
     ses_status := in_progress |}.

Definition intakeDatabase : Database :=
  fst (db.createSession routingDatabase sampleSession).

(** * Further operations *)

(** ** services/checklist.ts: documents of gig employers *)

(** [documents.push({ id: generateDocumentId(), ...template, collected: false,
    reminderSent: false })] for the template stored under [key]. The function
    reads four fixed keys, all of them keys of [DOCUMENT_TEMPLATES]. *)
Definition pushTemplate (key : string) (entropy : nat -> Entropy)
    (documents : list DocumentItem) : list DocumentItem :=
  match Object_get DOCUMENT_TEMPLATES key with
  | Some template =>
      documents ++
      [ {| doc_id := generateDocumentId (entropy (length documents));
           doc_name := t_name template;
           description := t_description template;
           category := t_category template;
           required := t_required template;
           collected := false;
           source := t_source template;
           reminderSent := false;
           reminderSentAt := None;
           doc_notes := None |} ]
  | None => documents
  end.

Definition getGigEconomyDocuments (employers : list string) (entropy : nat -> Entropy)
    : list DocumentItem :=
  let documents : list DocumentItem := [] in
  let normalizedEmployers := map toLowerCase employers in
  let documents :=
    if existsb (fun e => String_includes e "uber") normalizedEmployers
    then pushTemplate "gig_uber" entropy documents else documents in
  let documents :=
    if existsb (fun e => String_includes e "lyft") normalizedEmployers
    then pushTemplate "gig_lyft" entropy documents else documents in
  let documents :=
    if existsb (fun e => String_includes e "doordash") normalizedEmployers
    then pushTemplate "gig_doordash" entropy documents else documents in
  (* Always add mileage log for gig workers *)
  if (0 <? length documents)%nat
  then pushTemplate "gig_mileage" entropy documents else documents.

(** ** services/intake.ts: progress of a session *)

Record IntakeProgress := {
  ip_currentStep : IntakeStep;
  ip_completedSteps : list IntakeStep;
  totalSteps : nat;
  percentComplete : Z;
  remainingSteps : list IntakeStep;
}.

(** [Math.round]: the nearest integer, a half going up. *)
Definition Math_round (q : Q) : Z := Qfloor (q + (1 # 2)).

Definition getIntakeProgress (st : Database) (sessionId : string) : option IntakeProgress :=
  match db.getSession st sessionId with
  | None => None
  | Some session =>
      let currentIndex := indexOf INTAKE_STEPS (currentStep session) in
      let remainingSteps := drop (Z.to_nat (currentIndex + 1)) INTAKE_STEPS in
      Some {| ip_currentStep := currentStep session;
              ip_completedSteps := completedSteps session;
              totalSteps := length INTAKE_STEPS;
              percentComplete :=
                Math_round (inject_Z (Z.of_nat (length (completedSteps session)))
                            / inject_Z (Z.of_nat (length INTAKE_STEPS)) * 100);
              remainingSteps := remainingSteps |}
  end.

(** A client answering one question after the other: each entry is an answer
    and the time at which it is processed. *)
Definition processIntakeResponses (st : Database) (sessionId : string)
    (answers : list (string * Z)) : Database :=
  fold_left (fun st a => fst (processIntakeResponse st sessionId (fst a) (snd a))) answers st.

(** ** services/reminders.ts: composing reminders *)

(** [s.replace(from, to)] with a one-character string pattern: the first
    occurrence only. *)
Fixpoint replaceFirst (from to : Ascii.ascii) (s : string) : string :=
  match s with
  | EmptyString => EmptyString
  | String c rest =>
      if decide (c = from) then String to rest else String c (replaceFirst from to rest)
  end.

(** [s.split(sep)] with a one-character separator. *)
Fixpoint split_on (sep : Ascii.ascii) (s : string) : list string :=
  match s with
  | EmptyString => [EmptyString]
  | String c rest =>
      if decide (c = sep) then EmptyString :: split_on sep rest
      else match split_on sep rest with
           | part :: parts => String c part :: parts
           | [] => [String c EmptyString]
           end
  end.

Definition generateReminderId (e : Entropy) : string :=
  "reminder-" +:+ pretty (fst e) +:+ "-" +:+ snd e.

(** The [messages] object of [generatePersonalizedMessage], in property
    order. *)
Definition personalizedMessages (firstName : string) : list (string * string) :=
  [
    ("gig_uber",
     "Hi " +:+ firstName +:+ "! 👋 Don't forget your 1099-NEC from Uber. You can download it from your Uber driver dashboard under " +:+ dquote +:+ "Tax Information." +:+ dquote);
    ("gig_lyft",
     "Hi " +:+ firstName +:+ "! 👋 Remember to grab your 1099-NEC from Lyft. Check your Lyft driver dashboard under " +:+ dquote +:+ "Tax Info" +:+ dquote +:+ " to download it.");
    ("gig_doordash",
     "Hi " +:+ firstName +:+ "! 👋 Don't forget your 1099-NEC from DoorDash. You can find it in your Dasher app under " +:+ dquote +:+ "Earnings" +:+ dquote +:+ " → " +:+ dquote +:+ "Tax Forms." +:+ dquote);
    ("gig_mileage",
     "Hi " +:+ firstName +:+ "! 📱 Do you have your mileage log ready? If you used a mileage tracking app, now's the time to export those records!");
    ("income_crypto",
     "Hi " +:+ firstName +:+ "! 🪙 Don't forget your cryptocurrency transaction records. You can export your transaction history from exchanges like Coinbase, Binance, or Kraken.");
    ("income_1099nec",
     "Hi " +:+ firstName +:+ "! 📄 Remember to collect all your 1099-NEC forms from clients who paid you $600 or more.");
    ("doc_fbar",
     "Hi " +:+ firstName +:+ "! 🌍 Important: You'll need your foreign bank account statements showing the highest balance for each account (FBAR requirement).") ].

Definition generatePersonalizedMessage (client : ClientProfile) (doc : DocumentItem) : string :=
  let firstName := if decide (firstName client = "") then "there" else firstName client in
  let messages := personalizedMessages firstName in
  (* Look for specific document types *)
  match List.find
          (fun entry : string * string =>
             let key := fst entry in
             String_includes (toLowerCase (doc_name doc)) (replaceFirst "_"%char " "%char key)
             || match source doc with
                | Some s =>
                    String_includes (toLowerCase s) (default "" (split_on "_"%char key !! 1%nat))
                | None => false
                end)
          messages with
  | Some entry => snd entry
  | None =>
      (* Default personalized message *)
      "Hi " +:+ firstName +:+ "! 📋 Reminder: Please don't forget to bring your " +:+ doc_name doc +:+ ". " +:+ description doc
  end.

(** [entropy n] feeds the [n]-th call of [generateReminderId] of the run;
    [now] is what [Date.now()] gives for [scheduledFor]. *)
Definition createDocumentReminder (st : Database) (clientId appointmentId : string)
    (documents : list DocumentItem) (now : Z) (entropy : nat -> Entropy)
    : Outcome (Database * list Reminder) :=
  match db.getClient st clientId with
  | None => Thrown "Client not found"
  | Some client =>
      (* Create personalized reminders for each pending document *)
      Returned
        (fold_left
           (fun (acc : Database * list Reminder) doc =>
              let '(st, reminders) := acc in
              let message := generatePersonalizedMessage client doc in
              let reminder :=
                {| reminder_id := generateReminderId (entropy (length reminders));
                   rem_clientId := clientId;
                   rem_appointmentId := appointmentId;
                   rem_type := document_reminder;
                   message := message;
                   scheduledFor := now + 24 * 60 * 60 * 1000; (* 24 hours from now *)
                   sent := false;
                   sentAt := None;
                   channel := ch_email;
                   documentIds := Some [doc_id doc] |} in
              (fst (db.createReminder st reminder), reminders ++ [reminder]))
           documents (st, []))
  end.

(** [pendingDocs.forEach((doc, index) => ...)] of
    [createBatchDocumentReminder]: the lines of one document. *)
Definition batchLine (index : nat) (doc : DocumentItem) : string :=
  let message := pretty (index + 1)%nat +:+ ". **" +:+ doc_name doc +:+ "**" +:+ nl in
  match source doc with
  | Some s => if decide (s = "") then message else message +:+ "   📍 Get it from: " +:+ s +:+ nl
  | None => message
  end.

Fixpoint batchLines (index : nat) (docs : list DocumentItem) : string :=
  match docs with
  | [] => ""
  | doc :: docs' => batchLine index doc +:+ batchLines (S index) docs'
  end.

Definition createBatchDocumentReminder (st : Database) (clientId appointmentId : string)
    (now : Z) (e : Entropy) : Database * option Reminder :=
  match db.getClient st clientId with
  | None => (st, None)
  | Some client =>
      let pendingDocs := getPendingDocuments st clientId in
      if (length pendingDocs =? 0)%nat then (st, None)
      else
        let firstName := if decide (firstName client = "") then "there" else firstName client in
        let message := "Hi " +:+ firstName +:+ "! 📋 Your tax appointment is coming up. Here are the documents you still need to gather:" +:+ nl +:+ nl in
        let message := message +:+ batchLines 0 pendingDocs in
        let message := message +:+ nl +:+ "Having these ready will help us complete your taxes faster! 🚀" in
        let reminder :=
          {| reminder_id := generateReminderId e;
             rem_clientId := clientId;
             rem_appointmentId := appointmentId;
             rem_type := document_reminder;
             message := message;
             scheduledFor := now + 48 * 60 * 60 * 1000; (* 48 hours from now *)
             sent := false;
             sentAt := None;
             channel := ch_email;
             documentIds := Some (map doc_id pendingDocs) |} in
        (fst (db.createReminder st reminder), Some reminder)
  end.

(** ** Notions used by the further properties *)

(** The sum of the weights of a list of tags. *)
Definition sumWeights {A} (w : A -> Z) (l : list A) : Z :=
  foldr (fun x s => w x + s) 0 l.


(** The same client as [cryptoWageEarner] with one more income type. *)
Definition cryptoLandlord : ClientProfile :=
  set_incomeTypes [rental_income; crypto_income; wages_w2] cryptoWageEarner.

(** The one-expert roster with a client on record. *)
Definition fullRosterDatabaseWithClient : Database :=
  fst (db.createClient fullRosterDatabase cryptoWageEarner).

(** A roster whose only member has no appointment. *)
Definition idleStaff : TaxProfessional :=
  {| tp_id := "tp-200"; tp_name := "Idle Staff"; tp_email := "idle.staff@taxfirm.com";
     specializations := [sp_individual];
     maxComplexity := simple; currentLoad := 0; maxDailyAppointments := 3;
     available := true; rating := 4 # 1 |}.

Definition idleRosterDatabase : Database :=
  {| clients := ∅; checklists := ∅; appointments := ∅;
     taxPros := [idleStaff]; reminders := ∅; sessions := ∅ |}.

(** [d] is the checklist item that the conversion builds for the key [key]. *)
Definition itemOfKey (client : ClientProfile) (key : string) (d : DocumentItem) : Prop :=
  exists template,
    Object_get DOCUMENT_TEMPLATES key = Some template /\
    doc_name d = t_name template /\
    description d = t_description template /\
    category d = t_category template /\
    required d = t_required template /\
    source d = t_source template /\
    collected d = includes (documentsCollected client) key /\
    reminderSent d = false /\
    reminderSentAt d = None /\
    doc_notes d = None.

(** The place of a category in the alphabetical order of the category names. *)
Definition categoryRank (c : DocumentCategory) : nat :=
  match c with
  | cat_business => 0
  | cat_education => 1
  | cat_expenses => 2
  | cat_healthcare => 3
  | cat_identity => 4
  | cat_income => 5
  | cat_investments => 6
  | cat_other => 7
  | cat_property => 8
  end.

(** [a] may stand before [b] in a checklist: required items first, and
    within each group the categories in alphabetical order. *)
Definition checklistOrder (a b : DocumentItem) : Prop :=
  (required a = true /\ required b = false) \/
  (required a = required b /\ (categoryRank (category a) <= categoryRank (category b))%nat).

(** The pending list of the client [clientId] holds the ids of the pending
    documents of its checklist, in the order of the checklist, and the ids
    of that checklist are pairwise distinct. *)
Definition pendingTracked (st : Database) (clientId : string) : Prop :=
  exists checklist client,
    db.getChecklist st clientId = Some checklist /\
    db.getClient st clientId = Some client /\
    NoDup (doc_id <$> documents checklist) /\
    documentsPending client = doc_id <$> getPendingDocuments st clientId.

(** A run of [markDocumentCollected] calls, each with its client id, document
    id and time. *)
Definition markAll (st : Database) (marks : list (string * string * Z)) : Database :=
  fold_left (fun st '(clientId, documentId, now) =>
               fst (markDocumentCollected st clientId documentId now)) marks st.

(** The message that [generatePersonalizedMessage] falls back to. *)
Definition defaultMessage (client : ClientProfile) (doc : DocumentItem) : string :=
  let firstName := if decide (firstName client = "") then "there" else firstName client in
  "Hi " +:+ firstName +:+ "! 📋 Reminder: Please don't forget to bring your " +:+ doc_name doc +:+ ". " +:+ description doc.

(** The scripted message stored under [key], for a client. *)
Definition scriptedMessage (client : ClientProfile) (key : string) : string :=
  let firstName := if decide (firstName client = "") then "there" else firstName client in
  default "" (Object_get (personalizedMessages firstName) key).

(** The store of the sample checklist with a batch reminder for its client. *)
Definition reminderDatabase : Database :=
  fst (createBatchDocumentReminder checklistDatabase "client-2" "apt-1" 100 (8, "r1")).

(** The first document of the sample checklist. *)
Definition sampleDocument : DocumentItem :=
  default {| doc_id := ""; doc_name := ""; description := ""; category := cat_other;
             required := false; collected := false; source := None; reminderSent := false;
             reminderSentAt := None; doc_notes := None |}
          (documents sampleChecklist !! 0%nat).

(** The appointments counted against the staff, all members together. *)
Definition totalLoad (st : Database) : nat :=
  foldr (fun tp n => (currentLoad tp + n)%nat) 0%nat (taxPros st).

(** The routing calls of a history. *)
Definition routingCalls (ops : list Operation) : nat :=
  length (List.filter (fun op => match op with OpRoute _ _ => true | _ => false end) ops).

(** Two routing calls for the sample client. *)
Definition routedTwice : list Operation := [OpRoute "client-2" 4; OpRoute "client-2" 5].

(** *** Notions for the intake dialogue *)

(** The number of stored responses given at the current step of a session. *)
Definition answered (session : IntakeSession) : nat :=
  length (List.filter (fun r => bool_decide (step r = currentStep session))
                      (responses session)).

(** The test of [processIntakeResponse] that ends a step, for a session that
    has not yet stored the new answer. *)
Definition stepIsOver (session : IntakeSession) (answer : string) : bool :=
  (length (INTAKE_QUESTIONS (currentStep session)) <=? answered session + 1)%nat
  || isStepComplete (currentStep session) answer.

(** The step that [processIntakeResponse] moves to from [step]: the next
    entry of [INTAKE_STEPS], the last step staying where it is. *)
Definition nextStep (step : IntakeStep) : IntakeStep :=
  let currentIndex := indexOf INTAKE_STEPS step in
  if currentIndex <? Z.of_nat (length INTAKE_STEPS) - 1
  then default step (INTAKE_STEPS !! Z.to_nat (currentIndex + 1))
  else step.

(** The place of a step in [INTAKE_STEPS]. *)
Definition stepIndex (step : IntakeStep) : nat := Z.to_nat (indexOf INTAKE_STEPS step).

(** The questions of [step] and of all later steps, counted. *)
Definition questionsFrom (step : IntakeStep) : nat :=
  foldr (fun s n => (length (INTAKE_QUESTIONS s) + n)%nat) 0%nat
        (drop (stepIndex step) INTAKE_STEPS).

(** The fewest answers that take a session through [step]: one for the two
    steps that an answer can end at once, the number of questions otherwise. *)
Definition fewestAnswers (step : IntakeStep) : nat :=
  match step with
  | dependents_step | special_situations => 1
  | _ => length (INTAKE_QUESTIONS step)
  end.

Definition fewestAnswersFrom (step : IntakeStep) : nat :=
  foldr (fun s n => (fewestAnswers s + n)%nat) 0%nat (drop (stepIndex step) INTAKE_STEPS).

(** The session that [processIntakeResponse] writes back for [session]: the
    statements of the function that touch the session object, followed by
    [db.updateSession]. *)
Definition sessionAfter (session : IntakeSession) (answer : string) (now : Z) : IntakeSession :=
  let response :=
    {| step := currentStep session; question := getCurrentQuestion session;
       answer := answer; timestamp := now |} in
  let session := set_responses (responses session ++ [response]) session in
  let stepQuestions := INTAKE_QUESTIONS (currentStep session) in
  let stepResponses :=
    List.filter (fun r => bool_decide (step r = currentStep session)) (responses session) in
  set_lastActivityAt now
    (if (length stepQuestions <=? length stepResponses)%nat
        || isStepComplete (currentStep session) answer
     then
       let session :=
         set_completedSteps (completedSteps session ++ [currentStep session]) session in
       let currentIndex := indexOf INTAKE_STEPS (currentStep session) in
       if currentIndex <? Z.of_nat (length INTAKE_STEPS) - 1 then
         let session :=
           set_currentStep
             (default (currentStep session) (INTAKE_STEPS !! Z.to_nat (currentIndex + 1)))
             session in
         if bool_decide (currentStep session = complete)
         then set_ses_status completed session
         else session
       else session
     else session).

(** A session in which the dialogue is where its responses say: no response
    belongs to a later step than the current one, fewer responses than
    questions are stored for the current step, and the current step is the
    last one only when the session is marked completed. *)
Definition dialogueInOrder (session : IntakeSession) : Prop :=
  Forall (fun r => (stepIndex (step r) <= stepIndex (currentStep session))%nat)
         (responses session) /\
  (currentStep session <> complete ->
     (answered session < length (INTAKE_QUESTIONS (currentStep session)))%nat) /\
  (currentStep session = complete -> ses_status session = completed).

(** An upper and a lower bound on the answers that a session still takes
    before it reaches the last step. *)
Definition answersLeftAtMost (session : IntakeSession) : nat :=
  questionsFrom (currentStep session) - answered session.

Definition answersLeftAtLeast (session : IntakeSession) : nat :=
  fewestAnswersFrom (currentStep session)
  - match currentStep session with
    | dependents_step | special_situations => 0
    | _ => answered session
    end.

(** The completed steps are the steps before the current one, in the order
    of [INTAKE_STEPS], followed by one entry [complete] for each answer given
    after the last step was reached. *)
Definition completedInOrder (session : IntakeSession) : Prop :=
  exists extra,
    completedSteps session
    = take (stepIndex (currentStep session)) INTAKE_STEPS ++ replicate extra complete /\
    (currentStep session <> complete -> extra = 0%nat).

(** A session as [startIntakeSession] creates it. *)
Definition freshSession (id clientId : string) (now : Z) : IntakeSession :=
  {| session_id := id; ses_clientId := clientId; startedAt := now; lastActivityAt := now;
     currentStep := personal_info; completedSteps := []; responses := [];
     ses_status := in_progress |}.

(** A store in which the sample client has just started an intake. *)
Definition freshIntakeDatabase : Database :=
  fst (db.createSession routingDatabase (freshSession "session-2" "client-2" 5)).

(** *** Staff whose scores differ by rounding only

    With one of three required specializations matched, [steadyStaff] and
    [busyStaff] both score 727/15 in exact arithmetic, and [lavishStaff]
    scores 0 for a client above its tier. *)
Definition steadyStaff : TaxProfessional :=
  {| tp_id := "tp-301"; tp_name := "Steady Staff"; tp_email := "steady.staff@taxfirm.com";
     specializations := [sp_individual];
     maxComplexity := expert; currentLoad := 8; maxDailyAppointments := 10;
     available := true; rating := 39 # 10 |}.

Definition busyStaff : TaxProfessional :=
  {| tp_id := "tp-302"; tp_name := "Busy Staff"; tp_email := "busy.staff@taxfirm.com";
     specializations := [sp_individual];
     maxComplexity := expert; currentLoad := 9; maxDailyAppointments := 10;
     available := true; rating := 49 # 10 |}.

Definition nearTieDatabase : Database :=
  {| clients := ∅; checklists := ∅; appointments := ∅;
     taxPros := [steadyStaff; busyStaff]; reminders := ∅; sessions := ∅ |}.

Definition lavishStaff : TaxProfessional :=
  {| tp_id := "tp-303"; tp_name := "Lavish Staff"; tp_email := "lavish.staff@taxfirm.com";
     specializations := [sp_individual];
     maxComplexity := simple; currentLoad := 1; maxDailyAppointments := 3;
     available := true; rating := 35 # 1 |}.

Definition nearZeroDatabase : Database :=
  {| clients := ∅; checklists := ∅; appointments := ∅;
     taxPros := [lavishStaff]; reminders := ∅; sessions := ∅ |}.

(** * Properties *)

(** ** Complexity score and tier *)

Lemma or_default_zero (v : Z) : or_default v 0 = v.
Proof. unfold or_default. destruct (Z.eqb_spec v 0); congruence. Qed.

Lemma fold_weights_ge {A} (w : A -> Z) (l : list A) :
  (forall x, 0 <= w x) ->
  forall s, s <= fold_left (fun score x => score + or_default (w x) 0) l s.
Proof.
  intros Hw. induction l as [|x l IH]; intros s; simpl; [lia|].
  etransitivity; [|apply IH]. rewrite or_default_zero. specialize (Hw x). lia.
Qed.

Lemma filingStatus_weight_nonneg (s : FilingStatus) : 0 <= COMPLEXITY_WEIGHTS.filingStatus s.
Proof. destruct s; simpl; lia. Qed.

Lemma incomeTypes_weight_nonneg (t : IncomeType) : 0 <= COMPLEXITY_WEIGHTS.incomeTypes t.
Proof. destruct t; simpl; lia. Qed.

Lemma deductions_weight_nonneg (d : DeductionType) : 0 <= COMPLEXITY_WEIGHTS.deductions d.
Proof. destruct d; simpl; lia. Qed.

(** The sum before the dependents' bonus and the cap is at least the sum of
    the weights of the situation flags that are set. *)
Lemma calculateComplexityScore_unfold (client : ClientProfile) :
  exists base : Z,
    0 <= base /\
    calculateComplexityScore client =
      Z.min (base
             + (if hasCrypto client then 25 else 0)
             + (if hasForeignAccounts client then 30 else 0)
             + (if hasRentalProperty client then 20 else 0)
             + (if hasBusinessIncome client then 20 else 0)
             + Z.min (Z.of_nat (length (dependents client)) * 5) 20) 100.
Proof.
  unfold calculateComplexityScore.
  set (s0 := 0 + or_default (COMPLEXITY_WEIGHTS.filingStatus (filingStatus client)) 0).
  set (s1 := fold_left _ (incomeTypes client) s0).
  set (s2 := fold_left _ (deductions client) s1).
  exists s2. split.
  - assert (0 <= s0).
    { subst s0. rewrite or_default_zero.
      pose proof (filingStatus_weight_nonneg (filingStatus client)). lia. }
    assert (s0 <= s1) by apply (fold_weights_ge _ _ incomeTypes_weight_nonneg).
    assert (s1 <= s2) by apply (fold_weights_ge _ _ deductions_weight_nonneg).
    lia.
  - unfold COMPLEXITY_WEIGHTS.specialSituations.crypto,
      COMPLEXITY_WEIGHTS.specialSituations.foreignAccounts,
      COMPLEXITY_WEIGHTS.specialSituations.rentalProperty,
      COMPLEXITY_WEIGHTS.specialSituations.businessIncome,
      COMPLEXITY_WEIGHTS.dependentsBase, COMPLEXITY_WEIGHTS.dependentsMax.
    destruct (hasCrypto client), (hasForeignAccounts client),
      (hasRentalProperty client), (hasBusinessIncome client); f_equal; lia.
Qed.

(** C3: for every client, whatever its filing status, tags, flags and
    dependents, [calculateComplexityScore] lies in [0,100]; a client that has
    every income type, every deduction, the four situation flags and ten
    dependents scores exactly 100. *)
Theorem calculateComplexityScore_in_range (client : ClientProfile) :
  0 <= calculateComplexityScore client <= 100 /\
  ((forall t : IncomeType, t ∈ incomeTypes client) ->
   (forall d : DeductionType, d ∈ deductions client) ->
   hasCrypto client = true -> hasForeignAccounts client = true ->
   hasRentalProperty client = true -> hasBusinessIncome client = true ->
   length (dependents client) = 10%nat ->
   calculateComplexityScore client = 100).
Proof.
  destruct (calculateComplexityScore_unfold client) as (base & Hbase & ->).
  split.
  - destruct (hasCrypto client), (hasForeignAccounts client),
      (hasRentalProperty client), (hasBusinessIncome client); lia.
  - intros _ _ -> -> -> -> ->. lia.
Qed.

Lemma calculateComplexityScore_in_range_witness :
  calculateComplexityScore saturatedClient = 100.
Proof.
  apply (calculateComplexityScore_in_range saturatedClient).
  - intros t. destruct t; apply (bool_decide_unpack _); vm_compute; exact I.
  - intros d. destruct d; apply (bool_decide_unpack _); vm_compute; exact I.
  - reflexivity.
  - reflexivity.
  - reflexivity.
  - reflexivity.
  - reflexivity.
Defined.

Lemma getComplexityLevel_cases (score : Z) :
  (score <= 20 /\ getComplexityLevel score = simple) \/
  (21 <= score <= 50 /\ getComplexityLevel score = moderate) \/
  (51 <= score <= 80 /\ getComplexityLevel score = complex) \/
  (81 <= score /\ getComplexityLevel score = expert).
Proof.
  unfold getComplexityLevel. cbn [COMPLEXITY_THRESHOLDS max].
  destruct (Z.leb_spec score 20); [left; split; [lia|reflexivity]|].
  destruct (Z.leb_spec score 50); [right; left; split; [lia|reflexivity]|].
  destruct (Z.leb_spec score 80); [right; right; left; split; [lia|reflexivity]|].
  right; right; right; split; [lia|reflexivity].
Qed.

(** C4: [getComplexityLevel] maps a score to its tier by the ranges
    simple [0,20], moderate [21,50], complex [51,80], expert [81,100], a score
    of [0,100] having the tier of the one range it lies in; the boundary
    scores 0, 20, 21, 50, 51, 80, 81, 100 map to simple, simple, moderate,
    moderate, complex, complex, expert, expert. *)
Theorem getComplexityLevel_ranges :
  (forall score : Z, 0 <= score <= 100 ->
     (getComplexityLevel score = simple <-> 0 <= score <= 20) /\
     (getComplexityLevel score = moderate <-> 21 <= score <= 50) /\
     (getComplexityLevel score = complex <-> 51 <= score <= 80) /\
     (getComplexityLevel score = expert <-> 81 <= score <= 100)) /\
  map getComplexityLevel [0; 20; 21; 50; 51; 80; 81; 100]
  = [simple; simple; moderate; moderate; complex; complex; expert; expert].
Proof.
  split; [|reflexivity].
  intros score Hrange.
  destruct (getComplexityLevel_cases score) as [[H ->]|[[H ->]|[[H ->]|[H ->]]]];
    repeat split; intros; try discriminate; try lia.
Qed.

Lemma getComplexityLevel_ranges_witness :
  0 <= 50 <= 100 /\ (getComplexityLevel 50 = moderate <-> 21 <= 50 <= 50).
Proof.
  split; [lia|].
  apply (proj1 getComplexityLevel_ranges 50). lia.
Defined.

(** C5: a single filer with income types wages_w2 and crypto_income, the
    crypto flag set and the other three flags clear, no dependents and no
    deductions scores exactly 55 (0 + 0 + 30 + 25), which is tier complex. *)
Theorem crypto_wage_earner_score (client : ClientProfile) :
  incomeTypes client = [wages_w2; crypto_income] ->
  hasCrypto client = true ->
  hasForeignAccounts client = false ->
  hasRentalProperty client = false ->
  hasBusinessIncome client = false ->
  dependents client = [] ->
  filingStatus client = single ->
  deductions client = [] ->
  calculateComplexityScore client = 55 /\
  calculateComplexityScore client
  = COMPLEXITY_WEIGHTS.filingStatus single
    + COMPLEXITY_WEIGHTS.incomeTypes wages_w2
    + COMPLEXITY_WEIGHTS.incomeTypes crypto_income
    + COMPLEXITY_WEIGHTS.specialSituations.crypto /\
  COMPLEXITY_WEIGHTS.filingStatus single = 0 /\
  COMPLEXITY_WEIGHTS.incomeTypes wages_w2 = 0 /\
  COMPLEXITY_WEIGHTS.incomeTypes crypto_income = 30 /\
  COMPLEXITY_WEIGHTS.specialSituations.crypto = 25 /\
  getComplexityLevel (calculateComplexityScore client) = complex.
Proof.
  intros Hinc Hcrypto Hforeign Hrental Hbusiness Hdeps Hfiling Hded.
  assert (calculateComplexityScore client = 55) as Hscore.
  { unfold calculateComplexityScore.
    rewrite Hinc, Hcrypto, Hforeign, Hrental, Hbusiness, Hdeps, Hfiling, Hded.
    reflexivity. }
  rewrite Hscore. repeat split; reflexivity.
Qed.

Lemma crypto_wage_earner_score_witness :
  calculateComplexityScore cryptoWageEarner = 55 /\
  getComplexityLevel (calculateComplexityScore cryptoWageEarner) = complex.
Proof.
  pose proof (crypto_wage_earner_score cryptoWageEarner
                eq_refl eq_refl eq_refl eq_refl eq_refl eq_refl eq_refl eq_refl) as H.
  split; [apply H|]. apply H.
Defined.

(** ** Sorting *)

Section ArraySort.
Context {A : Type} (after : A -> A -> bool) (R : A -> A -> Prop).
Hypothesis R_trans : forall x y z, R x y -> R y z -> R x z.
Hypothesis after_false : forall x y, after x y = false -> R x y.
Hypothesis after_true : forall x y, after x y = true -> R y x.

Lemma sort_insert_perm (x : A) (l : list A) : sort_insert after x l ≡ₚ x :: l.
Proof.
  induction l as [|y l IH]; simpl; [reflexivity|].
  destruct (after x y); [|reflexivity].
  rewrite IH. apply Permutation_swap.
Qed.

Lemma Array_sort_perm (l : list A) : Array_sort after l ≡ₚ l.
Proof.
  induction l as [|x l IH]; simpl; [reflexivity|].
  rewrite sort_insert_perm. by rewrite IH.
Qed.

Lemma Array_sort_length (l : list A) : length (Array_sort after l) = length l.
Proof. apply Permutation_length, Array_sort_perm. Qed.

Lemma sort_insert_sorted (x : A) (l : list A) :
  StronglySorted R l -> StronglySorted R (sort_insert after x l).
Proof.
  induction 1 as [|y l Hl IH Hy]; simpl.
  - repeat constructor.
  - destruct (after x y) eqn:Hxy.
    + constructor; [exact IH|].
      rewrite sort_insert_perm. constructor; [by apply after_true | exact Hy].
    + constructor; [by constructor|].
      constructor; [by apply after_false|].
      eapply Forall_impl; [exact Hy|]. intros z Hz.
      eapply R_trans; [by apply after_false | exact Hz].
Qed.

Lemma Array_sort_sorted (l : list A) : StronglySorted R (Array_sort after l).
Proof.
  induction l as [|x l IH]; simpl; [constructor|].
  by apply sort_insert_sorted.
Qed.

End ArraySort.

(** ** Routing *)




Lemma indexOf_proComplexityOrder (l : ComplexityLevel) :
  indexOf proComplexityOrder l = Z.of_nat (tierOrdinal l).
Proof. destruct l; reflexivity. Qed.

Lemma scorePro_pro (level : ComplexityLevel) (required : list Specialization)
    (p : TaxProfessional) :
  pro (scorePro level required p) = p.
Proof. unfold scorePro. by destruct (_ <? _). Qed.


Lemma updateClient_taxPros (st : Database) (id : string)
    (updates : ClientProfile -> ClientProfile) (now : Z) :
  taxPros (fst (db.updateClient st id updates now)) = taxPros st.
Proof. unfold db.updateClient. by destruct (clients st !! id). Qed.

Lemma getAvailableTaxPros_updateClient (st : Database) (id : string)
    (updates : ClientProfile -> ClientProfile) (now : Z) :
  db.getAvailableTaxPros (fst (db.updateClient st id updates now)) = db.getAvailableTaxPros st.
Proof. unfold db.getAvailableTaxPros. by rewrite updateClient_taxPros. Qed.

Lemma getAvailableTaxPros_spec (st : Database) (tp : TaxProfessional) :
  tp ∈ db.getAvailableTaxPros st <->
  tp ∈ taxPros st /\ available tp = true /\ (currentLoad tp < maxDailyAppointments tp)%nat.
Proof.
  unfold db.getAvailableTaxPros.
  rewrite !list_elem_of_In, filter_In, andb_true_iff, Nat.ltb_lt. tauto.
Qed.

Lemma scoredPros_perm level required (availablePros : list TaxProfessional) :
  map pro (scoredPros level required availablePros) ≡ₚ availablePros.
Proof.
  unfold scoredPros. rewrite Array_sort_perm, map_map.
  erewrite map_ext; [by rewrite map_id|]. intros p. apply scorePro_pro.
Qed.


Lemma scoredPros_elem level required (availablePros : list TaxProfessional) (sp : ScoredPro) :
  sp ∈ scoredPros level required availablePros ->
  pro sp ∈ availablePros /\ sp = scorePro level required (pro sp).
Proof.
  unfold scoredPros. rewrite Array_sort_perm, list_elem_of_fmap.
  intros (p & -> & Hp). by rewrite scorePro_pro.
Qed.

(** What [findBestTaxPro] returns, by cases on the sorted candidates. *)
Lemma findBestTaxPro_cases fmt (st : Database) (client : ClientProfile) (now : Z) :
  let level := getComplexityLevel (calculateComplexityScore client) in
  let required := getRequiredSpecializations client in
  let result := snd (findBestTaxPro fmt st client now) in
  match scoredPros level required (db.getAvailableTaxPros st) with
  | [] => taxPro result = None /\ alternates result = []
  | best :: rest =>
      if Qnegative (score best)
      then taxPro result = None /\ alternates result = []
      else taxPro result = Some (pro best) /\ alternates result = map pro (take 2 rest)
  end.
Proof.
  intros level required result. subst result. unfold findBestTaxPro.
  rewrite getAvailableTaxPros_updateClient. fold level required.
  destruct (db.getAvailableTaxPros st) as [|p ps] eqn:Havail; [by split|].
  cbn [length Nat.eqb].
  destruct (scoredPros level required (p :: ps)) as [|best rest]; [by split|].
  destruct (Qnegative (score best)); [by split|].
  split; reflexivity.
Qed.

(** ** The order of doubles

    The comparisons of doubles that are not NaN are those of their places on
    the integer line, and a difference is above zero exactly when the place of
    the minuend is above that of the subtrahend. *)

Section Binary64.
Import Stdlib.Floats.Floats.
Import Float64.

Lemma digits2_pos_bounds (m : positive) :
  2 ^ (Zpos (digits2_pos m) - 1) <= Zpos m < 2 ^ Zpos (digits2_pos m).
Proof.
  induction m as [m IH|m IH|]; cbn [digits2_pos].
  - rewrite Pos2Z.inj_succ, Z.pow_succ_r by lia.
    replace (Z.succ (Zpos (digits2_pos m)) - 1) with (Z.succ (Zpos (digits2_pos m) - 1)) by lia.
    rewrite Z.pow_succ_r by lia. lia.
  - rewrite Pos2Z.inj_succ, Z.pow_succ_r by lia.
    replace (Z.succ (Zpos (digits2_pos m)) - 1) with (Z.succ (Zpos (digits2_pos m) - 1)) by lia.
    rewrite Z.pow_succ_r by lia. lia.
  - simpl. lia.
Qed.

Lemma shr_1_m (mrs : shr_record) :
  0 <= shr_m mrs -> shr_m (shr_1 mrs) = shr_m mrs / 2.
Proof.
  destruct mrs as [[|[p|p|]|p] r s]; cbn [shr_m shr_1]; intros H; try lia.
  - reflexivity.
  - apply Z.div_unique with 1; lia.
  - apply Z.div_unique with 0; lia.
  - reflexivity.
Qed.

Lemma iter_shr_1_m (p : positive) (mrs : shr_record) :
  0 <= shr_m mrs -> shr_m (iter_pos shr_1 p mrs) = shr_m mrs / 2 ^ Zpos p.
Proof.
  revert mrs. induction p as [p IH|p IH|]; intros mrs H; cbn [iter_pos].
  - assert (0 <= shr_m (shr_1 mrs)) as H1.
    { rewrite shr_1_m by done. apply Z.div_pos; lia. }
    assert (0 <= shr_m (iter_pos shr_1 p (shr_1 mrs))) as H2.
    { rewrite IH by done. apply Z.div_pos; [done|]. apply Z.pow_pos_nonneg; lia. }
    rewrite IH, IH, shr_1_m by done.
    assert (0 < 2 ^ Zpos p) by (apply Z.pow_pos_nonneg; lia).
    rewrite !Z.div_div by lia. f_equal.
    replace (Zpos p~1) with (1 + Zpos p + Zpos p) by lia.
    rewrite !Z.pow_add_r by lia. lia.
  - assert (0 <= shr_m (iter_pos shr_1 p mrs)) as H2.
    { rewrite IH by done. apply Z.div_pos; [done|]. apply Z.pow_pos_nonneg; lia. }
    rewrite IH, IH by done.
    assert (0 < 2 ^ Zpos p) by (apply Z.pow_pos_nonneg; lia).
    rewrite !Z.div_div by lia. f_equal.
    replace (Zpos p~0) with (Zpos p + Zpos p) by lia.
    rewrite !Z.pow_add_r by lia. lia.
  - by rewrite shr_1_m.
Qed.


Lemma shr_fexp_positive (m : positive) (e : Z) (l : location) :
  emin <= e ->
  exists m', shr_m (fst (shr_fexp prec emax (Zpos m) e l)) = Zpos m' /\
             emin <= snd (shr_fexp prec emax (Zpos m) e l).
Proof.
  intros He. unfold shr_fexp, shr. cbn [Zdigits2].
  assert (shr_m (shr_record_of_loc (Zpos m) l) = Zpos m) as Hm by (by destruct l as [|[]]).
  pose proof (digits2_pos_bounds m) as [Hlow _].
  set (d := Zpos (digits2_pos m)) in *.
  destruct (fexp prec emax (d + e) - e) as [|p|p] eqn:Hn; cbn [fst snd];
    [by exists m| |by exists m].
  unfold fexp, SpecFloat.emin, prec, emax in *.
  rewrite iter_shr_1_m by lia. rewrite Hm.
  assert (0 < Zpos m / 2 ^ Zpos p) as Hpos.
  { apply Z.div_str_pos. split; [apply Z.pow_pos_nonneg; lia|].
    etrans; [|exact Hlow]. apply Z.pow_le_mono_r; lia. }
  destruct (Zpos m / 2 ^ Zpos p) as [|q|q]; [lia| |lia].
  exists q. split; [done|lia].
Qed.

Lemma round_nearest_even_positive (m : positive) (l : location) :
  exists m', round_nearest_even (Zpos m) l = Zpos m'.
Proof.
  destruct l as [|[]]; cbn [round_nearest_even]; [by eexists| |by eexists|by eexists].
  destruct (Z.even (Zpos m)); by eexists.
Qed.

Lemma binary_round_aux_signum (sx : bool) (m : positive) (e : Z) (l : location) :
  emin <= e -> SFsignum (binary_round_aux prec emax sx (Zpos m) e l) = cond_Zopp sx 1.
Proof.
  intros He. unfold binary_round_aux.
  destruct (shr_fexp_positive m e l He) as (m1 & Hm1 & He1).
  destruct (shr_fexp prec emax (Zpos m) e l) as [mrs1 e1]. cbn [fst snd] in *.
  rewrite Hm1.
  destruct (round_nearest_even_positive m1 (loc_of_shr_record mrs1)) as [m2 ->].
  destruct (shr_fexp_positive m2 e1 loc_Exact He1) as (m3 & Hm3 & He3).
  destruct (shr_fexp prec emax (Zpos m2) e1 loc_Exact) as [mrs3 e3]. cbn [fst snd] in *.
  rewrite Hm3. by destruct (e3 <=? emax - prec).
Qed.

Lemma binary_round_signum (sx : bool) (m : positive) (e : Z) :
  emin <= e -> SFsignum (binary_round prec emax sx m e) = cond_Zopp sx 1.
Proof.
  intros He. unfold binary_round.
  destruct (shl_align m e _) as [mz ez] eqn:Hal.
  apply binary_round_aux_signum.
  unfold shl_align in Hal.
  destruct (_ - e) eqn:Hd; inversion Hal; subst; try done.
  unfold fexp. lia.
Qed.

Lemma binary_normalize_signum (d e : Z) :
  emin <= e -> SFsignum (binary_normalize prec emax d e false) = Z.sgn d.
Proof.
  intros He. destruct d; cbn [binary_normalize]; [done| |];
    by rewrite binary_round_signum.
Qed.


Lemma bounded_inv (m : positive) (e : Z) :
  bounded prec emax m e = true ->
  -1074 <= e <= 971 /\ Zpos m < 2 ^ 53 /\ (-1074 < e -> 2 ^ 52 <= Zpos m).
Proof.
  unfold bounded, canonical_mantissa, fexp, SpecFloat.emin, prec, emax.
  rewrite andb_true_iff, Z.eqb_eq, Z.leb_le. intros [Hc He].
  pose proof (digits2_pos_bounds m) as [Hlow Hhigh].
  set (d := Zpos (digits2_pos m)) in *.
  assert (d <= 53) by lia.
  split; [lia|]. split.
  - eapply Z.lt_le_trans; [exact Hhigh|]. apply Z.pow_le_mono_r; lia.
  - intros Hlt. assert (d = 53) as Hd by lia. by rewrite Hd in Hlow.
Qed.

Lemma magnitude_bounds (m : positive) (e : Z) :
  bounded prec emax m e = true -> 0 < magnitude m e < 2 ^ 2098.
Proof.
  intros (He & Hm & _)%bounded_inv. unfold magnitude.
  assert (0 < 2 ^ (e + 1074)) as Hpos by (apply Z.pow_pos_nonneg; lia).
  assert (2 ^ (e + 1074) <= 2 ^ 2045) as Hle by (apply Z.pow_le_mono_r; lia).
  split; [apply Z.mul_pos_pos; lia|].
  assert (2 ^ 2098 = 2 ^ 53 * 2 ^ 2045) as ->.
  { rewrite <- Z.pow_add_r by lia. by f_equal. }
  generalize dependent (2 ^ (e + 1074)). generalize (2 ^ 2045). generalize dependent (2 ^ 53).
  intros. nia.
Qed.

Lemma magnitude_lt (ma mb : positive) (ea eb : Z) :
  -1074 <= ea -> ea < eb -> Zpos ma < 2 ^ 53 -> 2 ^ 52 <= Zpos mb ->
  magnitude ma ea < magnitude mb eb.
Proof.
  intros Hea Hab Hma Hmb. unfold magnitude.
  replace (eb + 1074) with (ea + 1074 + (eb - ea)) by lia.
  rewrite (Z.pow_add_r 2 (ea + 1074) (eb - ea)) by lia.
  assert (0 < 2 ^ (ea + 1074)) as Hpos by (apply Z.pow_pos_nonneg; lia).
  assert (2 ^ 1 <= 2 ^ (eb - ea)) as Htwo by (apply Z.pow_le_mono_r; lia).
  change (2 ^ 1) with 2 in Htwo. change (2 ^ 53) with (2 * 2 ^ 52) in Hma.
  generalize dependent (2 ^ (ea + 1074)). generalize dependent (2 ^ (eb - ea)).
  generalize dependent (2 ^ 52). intros T Hma Hmb K HK P HP.
  apply Z.lt_le_trans with (2 * T * P); [apply Z.mul_lt_mono_pos_r; lia|].
  rewrite (Z.mul_comm P K), Z.mul_assoc. apply Z.mul_le_mono_nonneg_r; [lia|].
  apply Z.le_trans with (Zpos mb * 2); [lia|]. apply Z.mul_le_mono_nonneg_l; lia.
Qed.

Lemma magnitude_compare (m1 m2 : positive) (e1 e2 : Z) :
  bounded prec emax m1 e1 = true -> bounded prec emax m2 e2 = true ->
  (magnitude m1 e1 ?= magnitude m2 e2)
  = match e1 ?= e2 with
    | Lt => Lt
    | Gt => Gt
    | Eq => Pos.compare_cont Eq m1 m2
    end.
Proof.
  intros (He1 & Hm1 & Hn1)%bounded_inv (He2 & Hm2 & Hn2)%bounded_inv.
  destruct (Z.compare_spec e1 e2) as [->|H|H].
  - unfold magnitude. change (Pos.compare_cont Eq m1 m2) with (m1 ?= m2)%positive.
    assert (0 < 2 ^ (e2 + 1074)) as Hpos by (apply Z.pow_pos_nonneg; lia).
    destruct (Pos.compare_spec m1 m2) as [->|H|H].
    + apply Z.compare_refl.
    + apply Z.compare_lt_iff, Z.mul_lt_mono_pos_r; lia.
    + apply Z.compare_gt_iff, Z.mul_lt_mono_pos_r; lia.
  - apply Z.compare_lt_iff, magnitude_lt; auto with lia.
  - apply Z.compare_gt_iff, magnitude_lt; auto with lia.
Qed.

Lemma SFcompare_value (x y : spec_float) :
  valid_binary x = true -> valid_binary y = true -> x <> S754_nan -> y <> S754_nan ->
  SFcompare x y = Some (SFvalue x ?= SFvalue y).
Proof.
  intros Hx Hy Nx Ny.
  assert (0 < 2 ^ 2098) as HB by (apply Z.pow_pos_nonneg; lia).
  destruct x as [sx|sx| |sx mx ex], y as [sy|sy| |sy my ey]; try done;
    cbn [valid_binary] in Hx, Hy;
    try (pose proof (magnitude_bounds _ _ Hx) as Bx);
    try (pose proof (magnitude_bounds _ _ Hy) as By);
    try destruct sx; try destruct sy;
    cbn [SFcompare SFvalue cond_Zopp]; f_equal; symmetry;
    try (apply Z.compare_eq_iff; lia);
    try (apply Z.compare_lt_iff; lia);
    try (apply Z.compare_gt_iff; lia).
  - rewrite Z.compare_opp, Z.compare_antisym, magnitude_compare by done.
    by destruct (ex ?= ey).
  - by apply magnitude_compare.
Qed.

Lemma Pos_iter_xO (m k : positive) : Zpos (Pos.iter xO m k) = Zpos m * 2 ^ Zpos k.
Proof.
  induction k as [|k IH] using Pos.peano_ind.
  - cbn [Pos.iter]. lia.
  - rewrite Pos.iter_succ, Pos2Z.inj_succ, Z.pow_succ_r by lia.
    rewrite (Pos2Z.inj_xO (Pos.iter xO m k)), IH. lia.
Qed.

Lemma shl_align_magnitude (m : positive) (e ez : Z) :
  -1074 <= ez <= e ->
  Zpos (fst (shl_align m e ez)) * 2 ^ (ez + 1074) = magnitude m e.
Proof.
  intros He. unfold shl_align, magnitude.
  destruct (ez - e) as [|k|k] eqn:Hk; cbn [fst]; [|lia|].
  - by replace e with ez by lia.
  - rewrite Pos_iter_xO, <- Z.mul_assoc, <- Z.pow_add_r by lia.
    do 2 f_equal. lia.
Qed.

Lemma SFsub_signum (x y : spec_float) :
  valid_binary x = true -> valid_binary y = true -> x <> S754_nan -> y <> S754_nan ->
  SFsignum (SFsub prec emax x y) = Z.sgn (SFvalue x - SFvalue y).
Proof.
  intros Hx Hy Nx Ny.
  assert (0 < 2 ^ 2098) as HB by (apply Z.pow_pos_nonneg; lia).
  destruct x as [sx|sx| |sx mx ex], y as [sy|sy| |sy my ey]; try done;
    cbn [valid_binary] in Hx, Hy;
    try (pose proof (magnitude_bounds _ _ Hx) as Bx);
    try (pose proof (magnitude_bounds _ _ Hy) as By);
    cbn [SFsub]; [..|].
  all: try (destruct sx, sy; cbn [SFsignum SFvalue cond_Zopp negb]; lia).
  all: try (destruct sx; cbn [SFsignum SFvalue cond_Zopp negb]; lia).
  all: try (destruct sy; cbn [SFsignum SFvalue cond_Zopp negb]; lia).
  apply bounded_inv in Hx as (Hex & _), Hy as (Hey & _).
  rewrite binary_normalize_signum by (unfold SpecFloat.emin, prec, emax; lia).
  cbn [SFvalue].
  rewrite <- (shl_align_magnitude mx ex (Z.min ex ey)) by lia.
  rewrite <- (shl_align_magnitude my ey (Z.min ex ey)) by lia.
  assert (0 < 2 ^ (Z.min ex ey + 1074)) as Hpos by (apply Z.pow_pos_nonneg; lia).
  set (P := 2 ^ (Z.min ex ey + 1074)) in *. clearbody P.
  generalize (Zpos (fst (shl_align mx ex (Z.min ex ey)))).
  generalize (Zpos (fst (shl_align my ey (Z.min ex ey)))). intros b a.
  replace (cond_Zopp sx (a * P) - cond_Zopp sy (b * P))
    with ((cond_Zopp sx a - cond_Zopp sy b) * P) by (destruct sx, sy; cbn [cond_Zopp]; lia).
  rewrite Z.sgn_mul, (Z.sgn_pos P) by done. lia.
Qed.

Lemma SFltb_zero_signum (x : spec_float) :
  SFltb (S754_zero false) x = (0 <? SFsignum x).
Proof. by destruct x as [[]|[]| |[] ? ?]. Qed.

Lemma Prim2SF_not_nan (x : float) : is_nan x = false -> Prim2SF x <> S754_nan.
Proof.
  unfold Prim2SF. intros ->.
  destruct (is_zero x); [done|]. destruct (is_infinity x); [done|].
  destruct (Z.frexp x) as [r e]. destruct (shr_fexp _ _ _ _ _) as [mrs e'].
  by destruct (shr_m mrs).
Qed.

Lemma ltb_value (x y : float) :
  is_nan x = false -> is_nan y = false -> (x <? y)%float = (value x <? value y).
Proof.
  intros Hx%Prim2SF_not_nan Hy%Prim2SF_not_nan.
  rewrite ltb_spec. unfold SFltb, value.
  rewrite SFcompare_value by auto using Prim2SF_valid.
  unfold Z.ltb. by destruct (_ ?= _).
Qed.

Lemma leb_value (x y : float) :
  is_nan x = false -> is_nan y = false -> (x <=? y)%float = (value x <=? value y).
Proof.
  intros Hx%Prim2SF_not_nan Hy%Prim2SF_not_nan.
  rewrite leb_spec. unfold SFleb, value.
  rewrite SFcompare_value by auto using Prim2SF_valid.
  unfold Z.leb. by destruct (_ ?= _).
Qed.

Lemma sub_positive_value (x y : float) :
  is_nan x = false -> is_nan y = false -> (0 <? y - x)%float = (value x <? value y).
Proof.
  intros Hx%Prim2SF_not_nan Hy%Prim2SF_not_nan.
  rewrite ltb_spec, sub_spec.
  change (Prim2SF 0) with (S754_zero false).
  rewrite SFltb_zero_signum. unfold SF64sub, value.
  rewrite SFsub_signum by auto using Prim2SF_valid.
  generalize (SFvalue (Prim2SF x)), (SFvalue (Prim2SF y)). intros a b.
  destruct (Z.ltb_spec a b), (Z.ltb_spec 0 (Z.sgn (b - a))); lia.
Qed.

Lemma value_zero : value PrimFloat.zero = 0.
Proof. reflexivity. Qed.

End Binary64.

(** ** Sorting where the order holds on part of the elements only *)

Section ArraySortOn.
Context {A : Type} (after : A -> A -> bool) (R : A -> A -> Prop) (P : A -> Prop).
Hypothesis R_trans_on : forall x y z, P x -> P y -> P z -> R x y -> R y z -> R x z.
Hypothesis after_false_on : forall x y, P x -> P y -> after x y = false -> R x y.
Hypothesis after_true_on : forall x y, P x -> P y -> after x y = true -> R y x.

Lemma sort_insert_sorted_on (x : A) (l : list A) :
  P x -> Forall P l -> StronglySorted R l -> StronglySorted R (sort_insert after x l).
Proof.
  intros Hx HP Hl. induction Hl as [|y l Hl IH Hy]; simpl.
  - repeat constructor.
  - apply Forall_cons in HP as [Py HP].
    destruct (after x y) eqn:Hxy.
    + constructor; [by apply IH|].
      rewrite sort_insert_perm. constructor; [by apply after_true_on | exact Hy].
    + constructor; [by constructor|].
      constructor; [by apply after_false_on|].
      apply Forall_forall. intros z Hz.
      apply (R_trans_on x y z); auto.
      * by apply (proj1 (Forall_forall _ _) HP).
      * by apply (proj1 (Forall_forall _ _) Hy).
Qed.

Lemma Array_sort_sorted_on (l : list A) :
  Forall P l -> StronglySorted R (Array_sort after l).
Proof.
  induction 1 as [|x l Hx Hl IH]; simpl; [constructor|].
  apply sort_insert_sorted_on; [done| |done].
  by rewrite Array_sort_perm.
Qed.

End ArraySortOn.

(** ** Routing: the score in double precision *)

Lemma scorePro64_pro (level : ComplexityLevel) (required : list Specialization)
    (p : TaxProfessional) :
  Float64.pro (Float64.scorePro level required p) = p.
Proof. unfold Float64.scorePro. by destruct (_ <? _). Qed.

Lemma scorePro64_score (client : ClientProfile) (p : TaxProfessional) :
  Float64.score (Float64.scorePro (getComplexityLevel (calculateComplexityScore client))
                                  (getRequiredSpecializations client) p)
  = Float64.spec_candidateScore client p.
Proof.
  unfold Float64.scorePro, Float64.spec_candidateScore.
  rewrite !indexOf_proComplexityOrder.
  destruct (Z.ltb_spec (Z.of_nat (tierOrdinal (maxComplexity p)))
              (Z.of_nat (tierOrdinal (getComplexityLevel (calculateComplexityScore client)))))
    as [Hlt|Hge];
    destruct (Nat.ltb_spec (tierOrdinal (maxComplexity p))
                (tierOrdinal (getComplexityLevel (calculateComplexityScore client))));
    try lia; reflexivity.
Qed.

Lemma scoredPros64_perm level required (availablePros : list TaxProfessional) :
  map Float64.pro (Float64.scoredPros level required availablePros) ≡ₚ availablePros.
Proof.
  unfold Float64.scoredPros. rewrite Array_sort_perm, map_map.
  erewrite map_ext; [by rewrite map_id|]. intros p. apply scorePro64_pro.
Qed.

Lemma scoredPros64_elem level required (availablePros : list TaxProfessional)
    (sp : Float64.ScoredPro) :
  sp ∈ Float64.scoredPros level required availablePros ->
  Float64.pro sp ∈ availablePros /\ sp = Float64.scorePro level required (Float64.pro sp).
Proof.
  unfold Float64.scoredPros. rewrite Array_sort_perm, list_elem_of_fmap.
  intros (p & -> & Hp). by rewrite scorePro64_pro.
Qed.

Lemma scoredPros64_sorted level required (availablePros : list TaxProfessional) :
  Forall (fun sp => PrimFloat.is_nan (Float64.score sp) = false)
         (Float64.scoredPros level required availablePros) ->
  StronglySorted
    (fun a b => PrimFloat.leb (Float64.score b) (Float64.score a) = true)
    (Float64.scoredPros level required availablePros).
Proof.
  intros Hnum. unfold Float64.scoredPros in *.
  rewrite Array_sort_perm in Hnum.
  apply (Array_sort_sorted_on _ _ (fun sp => PrimFloat.is_nan (Float64.score sp) = false));
    [| | |exact Hnum].
  - intros x y z Hx Hy Hz. rewrite !leb_value by done. rewrite !Z.leb_le. lia.
  - intros x y Hx Hy. rewrite sub_positive_value, leb_value by done.
    rewrite Z.ltb_ge, Z.leb_le. lia.
  - intros x y Hx Hy. rewrite sub_positive_value, leb_value by done.
    rewrite Z.ltb_lt, Z.leb_le. lia.
Qed.


(** Every score that a shipped rating gives, with up to seven required
    specializations and a load below a capacity of at most twelve, is a
    number. *)
Lemma shipped_scores_checked :
  forallb (fun tooLow =>
  forallb (fun required =>
  forallb (fun matched =>
  forallb (fun capacity =>
  forallb (fun load =>
  forallb (fun stars =>
    negb (PrimFloat.is_nan (Float64.scoreFrom tooLow matched required capacity load stars)))
    (map rating initialTaxPros))
    (seq 0 capacity))
    (seq 1 12))
    (seq 0 (S required)))
    (seq 1 7))
    [true; false] = true.
Proof. vm_compute. reflexivity. Qed.

Lemma scoreFrom_number (tooLow : bool) (matched required capacity load : nat) (stars : Q) :
  (1 <= required <= 7)%nat -> (matched <= required)%nat ->
  (load < capacity <= 12)%nat -> stars ∈ map rating initialTaxPros ->
  PrimFloat.is_nan (Float64.scoreFrom tooLow matched required capacity load stars) = false.
Proof.
  intros Hrequired Hmatched Hload Hstars.
  pose proof shipped_scores_checked as H.
  apply (proj1 (forallb_forall _ _)) with (x := tooLow) in H;
    [|destruct tooLow; cbn; tauto].
  apply (proj1 (forallb_forall _ _)) with (x := required) in H; [|apply in_seq; lia].
  apply (proj1 (forallb_forall _ _)) with (x := matched) in H; [|apply in_seq; lia].
  apply (proj1 (forallb_forall _ _)) with (x := capacity) in H; [|apply in_seq; lia].
  apply (proj1 (forallb_forall _ _)) with (x := load) in H; [|apply in_seq; lia].
  apply (proj1 (forallb_forall _ _)) with (x := stars) in H; [|by apply list_elem_of_In].
  by apply negb_true_iff.
Qed.

Lemma scorePro64_scoreFrom (level : ComplexityLevel) (required : list Specialization)
    (p : TaxProfessional) :
  Float64.score (Float64.scorePro level required p)
  = Float64.scoreFrom
      (indexOf proComplexityOrder (maxComplexity p) <? indexOf proComplexityOrder level)
      (length (List.filter (fun spec => includes (specializations p) spec) required))
      (length required) (maxDailyAppointments p) (currentLoad p) (rating p).
Proof. unfold Float64.scorePro, Float64.scoreFrom. by destruct (_ <? _). Qed.

Lemma getRequiredSpecializations_length (client : ClientProfile) :
  (1 <= length (getRequiredSpecializations client) <= 7)%nat.
Proof.
  unfold getRequiredSpecializations.
  repeat match goal with
         | |- context [if ?b then _ else _] => destruct b
         end; vm_compute; lia.
Qed.

(** Whatever the loads, a store whose staff carry shipped ratings and
    capacities of at most twelve gives every candidate a score that is a
    number. *)
Lemma shipped_scores_are_numbers (st : Database) (client : ClientProfile) :
  Forall (fun tp => rating tp ∈ map rating initialTaxPros /\
                    (maxDailyAppointments tp <= 12)%nat) (taxPros st) ->
  Forall (fun sp => PrimFloat.is_nan (Float64.score sp) = false)
         (Float64.scoredPros (getComplexityLevel (calculateComplexityScore client))
                             (getRequiredSpecializations client)
                             (db.getAvailableTaxPros st)).
Proof.
  intros Hstaff. apply Forall_forall. intros sp Hsp.
  apply scoredPros64_elem in Hsp as [Hpro ->].
  apply getAvailableTaxPros_spec in Hpro as (Hin & _ & Hload).
  apply (proj1 (Forall_forall _ _) Hstaff) in Hin as [Hrating Hcap].
  rewrite scorePro64_scoreFrom.
  pose proof (getRequiredSpecializations_length client).
  apply scoreFrom_number; [done| |lia|done].
  apply List.filter_length_le.
Qed.

(** What the double-precision [findBestTaxPro] returns, by cases on the
    sorted candidates. *)
Lemma findBestTaxPro64_cases fmt (st : Database) (client : ClientProfile) (now : Z) :
  let level := getComplexityLevel (calculateComplexityScore client) in
  let required := getRequiredSpecializations client in
  let result := snd (Float64.findBestTaxPro fmt st client now) in
  match Float64.scoredPros level required (db.getAvailableTaxPros st) with
  | [] => taxPro result = None /\ alternates result = []
  | best :: rest =>
      if PrimFloat.ltb (Float64.score best) PrimFloat.zero
      then taxPro result = None /\ alternates result = []
      else taxPro result = Some (Float64.pro best) /\
           alternates result = map Float64.pro (take 2 rest)
  end.
Proof.
  intros level required result. subst result. unfold Float64.findBestTaxPro.
  rewrite getAvailableTaxPros_updateClient. fold level required.
  destruct (db.getAvailableTaxPros st) as [|p ps] eqn:Havail; [by split|].
  cbn [length Nat.eqb].
  destruct (Float64.scoredPros level required (p :: ps)) as [|best rest]; [by split|].
  unfold PrimFloat.zero.
  destruct (PrimFloat.ltb (Float64.score best) _); [by split|].
  split; reflexivity.
Qed.

(** C1: every candidate that [findBestTaxPro] considers is scored, in the
    doubles of the source, (-100 if its maximum tier is ordinally below the
    client's tier, else +20) + matched/required specializations * 50
    + (capacity - load)/capacity * 20 + rating * 2.  When the top score is
    below zero there is no match and no alternate; otherwise the top
    candidate is the match and the next up to two candidates are the
    alternates, whatever the sign of their scores.  When every score is a
    number (none is NaN), as it is in every store that the operations reach
    from the initial one ([reachable_scores_are_numbers]), the candidates are
    sorted by that score, highest first, and the top one is the match if and
    only if its score is >= 0. *)
Theorem findBestTaxPro_scoring fmt (st : Database) (client : ClientProfile) (now : Z) :
  let level := getComplexityLevel (calculateComplexityScore client) in
  let required := getRequiredSpecializations client in
  let sorted := Float64.scoredPros level required (db.getAvailableTaxPros st) in
  let result := snd (Float64.findBestTaxPro fmt st client now) in
  map Float64.pro sorted ≡ₚ db.getAvailableTaxPros st /\
  Forall (fun sp => Float64.score sp = Float64.spec_candidateScore client (Float64.pro sp))
         sorted /\
  (sorted = [] -> taxPro result = None /\ alternates result = []) /\
  (forall best rest, sorted = best :: rest ->
     (PrimFloat.ltb (Float64.score best) PrimFloat.zero = true ->
        taxPro result = None /\ alternates result = []) /\
     (PrimFloat.ltb (Float64.score best) PrimFloat.zero = false ->
        taxPro result = Some (Float64.pro best) /\
        alternates result = map Float64.pro (take 2 rest))) /\
  (Forall (fun sp => PrimFloat.is_nan (Float64.score sp) = false) sorted ->
     StronglySorted
       (fun a b => PrimFloat.leb (Float64.score b) (Float64.score a) = true) sorted /\
     (forall best rest, sorted = best :: rest ->
        Forall (fun sp => PrimFloat.leb (Float64.score sp) (Float64.score best) = true)
               sorted /\
        (taxPro result = Some (Float64.pro best)
         <-> PrimFloat.leb PrimFloat.zero (Float64.score best) = true) /\
        (PrimFloat.leb PrimFloat.zero (Float64.score best) = true ->
           alternates result = map Float64.pro (take 2 rest)))).
Proof.
  intros level required sorted result.
  pose proof (findBestTaxPro64_cases fmt st client now) as Hcases.
  cbv zeta in Hcases. fold level required sorted result in Hcases.
  split; [apply scoredPros64_perm|].
  split.
  { apply Forall_forall. intros sp Hsp.
    apply scoredPros64_elem in Hsp as [_ Heq].
    rewrite Heq, scorePro64_pro. apply scorePro64_score. }
  split; [intros E; by rewrite E in Hcases|].
  split.
  { intros best rest E. rewrite E in Hcases.
    split; intros Hsign; by rewrite Hsign in Hcases. }
  intros Hnum.
  pose proof (scoredPros64_sorted level required (db.getAvailableTaxPros st) Hnum) as Hsorted.
  fold sorted in Hsorted.
  split; [exact Hsorted|].
  intros best rest E. rewrite E in Hcases, Hsorted, Hnum.
  apply Forall_cons in Hnum as [Hbest _].
  assert (PrimFloat.ltb (Float64.score best) PrimFloat.zero
          = negb (PrimFloat.leb PrimFloat.zero (Float64.score best))) as Hsign.
  { rewrite ltb_value, leb_value by done. rewrite value_zero.
    rewrite Z.leb_antisym. by rewrite negb_involutive. }
  split.
  { apply StronglySorted_inv in Hsorted as [_ Hrest].
    rewrite E. constructor; [|exact Hrest].
    rewrite leb_value by done. apply Z.leb_refl. }
  rewrite Hsign in Hcases.
  destruct (PrimFloat.leb PrimFloat.zero (Float64.score best)); cbn [negb] in Hcases;
    destruct Hcases as [Htp Halt].
  - split; [by rewrite Htp|done].
  - split; [|done]. rewrite Htp. split; discriminate.
Qed.

Lemma findBestTaxPro_scoring_witness :
  taxPro (snd (Float64.findBestTaxPro (fun _ _ _ _ => "") initialDatabase cryptoWageEarner 0))
  = Some tp_002 /\
  alternates (snd (Float64.findBestTaxPro (fun _ _ _ _ => "") initialDatabase cryptoWageEarner 0))
  = [tp_005; tp_003].
Proof.
  pose proof (findBestTaxPro_scoring (fun _ _ _ _ => "") initialDatabase cryptoWageEarner 0)
    as (_ & _ & _ & _ & H).
  destruct H as [_ H]; [vm_compute; repeat constructor|].
  specialize (H (Float64.scorePro complex [sp_individual; sp_crypto] tp_002)
                (map (Float64.scorePro complex [sp_individual; sp_crypto])
                     [tp_005; tp_003; tp_001; tp_004])).
  destruct H as (_ & Hbest & Halt); [vm_compute; reflexivity|].
  split.
  - apply Hbest. vm_compute. reflexivity.
  - apply Halt. vm_compute. reflexivity.
Defined.

(** The two cases in which rounding decides. Of two candidates whose exact
    scores are equal, the one whose double is larger by one unit in the last
    place is the match; a candidate whose exact score is zero has a double
    score just below zero and is no match. *)
Lemma rounding_decides fmt :
  (spec_candidateScore cryptoLandlord steadyStaff == 727 # 15)%Q /\
  (spec_candidateScore cryptoLandlord busyStaff == 727 # 15)%Q /\
  taxPro (snd (Float64.findBestTaxPro fmt nearTieDatabase cryptoLandlord 0)) = Some busyStaff /\
  alternates (snd (Float64.findBestTaxPro fmt nearTieDatabase cryptoLandlord 0)) = [steadyStaff] /\
  (spec_candidateScore cryptoLandlord lavishStaff == 0)%Q /\
  taxPro (snd (Float64.findBestTaxPro fmt nearZeroDatabase cryptoLandlord 0)) = None.
Proof. by vm_compute. Qed.

Lemma scoredPros_available (st : Database) level required (sp : ScoredPro) :
  sp ∈ scoredPros level required (db.getAvailableTaxPros st) ->
  pro sp ∈ taxPros st /\ available (pro sp) = true /\
  (currentLoad (pro sp) < maxDailyAppointments (pro sp))%nat.
Proof.
  intros Hsp. apply scoredPros_elem in Hsp as [Hsp _].
  by apply getAvailableTaxPros_spec.
Qed.

Lemma findBestTaxPro_none_available fmt (st : Database) (client : ClientProfile) (now : Z) :
  (forall tp, tp ∈ taxPros st ->
     ~ (available tp = true /\ (currentLoad tp < maxDailyAppointments tp)%nat)) ->
  taxPro (snd (findBestTaxPro fmt st client now)) = None /\
  alternates (snd (findBestTaxPro fmt st client now)) = [] /\
  reason (snd (findBestTaxPro fmt st client now))
  = "No tax professionals are currently available. Please try again later.".
Proof.
  intros Hno. unfold findBestTaxPro.
  rewrite getAvailableTaxPros_updateClient.
  destruct (db.getAvailableTaxPros st) as [|p ps] eqn:Havail; [done|].
  assert (p ∈ db.getAvailableTaxPros st) as Hp by (rewrite Havail; left).
  apply getAvailableTaxPros_spec in Hp as (Hin & Hav & Hload).
  destruct (Hno p Hin). by split.
Qed.

Lemma findBestTaxPro_result_available fmt (st : Database) (client : ClientProfile) (now : Z)
    (tp : TaxProfessional) :
  taxPro (snd (findBestTaxPro fmt st client now)) = Some tp \/
  tp ∈ alternates (snd (findBestTaxPro fmt st client now)) ->
  tp ∈ taxPros st /\ available tp = true /\
  (currentLoad tp < maxDailyAppointments tp)%nat.
Proof.
  intros Htp.
  pose proof (findBestTaxPro_cases fmt st client now) as Hcases. cbv zeta in Hcases.
  destruct (scoredPros _ _ (db.getAvailableTaxPros st)) as [|best rest] eqn:Hsorted.
  { destruct Hcases as [H1 H2]. rewrite H1, H2 in Htp.
    destruct Htp as [?|Htp]; [done|]. by apply elem_of_nil in Htp. }
  destruct (Qnegative (score best)); destruct Hcases as [H1 H2]; rewrite H1, H2 in Htp.
  { destruct Htp as [?|Htp]; [done|]. by apply elem_of_nil in Htp. }
  destruct Htp as [[= <-]|Htp].
  - eapply scoredPros_available. rewrite Hsorted. left.
  - apply list_elem_of_fmap in Htp as (sp & -> & Hsp).
    eapply scoredPros_available. rewrite Hsorted. right. eapply subseteq_take, Hsp.
Qed.

(** C2: [findBestTaxPro] only considers, and so only returns, staff members
    that are marked available and whose load is strictly below their capacity;
    when there is none it returns no match, the "no staff available" reason
    and no alternates; so a roster whose only member is expert-capable with
    currentLoad = maxDailyAppointments = 4 gives [taxPro = None]. *)
Theorem findBestTaxPro_only_available fmt (st : Database) (client : ClientProfile) (now : Z) :
  let level := getComplexityLevel (calculateComplexityScore client) in
  let required := getRequiredSpecializations client in
  let result := snd (findBestTaxPro fmt st client now) in
  (forall sp, sp ∈ scoredPros level required (db.getAvailableTaxPros st) ->
     pro sp ∈ taxPros st /\ available (pro sp) = true /\
     (currentLoad (pro sp) < maxDailyAppointments (pro sp))%nat) /\
  (forall tp, taxPro result = Some tp \/ tp ∈ alternates result ->
     tp ∈ taxPros st /\ available tp = true /\
     (currentLoad tp < maxDailyAppointments tp)%nat) /\
  ((forall tp, tp ∈ taxPros st ->
      ~ (available tp = true /\ (currentLoad tp < maxDailyAppointments tp)%nat)) ->
   taxPro result = None /\ alternates result = [] /\
   reason result = "No tax professionals are currently available. Please try again later.") /\
  (forall member, taxPros st = [member] -> maxComplexity member = expert ->
     currentLoad member = 4%nat -> maxDailyAppointments member = 4%nat ->
     taxPro result = None).
Proof.
  intros level required result.
  split; [apply scoredPros_available|].
  split; [apply findBestTaxPro_result_available|].
  split; [apply findBestTaxPro_none_available|].
  intros member Hroster _ Hload Hmax. apply findBestTaxPro_none_available.
  intros tp Htp [_ Hlt]. rewrite Hroster in Htp.
  apply list_elem_of_singleton in Htp as ->. lia.
Qed.

Lemma findBestTaxPro_only_available_witness :
  taxPro (snd (findBestTaxPro (fun _ _ _ _ => "") fullRosterDatabase saturatedClient 0)) = None.
Proof.
  pose proof (findBestTaxPro_only_available (fun _ _ _ _ => "")
                fullRosterDatabase saturatedClient 0) as (_ & _ & _ & H).
  apply (H fullExpert); reflexivity.
Defined.

(** ** Effects of routing on the store *)

Lemma updateClient_lookup (st : Database) (id k : string)
    (updates : ClientProfile -> ClientProfile) (now : Z) :
  clients (fst (db.updateClient st id updates now)) !! k
  = if decide (k = id) then (fun c => set_updatedAt now (updates c)) <$> clients st !! id
    else clients st !! k.
Proof.
  unfold db.updateClient. destruct (clients st !! id) as [c|] eqn:Hc; cbn.
  - case_decide as Hk; [subst; by rewrite lookup_insert_eq | by rewrite lookup_insert_ne].
  - case_decide; by subst.
Qed.

Lemma findBestTaxPro_store fmt (st : Database) (client : ClientProfile) (now : Z) :
  fst (findBestTaxPro fmt st client now)
  = fst (db.updateClient st (client_id client)
           (set_complexityScore (calculateComplexityScore client)) now).
Proof.
  unfold findBestTaxPro.
  destruct (length _ =? 0)%nat; [done|].
  destruct (scoredPros _ _ _) as [|best rest]; [done|].
  by destruct (Qnegative (score best)).
Qed.

Lemma list_find_tp_id_insert (l : list TaxProfessional) (i : nat) (x y : TaxProfessional)
    (id : string) :
  NoDup (map tp_id l) -> l !! i = Some x -> tp_id y = tp_id x ->
  snd <$> list_find (fun tp => tp_id tp = id) (<[i := y]> l)
  = if decide (id = tp_id x) then Some y
    else snd <$> list_find (fun tp => tp_id tp = id) l.
Proof.
  revert i. induction l as [|z l IH]; intros i Hnodup Hi Hy; [done|].
  apply NoDup_cons in Hnodup as [Hz Hnodup].
  destruct i as [|i]; cbn in Hi |- *.
  - injection Hi as ->. rewrite Hy.
    destruct (decide (tp_id x = id)), (decide (id = tp_id x)); cbn; congruence.
  - assert (tp_id x ∈ map tp_id l) as Hx.
    { apply list_elem_of_fmap. exists x. split; [done|]. by eapply list_elem_of_lookup_2. }
    specialize (IH i Hnodup Hi Hy).
    destruct (decide (tp_id z = id)) as [Hzid|Hzid].
    + case_decide as Hid; [|done].
      exfalso. apply Hz. rewrite Hzid, Hid. exact Hx.
    + destruct (decide (id = tp_id x)) as [Hid|Hid];
        destruct (list_find _ (<[i:=y]> l)) as [[??]|];
        try destruct (list_find _ l) as [[??]|];
        cbn in *; congruence.
Qed.

Lemma list_find_tp_id_elem (l : list TaxProfessional) (x : TaxProfessional) :
  NoDup (map tp_id l) -> x ∈ l ->
  exists i, l !! i = Some x /\ list_find (fun tp => tp_id tp = tp_id x) l = Some (i, x).
Proof.
  intros Hnodup Hx. apply list_elem_of_lookup in Hx as [i Hi].
  exists i. split; [done|]. apply list_find_Some. split; [done|]. split; [done|].
  intros j y Hj Hlt Heq.
  assert (map tp_id l !! j = Some (tp_id x)) as Hj'
    by (rewrite list_lookup_fmap, Hj; cbn; by rewrite Heq).
  assert (map tp_id l !! i = Some (tp_id x)) as Hi' by (by rewrite list_lookup_fmap, Hi).
  pose proof (NoDup_lookup _ _ _ _ Hnodup Hj' Hi'). lia.
Qed.

Lemma assignedTaxPro_updateClient (st : Database) (id k : string)
    (updates : ClientProfile -> ClientProfile) (now : Z) :
  (forall c, assignedTaxPro (updates c) = assignedTaxPro c) ->
  assignedTaxPro <$> db.getClient (fst (db.updateClient st id updates now)) k
  = assignedTaxPro <$> db.getClient st k.
Proof.
  intros Hupd. unfold db.getClient. rewrite updateClient_lookup.
  case_decide as Hk; [subst k|done].
  destruct (clients st !! id) as [c|]; [cbn|done]. by rewrite <- (Hupd c).
Qed.

Lemma updateTaxProLoad_increment (st : Database) (i : nat) (chosen : TaxProfessional) :
  list_find (fun tp => tp_id tp = tp_id chosen) (taxPros st) = Some (i, chosen) ->
  db.updateTaxProLoad st (tp_id chosen) 1
  = (set_taxPros (<[i := set_currentLoad (currentLoad chosen + 1) chosen]> (taxPros st)) st,
     Some (set_currentLoad (currentLoad chosen + 1) chosen)).
Proof.
  intros Hfind. unfold db.updateTaxProLoad. rewrite Hfind.
  replace (Z.to_nat (Z.max 0 (Z.of_nat (currentLoad chosen) + 1)))
    with (currentLoad chosen + 1)%nat by lia.
  reflexivity.
Qed.

(** C6: when [routeClientToTaxPro] succeeds, the client's [assignedTaxPro]
    is the id of the selected staff member, that member's [currentLoad] has
    grown by exactly 1 and every other staff member is unchanged; when it fails
    (client not found, or no match) no load changes and no assignment is
    written. The staff map has one entry per id. *)
Theorem routeClientToTaxPro_effect fmt (st : Database) (clientId : string) (now : Z) :
  NoDup (map tp_id (taxPros st)) ->
  let st' := fst (routeClientToTaxPro fmt st clientId now) in
  let r := snd (routeClientToTaxPro fmt st clientId now) in
  (rt_success r = true ->
     exists client chosen,
       db.getClient st clientId = Some client /\
       taxPro (snd (findBestTaxPro fmt st client now)) = Some chosen /\
       chosen ∈ taxPros st /\
       assignedTaxPro <$> db.getClient st' clientId = Some (Some (tp_id chosen)) /\
       (forall k, k <> clientId ->
          assignedTaxPro <$> db.getClient st' k = assignedTaxPro <$> db.getClient st k) /\
       db.getTaxPro st' (tp_id chosen)
       = Some (set_currentLoad (currentLoad chosen + 1) chosen) /\
       (forall id, id <> tp_id chosen -> db.getTaxPro st' id = db.getTaxPro st id) /\
       map tp_id (taxPros st') = map tp_id (taxPros st) /\
       rt_taxPro r = Some (set_currentLoad (currentLoad chosen + 1) chosen)) /\
  (rt_success r = false ->
     (db.getClient st clientId = None \/
      exists client, db.getClient st clientId = Some client /\
                     taxPro (snd (findBestTaxPro fmt st client now)) = None) /\
     taxPros st' = taxPros st /\
     (forall k, assignedTaxPro <$> db.getClient st' k = assignedTaxPro <$> db.getClient st k)).
Proof.
  intros Hnodup st' r. subst st' r. unfold routeClientToTaxPro.
  destruct (db.getClient st clientId) as [client|] eqn:Hclient; [|cbn; split; [done|auto]].
  pose proof (findBestTaxPro_store fmt st client now) as Hstore.
  pose proof (findBestTaxPro_result_available fmt st client now) as Havail.
  destruct (findBestTaxPro fmt st client now) as [st1 found] eqn:Hfind. cbn [fst snd] in *.
  assert (taxPros st1 = taxPros st) as Hpros1 by (subst st1; apply updateClient_taxPros).
  assert (forall k, assignedTaxPro <$> db.getClient st1 k = assignedTaxPro <$> db.getClient st k)
    as Hassigned1.
  { intros k. subst st1. apply assignedTaxPro_updateClient. by intros []. }
  destruct (taxPro found) as [chosen|] eqn:Hfound; cbn [fst snd rt_success].
  2:{ split; [done|]. intros _.
      split; [right; exists client; by rewrite Hfind|]. split; assumption. }
  destruct (Havail chosen (or_introl eq_refl)) as (Hin & _).
  set (st2 := fst (db.updateClient st1 clientId (set_assignedTaxPro (Some (tp_id chosen))) now)).
  assert (taxPros st2 = taxPros st) as Hpros2.
  { subst st2. by rewrite updateClient_taxPros. }
  destruct (list_find_tp_id_elem (taxPros st) chosen Hnodup Hin) as (i & Hi & Hfind').
  rewrite <- Hpros2 in Hfind'.
  fold st2. rewrite (updateTaxProLoad_increment st2 i chosen Hfind').
  cbn [fst snd rt_taxPro rt_success default]. split; [intros _|done].
  exists client, chosen.
  split; [done|]. split; [by rewrite Hfind|]. split; [done|].
  split.
  { unfold db.getClient. cbn [clients set_taxPros]. subst st2.
    rewrite updateClient_lookup, decide_True by done.
    assert (is_Some (clients st1 !! clientId)) as [c1 Hc1].
    { subst st1. rewrite updateClient_lookup. case_decide as Hk.
      - rewrite <- Hk. unfold db.getClient in Hclient. by rewrite Hclient.
      - unfold db.getClient in Hclient. by rewrite Hclient. }
    by rewrite Hc1. }
  split.
  { intros k Hk. rewrite <- Hassigned1. unfold db.getClient. cbn [clients set_taxPros].
    subst st2. by rewrite updateClient_lookup, decide_False by done. }
  cbn [taxPros set_taxPros]. unfold db.getTaxPro. cbn [taxPros set_taxPros].
  rewrite Hpros2.
  split.
  { rewrite (list_find_tp_id_insert _ i chosen) by done. by rewrite decide_True. }
  split.
  { intros id Hid. rewrite (list_find_tp_id_insert _ i chosen) by done.
    by rewrite decide_False. }
  split; [|done].
  change (tp_id <$> <[i:=set_currentLoad (currentLoad chosen + 1) chosen]> (taxPros st)
          = tp_id <$> taxPros st).
  rewrite list_fmap_insert. apply list_insert_id. by rewrite list_lookup_fmap, Hi.
Qed.

Lemma routeClientToTaxPro_effect_witness :
  let st' := fst (routeClientToTaxPro (fun _ _ _ _ => "") routingDatabase "client-2" 0) in
  assignedTaxPro <$> db.getClient st' "client-2" = Some (Some "tp-002") /\
  currentLoad <$> db.getTaxPro st' "tp-002" = Some 6%nat /\
  db.getTaxPro st' "tp-005" = db.getTaxPro routingDatabase "tp-005".
Proof.
  assert (NoDup (map tp_id (taxPros routingDatabase))) as Hnodup
    by (apply (bool_decide_unpack _); vm_compute; exact I).
  destruct (routeClientToTaxPro_effect (fun _ _ _ _ => "") routingDatabase "client-2" 0 Hnodup)
    as [Hsuccess _].
  destruct Hsuccess as (client & chosen & Hclient & Hchosen & _ & Hassign & _ & Hload & Hother & _);
    [vm_compute; reflexivity|].
  assert (client = cryptoWageEarner) as ->
    by (vm_compute in Hclient; injection Hclient as <-; reflexivity).
  assert (chosen = tp_002) as ->
    by (vm_compute in Hchosen; injection Hchosen as <-; reflexivity).
  split; [exact Hassign|]. split.
  - change "tp-002" with (tp_id tp_002). rewrite Hload. reflexivity.
  - apply Hother. discriminate.
Defined.

(** ** Checklist *)

(** C8: for a client that has a stored checklist, marking a document id that
    no item of the checklist carries fails with "Document not found in
    checklist" and changes nothing: not the checklist, not the client's
    collected and pending lists (the whole store is the same). *)
Theorem markDocumentCollected_unknown_document (st : Database)
    (clientId documentId : string) (now : Z) (checklist : DocumentChecklist) :
  db.getChecklist st clientId = Some checklist ->
  (forall d, d ∈ documents checklist -> doc_id d <> documentId) ->
  let st' := fst (markDocumentCollected st clientId documentId now) in
  let r := snd (markDocumentCollected st clientId documentId now) in
  success r = false /\
  op_message r = "Document not found in checklist" /\
  st' = st /\
  db.getChecklist st' clientId = Some checklist /\
  (forall k, documentsCollected <$> db.getClient st' k = documentsCollected <$> db.getClient st k) /\
  (forall k, documentsPending <$> db.getClient st' k = documentsPending <$> db.getClient st k).
Proof.
  intros Hchecklist Hnone st' r. subst st' r.
  unfold markDocumentCollected. rewrite Hchecklist.
  destruct (List.find _ (documents checklist)) as [document|] eqn:Hfind.
  - apply find_some in Hfind as [Hin Hid].
    apply bool_decide_eq_true in Hid. apply list_elem_of_In in Hin.
    destruct (Hnone document Hin Hid).
  - cbn. by repeat split.
Qed.

Lemma markDocumentCollected_unknown_document_witness :
  markDocumentCollected checklistDatabase "client-2" "doc-0-zzz" 9
  = (checklistDatabase,
     {| success := false; op_message := "Document not found in checklist" |}).
Proof.
  pose proof (markDocumentCollected_unknown_document checklistDatabase "client-2" "doc-0-zzz" 9
                sampleChecklist) as H.
  destruct H as (Hsuccess & Hmessage & Hstore & _).
  - vm_compute. reflexivity.
  - intros d Hd Hid.
    assert (bool_decide (doc_id d ∈ map doc_id (documents sampleChecklist)) = true) as Hmem.
    { apply bool_decide_eq_true, list_elem_of_fmap. by exists d. }
    rewrite Hid in Hmem. vm_compute in Hmem. discriminate.
  - destruct (markDocumentCollected checklistDatabase "client-2" "doc-0-zzz" 9) as [st' [s m]].
    cbn in *. by subst.
Defined.

(** *** Generated ids and template keys *)

Lemma prefix_append (s t : string) : String.prefix s (s +:+ t) = true.
Proof.
  induction s as [|c s IH].
  - by destruct t.
  - change (String c s +:+ t) with (String c (s +:+ t)). cbn [String.prefix].
    destruct (Ascii.ascii_dec c c); [exact IH | done].
Qed.

Lemma generatedId_prefix (s : string) : generatedId s -> String.prefix "doc-" s = true.
Proof. intros [e ->]. apply prefix_append. Qed.

Lemma Object_get_key {V} (table : list (string * V)) (key : string) (v : V) :
  Object_get table key = Some v -> In key (map fst table).
Proof.
  induction table as [|[k w] table IH]; [done|]. cbn.
  case_decide; [by left | right; by apply IH].
Qed.

Lemma template_key_prefix (key : string) (template : DocumentTemplate) :
  Object_get DOCUMENT_TEMPLATES key = Some template -> String.prefix "doc-" key = false.
Proof.
  intros Hget. apply Object_get_key in Hget.
  assert (forallb (fun k => negb (String.prefix "doc-" k)) (map fst DOCUMENT_TEMPLATES) = true)
    as Hall by (vm_compute; reflexivity).
  rewrite forallb_forall in Hall. apply Hall in Hget. by apply negb_true_iff in Hget.
Qed.

Lemma template_key_not_generated (key : string) (template : DocumentTemplate) :
  Object_get DOCUMENT_TEMPLATES key = Some template -> ~ generatedId key.
Proof.
  intros Hget Hgen. apply template_key_prefix in Hget.
  apply generatedId_prefix in Hgen. congruence.
Qed.

Lemma includes_false {A} `{EqDecision A} (l : list A) (x : A) :
  x ∉ l -> includes l x = false.
Proof. intros Hx. unfold includes. by apply bool_decide_eq_false. Qed.

Lemma addDocumentItem_fresh (client : ClientProfile) (entropy : nat -> Entropy)
    (keys : list string) (documents : list DocumentItem) :
  Forall (freshItem client) documents ->
  Forall (freshItem client) (fold_left (addDocumentItem client entropy) keys documents).
Proof.
  revert documents. induction keys as [|key keys IH]; intros documents Hdocs; [done|].
  cbn [fold_left]. apply IH. unfold addDocumentItem.
  destruct (Object_get DOCUMENT_TEMPLATES key) as [template|] eqn:Hget; [|done].
  apply Forall_app. split; [done|]. constructor; [|constructor].
  split; cbn.
  - by eexists.
  - intros Hcollected. apply includes_false. intros Hin.
    rewrite Forall_forall in Hcollected.
    by apply (template_key_not_generated key template Hget), Hcollected.
Qed.

(** What a successful [generateDocumentChecklist] does to the store. *)
Lemma generateDocumentChecklist_returned (st st' : Database) (clientId : string) (now : Z)
    (entropy : nat -> Entropy) (checklist : DocumentChecklist) :
  generateDocumentChecklist st clientId now entropy = Returned (st', checklist) ->
  exists client,
    db.getClient st clientId = Some client /\
    Forall (freshItem client) (documents checklist) /\
    checklists st' = <[clientId := checklist]> (checklists st) /\
    clients st'
    = <[clientId := set_updatedAt now
                      (set_documentsPending
                         (map doc_id (List.filter (fun d => negb (collected d) && required d)
                                                  (documents checklist)))
                         client)]> (clients st).
Proof.
  unfold generateDocumentChecklist.
  destruct (db.getClient st clientId) as [client|] eqn:Hclient; [|discriminate].
  cbv zeta. set (docs := Array_sort _ _).
  intros [= <- <-]. exists client. split; [done|]. cbn [documents].
  split.
  { subst docs. rewrite Array_sort_perm. by apply addDocumentItem_fresh. }
  unfold db.getClient in Hclient. unfold db.updateClient, db.saveChecklist.
  rewrite Hclient. done.
Qed.

(** *** Stores whose collected entries all come from marking *)

Lemma updateChecklistItem_clients (st : Database) (clientId documentId : string)
    (updates : DocumentItem -> DocumentItem) (now : Z) :
  clients (fst (db.updateChecklistItem st clientId documentId updates now)) = clients st.
Proof.
  unfold db.updateChecklistItem.
  destruct (checklists st !! clientId) as [cl|]; [|done].
  by destruct (list_find _ _) as [[i d]|].
Qed.

Lemma updateChecklistItem_ids (st : Database) (clientId documentId : string)
    (updates : DocumentItem -> DocumentItem) (now : Z) (k : string) (cl' : DocumentChecklist) :
  (forall d, doc_id (updates d) = doc_id d) ->
  checklists (fst (db.updateChecklistItem st clientId documentId updates now)) !! k = Some cl' ->
  exists cl, checklists st !! k = Some cl /\
             doc_id <$> documents cl' = doc_id <$> documents cl.
Proof.
  intros Hid. unfold db.updateChecklistItem.
  destruct (checklists st !! clientId) as [cl|] eqn:Hcl; [|by eauto].
  destruct (list_find _ _) as [[i d]|] eqn:Hfind; [|by eauto].
  cbn. destruct (decide (k = clientId)) as [->|Hk].
  - rewrite lookup_insert_eq. intros [= <-]. exists cl. split; [done|]. cbn.
    apply list_find_Some in Hfind as (Hi & _).
    rewrite list_fmap_insert, Hid. apply list_insert_id. by rewrite list_lookup_fmap, Hi.
  - rewrite lookup_insert_ne by done. eauto.
Qed.

Lemma collectedFromMarking_newClient (st : Database) (id : string) (now : Z) :
  collectedFromMarking st -> collectedFromMarking (fst (createNewClient st id now)).
Proof.
  intros [Hcl Hc]. split; [exact Hcl|]. intros k c. cbn.
  destruct (decide (k = id)) as [->|Hk].
  - rewrite lookup_insert_eq. intros [= <-]. constructor.
  - rewrite lookup_insert_ne by done. apply Hc.
Qed.

Lemma collectedFromMarking_generate (st st' : Database) (clientId : string) (now : Z)
    (entropy : nat -> Entropy) (checklist : DocumentChecklist) :
  collectedFromMarking st ->
  generateDocumentChecklist st clientId now entropy = Returned (st', checklist) ->
  collectedFromMarking st'.
Proof.
  intros [Hcl Hc] Hgen.
  apply generateDocumentChecklist_returned in Hgen
    as (client & Hclient & Hfresh & Hchecklists & Hclients).
  unfold collectedFromMarking. rewrite Hchecklists, Hclients.
  split.
  - intros k cl. destruct (decide (k = clientId)) as [->|Hk].
    + rewrite lookup_insert_eq. intros [= <-].
      eapply Forall_impl; [exact Hfresh|]. by intros d [Hd _].
    + rewrite lookup_insert_ne by done. apply Hcl.
  - intros k c. destruct (decide (k = clientId)) as [->|Hk].
    + rewrite lookup_insert_eq. intros [= <-]. by apply (Hc clientId client).
    + rewrite lookup_insert_ne by done. apply Hc.
Qed.

Lemma collectedFromMarking_mark (st : Database) (clientId documentId : string) (now : Z) :
  collectedFromMarking st ->
  collectedFromMarking (fst (markDocumentCollected st clientId documentId now)).
Proof.
  intros [Hcl Hc]. unfold markDocumentCollected.
  destruct (db.getChecklist st clientId) as [checklist|] eqn:Hchecklist; [|by split].
  destruct (List.find _ (documents checklist)) as [document|] eqn:Hfind; [|by split].
  apply find_some in Hfind as [Hin Hid]. apply bool_decide_eq_true in Hid.
  assert (generatedId documentId) as Hgen.
  { pose proof (Hcl clientId checklist Hchecklist) as Hall.
    rewrite Forall_forall in Hall. rewrite <- Hid. by apply Hall, list_elem_of_In. }
  set (st1 := fst (db.updateChecklistItem st clientId documentId (set_collected true) now)).
  assert (clients st1 = clients st) as Hclients1 by apply updateChecklistItem_clients.
  assert (forall k cl, checklists st1 !! k = Some cl ->
            Forall (fun d => generatedId (doc_id d)) (documents cl)) as Hcl1.
  { intros k cl' Hcl'.
    apply updateChecklistItem_ids in Hcl' as (cl & Hk & Hids); [|by intros []].
    specialize (Hcl k cl Hk).
    apply (Forall_fmap doc_id generatedId). rewrite Hids. by apply Forall_fmap. }
  cbn [fst]. unfold db.getClient.
  destruct (clients st1 !! clientId) as [client|] eqn:Hclient.
  2:{ split; [exact Hcl1|]. by rewrite Hclients1. }
  unfold db.updateClient. rewrite Hclient. cbn [fst].
  split; [exact Hcl1|]. intros k c. cbn [clients set_clients].
  destruct (decide (k = clientId)) as [->|Hk].
  - rewrite lookup_insert_eq. intros [= <-]. cbn.
    rewrite Hclients1 in Hclient. specialize (Hc clientId client Hclient).
    destruct (negb _); [|done]. apply Forall_app. split; [done|]. by repeat constructor.
  - rewrite lookup_insert_ne by done. rewrite Hclients1. apply Hc.
Qed.

Lemma markDocumentCollected_collected (st : Database) (clientId documentId : string) (now : Z)
    (checklist : DocumentChecklist) (client : ClientProfile) (document : DocumentItem) :
  db.getChecklist st clientId = Some checklist ->
  document ∈ documents checklist -> doc_id document = documentId ->
  db.getClient st clientId = Some client ->
  success (snd (markDocumentCollected st clientId documentId now)) = true /\
  documentsCollected
    <$> db.getClient (fst (markDocumentCollected st clientId documentId now)) clientId
  = Some (if includes (documentsCollected client) documentId
          then documentsCollected client
          else documentsCollected client ++ [documentId]).
Proof.
  intros Hchecklist Hin Hid Hclient. unfold markDocumentCollected. rewrite Hchecklist.
  destruct (List.find _ (documents checklist)) as [found|] eqn:Hfind.
  2:{ eapply find_none in Hfind; [|by apply list_elem_of_In].
      apply bool_decide_eq_false in Hfind. done. }
  cbn [fst snd success]. split; [done|].
  unfold db.getClient in *. rewrite updateChecklistItem_clients, Hclient.
  unfold db.updateClient. rewrite updateChecklistItem_clients, Hclient. cbn.
  rewrite lookup_insert_eq. cbn. by destruct (includes _ _).
Qed.

(** ** Intake *)

Lemma updateClient_sessions (st : Database) (id : string)
    (updates : ClientProfile -> ClientProfile) (now : Z) :
  sessions (fst (db.updateClient st id updates now)) = sessions st.
Proof. unfold db.updateClient. by destruct (clients st !! id). Qed.

Lemma updateClientFromResponse_sessions (st : Database) (client : ClientProfile)
    (step : IntakeStep) (answer : string) (now : Z) :
  sessions (fst (updateClientFromResponse st client step answer now)) = sessions st.
Proof. unfold updateClientFromResponse. cbn [fst]. apply updateClient_sessions. Qed.

Lemma isStepComplete_special_situations (answer : string) :
  String_includes (toLowerCase answer) "no" = true ->
  String_includes (toLowerCase answer) "none" = true ->
  isStepComplete special_situations answer = true.
Proof. intros Hno Hnone. unfold isStepComplete. rewrite Hno, Hnone. reflexivity. Qed.

(** C9: when the current step of a session is special_situations, an answer
    whose lower-case text contains both "no" and "none" completes the step at
    once, however few of the four questions of the step have been answered: the
    stored session moves to document_upload and special_situations is appended
    to its completed steps. *)
Theorem special_situations_short_circuit (st : Database) (sessionId answer : string) (now : Z)
    (session : IntakeSession) (client : ClientProfile) :
  db.getSession st sessionId = Some session ->
  db.getClient st (ses_clientId session) = Some client ->
  currentStep session = special_situations ->
  String_includes (toLowerCase answer) "no" = true ->
  String_includes (toLowerCase answer) "none" = true ->
  let st' := fst (processIntakeResponse st sessionId answer now) in
  let r := snd (processIntakeResponse st sessionId answer now) in
  ir_success r = true /\
  stepCompleted r = Some true /\
  ir_currentStep r = Some document_upload /\
  nextQuestion r = INTAKE_QUESTIONS document_upload !! 0%nat /\
  exists session',
    db.getSession st' sessionId = Some session' /\
    currentStep session' = document_upload /\
    completedSteps session' = completedSteps session ++ [special_situations] /\
    responses session'
    = responses session ++ [ {| step := special_situations;
                                question := getCurrentQuestion session;
                                answer := answer; timestamp := now |} ] /\
    ses_status session' = ses_status session.
Proof.
  intros Hsession Hclient Hstep Hno Hnone st' r. subst st' r.
  unfold processIntakeResponse. rewrite Hsession, Hclient.
  destruct session as [sid cid started last cur done resp status].
  cbn in Hstep. subst cur.
  pose proof (updateClientFromResponse_sessions st client special_situations answer now)
    as Hsessions.
  cbv beta iota zeta delta
    [currentStep set_responses responses set_completedSteps completedSteps set_currentStep
     session_id ses_clientId startedAt lastActivityAt ses_status].
  destruct (updateClientFromResponse st client special_situations answer now) as [st1 client1].
  cbn [fst] in Hsessions.
  rewrite (isStepComplete_special_situations answer Hno Hnone), orb_true_r.
  change (indexOf INTAKE_STEPS special_situations <? Z.of_nat (length INTAKE_STEPS) - 1)
    with true.
  change (default special_situations
            (INTAKE_STEPS !! Z.to_nat (indexOf INTAKE_STEPS special_situations + 1)))
    with document_upload.
  change (bool_decide (document_upload = complete)) with false.
  cbv beta iota. cbn [fst snd ir_success stepCompleted ir_currentStep nextQuestion].
  repeat (split; [reflexivity|]).
  unfold db.updateSession, db.getSession in *. rewrite Hsessions, Hsession.
  cbn [fst sessions set_sessions]. rewrite lookup_insert_eq.
  eexists. split; [reflexivity|]. by repeat split.
Qed.

Lemma special_situations_short_circuit_witness :
  currentStep
    <$> db.getSession (fst (processIntakeResponse intakeDatabase "session-1" "No, none" 5))
          "session-1"
  = Some document_upload.
Proof.
  destruct (special_situations_short_circuit intakeDatabase "session-1" "No, none" 5
              sampleSession cryptoWageEarner)
    as (_ & _ & _ & _ & session' & Hget & Hstep & _);
    [vm_compute; reflexivity | vm_compute; reflexivity | reflexivity
     | vm_compute; reflexivity | vm_compute; reflexivity |].
  rewrite Hget. cbn. by rewrite Hstep.
Defined.

(** ** Unresolved ids *)

(** C7 as stated does not hold: called with a client id that the store does
    not know, [generateDocumentChecklist], [createAppointment] and
    [getAppointmentEstimate] throw instead of returning a result. *)
Lemma unknown_client_is_thrown :
  db.getClient initialDatabase "nobody" = None /\
  ~ (exists r, generateDocumentChecklist initialDatabase "nobody" 0 sampleEntropy = Returned r) /\
  ~ (exists r, createAppointment initialDatabase "nobody" "tp-001" 0 None 0 (0, "x")
               = Returned r) /\
  ~ (exists r, getAppointmentEstimate initialDatabase "nobody" = Returned r).
Proof.
  split; [reflexivity|].
  repeat split; intros [r Hr]; vm_compute in Hr; discriminate.
Qed.

(** C7, amended: with an id that does not resolve, [routeClientToTaxPro],
    [processIntakeResponse], [markDocumentCollected] and [sendReminder] return
    a failure result with a message and leave the store as it is, whereas
    [generateDocumentChecklist], [createAppointment] and
    [getAppointmentEstimate] throw Error("Client not found"), which the
    tool-call boundary turns into the error response "Error: Client not
    found". *)
Theorem unresolved_id_outcomes fmt (st : Database) (now : Z) :
  (forall clientId entropy,
     db.getClient st clientId = None ->
     generateDocumentChecklist st clientId now entropy = Thrown "Client not found") /\
  (forall clientId taxProId scheduledAt type e,
     db.getClient st clientId = None ->
     createAppointment st clientId taxProId scheduledAt type now e
     = Thrown "Client not found") /\
  (forall clientId,
     db.getClient st clientId = None ->
     getAppointmentEstimate st clientId = Thrown "Client not found") /\
  (forall A (render : A -> string),
     atCallBoundary render (Thrown "Client not found")
     = {| text := "Error: Client not found"; isError := true |}) /\
  (forall clientId,
     db.getClient st clientId = None ->
     routeClientToTaxPro fmt st clientId now
     = (st, {| rt_success := false; rt_taxPro := None;
               rt_message := "Client not found"; rt_alternates := None |})) /\
  (forall sessionId answer,
     db.getSession st sessionId = None ->
     processIntakeResponse st sessionId answer now
     = (st, intakeFailure "Session not found")) /\
  (forall sessionId answer session,
     db.getSession st sessionId = Some session ->
     db.getClient st (ses_clientId session) = None ->
     processIntakeResponse st sessionId answer now
     = (st, intakeFailure "Client not found")) /\
  (forall clientId documentId,
     db.getChecklist st clientId = None ->
     markDocumentCollected st clientId documentId now
     = (st, {| success := false; op_message := "Checklist not found" |})) /\
  (forall reminderId,
     db.getReminder st reminderId = None ->
     sendReminder st reminderId now
     = (st, {| success := false; op_message := "Reminder not found" |})) /\
  (forall reminderId reminder,
     db.getReminder st reminderId = Some reminder ->
     sent reminder = false ->
     db.getClient st (rem_clientId reminder) = None ->
     sendReminder st reminderId now
     = (st, {| success := false; op_message := "Client not found" |})).
Proof.
  repeat split.
  - intros clientId entropy H. unfold generateDocumentChecklist. by rewrite H.
  - intros clientId taxProId scheduledAt type e H. unfold createAppointment. by rewrite H.
  - intros clientId H. unfold getAppointmentEstimate. by rewrite H.
  - intros clientId H. unfold routeClientToTaxPro. by rewrite H.
  - intros sessionId answer H. unfold processIntakeResponse. by rewrite H.
  - intros sessionId answer session Hs Hc. unfold processIntakeResponse. by rewrite Hs, Hc.
  - intros clientId documentId H. unfold markDocumentCollected. by rewrite H.
  - intros reminderId H. unfold sendReminder. by rewrite H.
  - intros reminderId reminder Hr Hsent Hc. unfold sendReminder. by rewrite Hr, Hsent, Hc.
Qed.

Lemma unresolved_id_outcomes_witness :
  generateDocumentChecklist initialDatabase "nobody" 0 sampleEntropy
  = Thrown "Client not found" /\
  routeClientToTaxPro (fun _ _ _ _ => "") initialDatabase "nobody" 0
  = (initialDatabase, {| rt_success := false; rt_taxPro := None;
                         rt_message := "Client not found"; rt_alternates := None |}).
Proof.
  destruct (unresolved_id_outcomes (fun _ _ _ _ => "") initialDatabase 0)
    as (Hgen & _ & _ & _ & Hroute & _).
  split.
  - apply Hgen. reflexivity.
  - apply Hroute. reflexivity.
Defined.

(** ** Histories: collected entries of a reachable store *)

Lemma collectedFromMarking_same (st st' : Database) :
  checklists st' = checklists st -> clients st' = clients st ->
  collectedFromMarking st -> collectedFromMarking st'.
Proof. unfold collectedFromMarking. by intros -> ->. Qed.

Lemma collectedFromMarking_updateClient (st : Database) (id : string)
    (updates : ClientProfile -> ClientProfile) (now : Z) :
  (forall c, clients st !! id = Some c -> Forall generatedId (documentsCollected (updates c))) ->
  collectedFromMarking st ->
  collectedFromMarking (fst (db.updateClient st id updates now)).
Proof.
  intros Hupd [Hcl Hc]. unfold db.updateClient.
  destruct (clients st !! id) as [c|] eqn:Hid; [|by split].
  split; [exact Hcl|]. intros k c'. cbn.
  destruct (decide (k = id)) as [->|Hk].
  - rewrite lookup_insert_eq. intros [= <-]. by apply Hupd.
  - rewrite lookup_insert_ne by done. apply Hc.
Qed.

Lemma collectedFromMarking_updateSession (st : Database) (id : string)
    (updates : IntakeSession -> IntakeSession) (now : Z) :
  collectedFromMarking st -> collectedFromMarking (fst (db.updateSession st id updates now)).
Proof.
  apply collectedFromMarking_same; unfold db.updateSession; by destruct (sessions st !! id).
Qed.

(** No intake answer touches the collected documents. *)
Lemma updateClientFromResponse_collected (st : Database) (client : ClientProfile)
    (step : IntakeStep) (answer : string) (now : Z) :
  documentsCollected (snd (updateClientFromResponse st client step answer now))
  = documentsCollected client.
Proof.
  unfold updateClientFromResponse. cbn [snd].
  destruct step; try reflexivity; repeat case_match; simplify_eq; reflexivity.
Qed.

Lemma updateClientFromResponse_store (st : Database) (client : ClientProfile)
    (step : IntakeStep) (answer : string) (now : Z) :
  fst (updateClientFromResponse st client step answer now)
  = fst (db.updateClient st
           (client_id (snd (updateClientFromResponse st client step answer now)))
           (fun _ => snd (updateClientFromResponse st client step answer now)) now).
Proof. reflexivity. Qed.

Lemma collectedFromMarking_respond (st : Database) (sessionId answer : string) (now : Z) :
  collectedFromMarking st ->
  collectedFromMarking (fst (processIntakeResponse st sessionId answer now)).
Proof.
  intros Hst. unfold processIntakeResponse.
  destruct (db.getSession st sessionId) as [session|]; [|done].
  destruct (db.getClient st (ses_clientId session)) as [client|] eqn:Hclient; [|done].
  assert (Forall generatedId (documentsCollected client)) as Hclient_ok
    by (destruct Hst as [_ Hc]; by apply (Hc (ses_clientId session))).
  pose proof (updateClientFromResponse_collected st client
                (currentStep (set_responses
                   (responses session ++
                      [ {| step := currentStep session; question := getCurrentQuestion session;
                           answer := answer; timestamp := now |} ]) session))
                answer now) as Hcollected.
  pose proof (updateClientFromResponse_store st client
                (currentStep (set_responses
                   (responses session ++
                      [ {| step := currentStep session; question := getCurrentQuestion session;
                           answer := answer; timestamp := now |} ]) session))
                answer now) as Hstore.
  destruct (updateClientFromResponse st client _ answer now) as [st1 client1].
  cbn [fst snd] in Hcollected, Hstore.
  assert (Forall generatedId (documentsCollected client1)) as Hclient1
    by (by rewrite Hcollected).
  assert (collectedFromMarking st1) as Hst1.
  { rewrite Hstore. by apply collectedFromMarking_updateClient. }
  unfold continueStep.
  repeat case_match; cbn [fst];
    repeat first [ apply collectedFromMarking_updateSession
                 | apply collectedFromMarking_updateClient; [intros; by destruct client1|] ];
    exact Hst1.
Qed.

Lemma collectedFromMarking_route fmt (st : Database) (clientId : string) (now : Z) :
  collectedFromMarking st ->
  collectedFromMarking (fst (routeClientToTaxPro fmt st clientId now)).
Proof.
  intros Hst. unfold routeClientToTaxPro.
  destruct (db.getClient st clientId) as [client|]; [|done].
  pose proof (findBestTaxPro_store fmt st client now) as Hstore.
  destruct (findBestTaxPro fmt st client now) as [st1 found]. cbn [fst] in Hstore.
  assert (collectedFromMarking st1) as Hst1.
  { rewrite Hstore. apply collectedFromMarking_updateClient; [|done].
    intros c Hc. destruct Hst as [_ Hclients]. specialize (Hclients _ _ Hc). by destruct c. }
  destruct (taxPro found) as [chosen|]; [|done].
  set (st2 := fst (db.updateClient st1 clientId (set_assignedTaxPro (Some (tp_id chosen))) now)).
  assert (collectedFromMarking st2) as Hst2.
  { apply collectedFromMarking_updateClient; [|done].
    intros c Hc. destruct Hst1 as [_ Hclients]. specialize (Hclients _ _ Hc). by destruct c. }
  unfold db.updateTaxProLoad. by destruct (list_find _ (taxPros st2)) as [[i tp]|].
Qed.

Lemma collectedFromMarking_appointment (st st' : Database) (clientId taxProId : string)
    (scheduledAt : Z) (type : option AppointmentType) (now : Z) (e : Entropy)
    (appointment : Appointment) :
  collectedFromMarking st ->
  createAppointment st clientId taxProId scheduledAt type now e = Returned (st', appointment) ->
  collectedFromMarking st'.
Proof.
  intros Hst. unfold createAppointment.
  destruct (db.getClient st clientId) as [client|]; [|discriminate].
  cbv zeta. intros [= <- _].
  apply collectedFromMarking_updateClient.
  - intros c Hc. destruct Hst as [_ Hclients]. cbn in Hc.
    specialize (Hclients _ _ Hc). by destruct c.
  - revert Hst. by apply collectedFromMarking_same.
Qed.

Lemma collectedFromMarking_sendReminder (st : Database) (reminderId : string) (now : Z) :
  collectedFromMarking st -> collectedFromMarking (fst (sendReminder st reminderId now)).
Proof.
  intros Hst. unfold sendReminder.
  destruct (db.getReminder st reminderId) as [reminder|] eqn:Hreminder; [|done].
  destruct (sent reminder); [done|].
  destruct (db.getClient st (rem_clientId reminder)); [|done].
  cbn [fst]. revert Hst. unfold db.getReminder in Hreminder.
  apply collectedFromMarking_same; unfold db.markReminderSent; by rewrite Hreminder.
Qed.

Lemma collectedFromMarking_applyOp fmt (st : Database) (op : Operation) :
  collectedFromMarking st -> collectedFromMarking (applyOp fmt st op).
Proof.
  intros Hst.
  destruct op as [id now|session|sessionId answer now|clientId now entropy
                 |clientId documentId now|clientId now
                 |clientId staffId time type now e|reminderId now];
    cbn [applyOp].
  - by apply collectedFromMarking_newClient.
  - revert Hst. by apply collectedFromMarking_same.
  - by apply collectedFromMarking_respond.
  - destruct (generateDocumentChecklist st clientId now entropy) as [[st' cl]|] eqn:Hgen;
      [|done]. by eapply collectedFromMarking_generate.
  - by apply collectedFromMarking_mark.
  - by apply collectedFromMarking_route.
  - destruct (createAppointment st clientId staffId time type now e)
      as [[st' apt]|] eqn:Happointment; [|done].
    by eapply collectedFromMarking_appointment.
  - by apply collectedFromMarking_sendReminder.
Qed.

Lemma collectedFromMarking_runOps fmt (st : Database) (ops : list Operation) :
  collectedFromMarking st -> collectedFromMarking (runOps fmt st ops).
Proof.
  revert st. induction ops as [|op ops IH]; intros st Hst; [done|].
  cbn. by apply IH, collectedFromMarking_applyOp.
Qed.

(** C10: [markDocumentCollected] appends the item's generated instance id
    ("doc-" timestamp "-" random) to [documentsCollected], whereas
    [generateDocumentChecklist] sets [collected] by looking the template key up
    in that list, and a generated id is never a template key. So after any
    history of operations that starts from a store with no checklist and no
    collected entry (then every collected entry comes from
    [markDocumentCollected], the one operation that writes the list), every
    item of a regenerated checklist has [collected = false]. *)
Theorem collected_status_lost_on_regeneration fmt :
  (forall (e : Entropy) (key : string) (template : DocumentTemplate),
     Object_get DOCUMENT_TEMPLATES key = Some template -> generateDocumentId e <> key) /\
  (forall st clientId documentId now checklist client document,
     db.getChecklist st clientId = Some checklist ->
     document ∈ documents checklist -> doc_id document = documentId ->
     db.getClient st clientId = Some client ->
     documentId ∉ documentsCollected client ->
     documentsCollected
       <$> db.getClient (fst (markDocumentCollected st clientId documentId now)) clientId
     = Some (documentsCollected client ++ [documentId])) /\
  (forall client entropy documents key template,
     Object_get DOCUMENT_TEMPLATES key = Some template ->
     collected <$> last (addDocumentItem client entropy documents key)
     = Some (includes (documentsCollected client) key)) /\
  (forall st0 ops clientId now entropy st' checklist,
     checklists st0 = ∅ ->
     (forall k c, clients st0 !! k = Some c -> documentsCollected c = []) ->
     generateDocumentChecklist (runOps fmt st0 ops) clientId now entropy
     = Returned (st', checklist) ->
     Forall (fun d => collected d = false) (documents checklist)).
Proof.
  split; [|split; [|split]].
  - intros e key template Hget Heq.
    apply (template_key_not_generated key template Hget). by exists e.
  - intros st clientId documentId now checklist client document
      Hchecklist Hin Hid Hclient Hnew.
    destruct (markDocumentCollected_collected st clientId documentId now checklist client
                document Hchecklist Hin Hid Hclient) as [_ ->].
    by rewrite includes_false.
  - intros client entropy documents key template Hget.
    unfold addDocumentItem. rewrite Hget. by rewrite last_snoc.
  - intros st0 ops clientId now entropy st' checklist Hempty Hnone Hgen.
    assert (collectedFromMarking st0) as Hinit.
    { split.
      - intros k cl. by rewrite Hempty, lookup_empty.
      - intros k c Hc. rewrite (Hnone k c Hc). constructor. }
    destruct (collectedFromMarking_runOps fmt st0 ops Hinit) as [_ Hcollected].
    apply generateDocumentChecklist_returned in Hgen as (client & Hclient & Hfresh & _).
    eapply Forall_impl; [exact Hfresh|]. intros d [_ Hd].
    apply Hd. by apply (Hcollected clientId).
Qed.

Lemma collected_status_lost_on_regeneration_witness :
  let st := runOps (fun _ _ _ _ => "") initialDatabase markedHistory in
  documentsCollected <$> db.getClient st "client-9" = Some ["doc-1700000000000-0"] /\
  exists st' checklist,
    generateDocumentChecklist st "client-9" 5 sampleEntropy = Returned (st', checklist) /\
    length (documents checklist) = 3%nat /\
    Forall (fun d => collected d = false) (documents checklist).
Proof.
  intros st. split; [vm_compute; reflexivity|].
  destruct (generateDocumentChecklist st "client-9" 5 sampleEntropy)
    as [[st' checklist]|] eqn:Hgen; [|vm_compute in Hgen; discriminate].
  exists st', checklist. split; [reflexivity|]. split.
  - vm_compute in Hgen. injection Hgen as _ <-. reflexivity.
  - destruct (collected_status_lost_on_regeneration (fun _ _ _ _ => "")) as (_ & _ & _ & H).
    apply (H initialDatabase markedHistory "client-9" 5 sampleEntropy st' checklist).
    + reflexivity.
    + intros k c Hc. vm_compute in Hc. discriminate.
    + exact Hgen.
Defined.

(** * Further properties *)

(** ** Complexity score: order and growth *)

Lemma fold_weights_sum {A} (w : A -> Z) (l : list A) (s : Z) :
  fold_left (fun score x => score + or_default (w x) 0) l s = s + sumWeights w l.
Proof.
  unfold sumWeights. revert s. induction l as [|x l IH]; intros s; cbn [fold_left foldr]; [lia|].
  rewrite IH, or_default_zero. lia.
Qed.

Lemma sumWeights_submseteq {A} (w : A -> Z) (l1 l2 : list A) :
  (forall x, 0 <= w x) -> l1 ⊆+ l2 -> sumWeights w l1 <= sumWeights w l2.
Proof.
  intros Hw. unfold sumWeights.
  induction 1 as [|x l1 l2 _ IH|x y l|x l1 l2 _ IH|l1 l2 l3 _ IH1 _ IH2]; cbn [foldr].
  - lia.
  - lia.
  - lia.
  - specialize (Hw x). lia.
  - lia.
Qed.

(** The score in closed form. *)
Lemma calculateComplexityScore_sum (client : ClientProfile) :
  calculateComplexityScore client
  = Z.min (COMPLEXITY_WEIGHTS.filingStatus (filingStatus client)
           + sumWeights COMPLEXITY_WEIGHTS.incomeTypes (incomeTypes client)
           + sumWeights COMPLEXITY_WEIGHTS.deductions (deductions client)
           + (if hasCrypto client then 25 else 0)
           + (if hasForeignAccounts client then 30 else 0)
           + (if hasRentalProperty client then 20 else 0)
           + (if hasBusinessIncome client then 20 else 0)
           + Z.min (Z.of_nat (length (dependents client)) * 5) 20) 100.
Proof.
  unfold calculateComplexityScore. rewrite !fold_weights_sum, or_default_zero.
  unfold COMPLEXITY_WEIGHTS.specialSituations.crypto,
    COMPLEXITY_WEIGHTS.specialSituations.foreignAccounts,
    COMPLEXITY_WEIGHTS.specialSituations.rentalProperty,
    COMPLEXITY_WEIGHTS.specialSituations.businessIncome,
    COMPLEXITY_WEIGHTS.dependentsBase, COMPLEXITY_WEIGHTS.dependentsMax.
  destruct (hasCrypto client), (hasForeignAccounts client),
    (hasRentalProperty client), (hasBusinessIncome client); f_equal; lia.
Qed.

(** X1: the complexity score never goes down when a client gains income
    types, deductions, situation flags or dependents (the filing status being
    the same), and it does not depend on the order in which the tags are
    listed. *)
Theorem calculateComplexityScore_monotone (c c' : ClientProfile) :
  filingStatus c = filingStatus c' ->
  incomeTypes c ⊆+ incomeTypes c' ->
  deductions c ⊆+ deductions c' ->
  (hasCrypto c = true -> hasCrypto c' = true) ->
  (hasForeignAccounts c = true -> hasForeignAccounts c' = true) ->
  (hasRentalProperty c = true -> hasRentalProperty c' = true) ->
  (hasBusinessIncome c = true -> hasBusinessIncome c' = true) ->
  (length (dependents c) <= length (dependents c'))%nat ->
  calculateComplexityScore c <= calculateComplexityScore c' /\
  (incomeTypes c ≡ₚ incomeTypes c' -> deductions c ≡ₚ deductions c' ->
   hasCrypto c = hasCrypto c' -> hasForeignAccounts c = hasForeignAccounts c' ->
   hasRentalProperty c = hasRentalProperty c' -> hasBusinessIncome c = hasBusinessIncome c' ->
   length (dependents c) = length (dependents c') ->
   calculateComplexityScore c = calculateComplexityScore c').
Proof.
  intros Hfiling Hinc Hded Hcrypto Hforeign Hrental Hbusiness Hdeps.
  rewrite !calculateComplexityScore_sum, Hfiling.
  pose proof (sumWeights_submseteq _ _ _ incomeTypes_weight_nonneg Hinc) as Hi.
  pose proof (sumWeights_submseteq _ _ _ deductions_weight_nonneg Hded) as Hd.
  split.
  - destruct (hasCrypto c), (hasCrypto c'), (hasForeignAccounts c), (hasForeignAccounts c'),
      (hasRentalProperty c), (hasRentalProperty c'), (hasBusinessIncome c),
      (hasBusinessIncome c');
      try (specialize (Hcrypto eq_refl)); try (specialize (Hforeign eq_refl));
      try (specialize (Hrental eq_refl)); try (specialize (Hbusiness eq_refl));
      try discriminate; lia.
  - intros Hinc' Hded' -> -> -> -> ->.
    assert (incomeTypes c' ⊆+ incomeTypes c) as Hinc2 by (by rewrite Hinc').
    assert (deductions c' ⊆+ deductions c) as Hded2 by (by rewrite Hded').
    pose proof (sumWeights_submseteq _ _ _ incomeTypes_weight_nonneg Hinc2).
    pose proof (sumWeights_submseteq _ _ _ deductions_weight_nonneg Hded2).
    f_equal. lia.
Qed.

Lemma calculateComplexityScore_monotone_witness :
  calculateComplexityScore cryptoWageEarner <= calculateComplexityScore cryptoLandlord.
Proof.
  apply (calculateComplexityScore_monotone cryptoWageEarner cryptoLandlord);
    try reflexivity; try (intros H; exact H); try (cbn; lia).
  cbn. apply submseteq_cons. apply Permutation_submseteq, Permutation_swap.
Defined.

(** X2: the tier is monotone in the score on all integers: a score up to 20
    (negative ones too) is simple, and every score from 81 on is expert, also
    beyond 100 and beyond the 200 that the threshold table lists. *)
Theorem getComplexityLevel_monotone (s1 s2 : Z) :
  s1 <= s2 ->
  (tierOrdinal (getComplexityLevel s1) <= tierOrdinal (getComplexityLevel s2))%nat /\
  (s1 <= 20 -> getComplexityLevel s1 = simple) /\
  (81 <= s2 -> getComplexityLevel s2 = expert).
Proof.
  intros Hle.
  destruct (getComplexityLevel_cases s1) as [[H1 E1]|[[H1 E1]|[[H1 E1]|[H1 E1]]]];
    destruct (getComplexityLevel_cases s2) as [[H2 E2]|[[H2 E2]|[[H2 E2]|[H2 E2]]]];
    rewrite E1, E2; cbn; repeat split; intros; try lia; try reflexivity.
Qed.

Lemma getComplexityLevel_monotone_witness :
  (tierOrdinal (getComplexityLevel (-5)) <= tierOrdinal (getComplexityLevel 250))%nat /\
  getComplexityLevel 250 = expert.
Proof.
  destruct (getComplexityLevel_monotone (-5) 250) as (Hmono & _ & Hexpert); [lia|].
  split; [exact Hmono|]. apply Hexpert. lia.
Defined.

(** ** Required specializations *)

Lemma includes_true {A} `{EqDecision A} (l : list A) (x : A) :
  includes l x = true <-> x ∈ l.
Proof. unfold includes. apply bool_decide_eq_true. Qed.

(** X3: the required specializations start with individual, hold no tag
    twice, and hold a further tag exactly when its trigger is present:
    self_employment for business income or a self-employment, freelance or gig
    income type, small_business for business income, investments, real_estate,
    crypto and foreign_income for their flag or income type. estate_planning
    and audit_representation are never required. *)
Theorem getRequiredSpecializations_spec (client : ClientProfile) :
  let required := getRequiredSpecializations client in
  head required = Some sp_individual /\
  NoDup required /\
  (sp_self_employment ∈ required <->
     hasBusinessIncome client = true \/ self_employment_1099nec ∈ incomeTypes client \/
     freelance_1099misc ∈ incomeTypes client \/ gig_economy ∈ incomeTypes client) /\
  (sp_small_business ∈ required <-> hasBusinessIncome client = true) /\
  (sp_investments ∈ required <->
     investment_income ∈ incomeTypes client \/ dividends ∈ incomeTypes client \/
     capital_gains ∈ incomeTypes client) /\
  (sp_real_estate ∈ required <->
     hasRentalProperty client = true \/ rental_income ∈ incomeTypes client) /\
  (sp_crypto ∈ required <->
     hasCrypto client = true \/ crypto_income ∈ incomeTypes client) /\
  (sp_foreign_income ∈ required <->
     hasForeignAccounts client = true \/ foreign_income ∈ incomeTypes client) /\
  (sp_estate_planning ∉ required) /\
  (sp_audit_representation ∉ required).
Proof.
  intros required. subst required. unfold getRequiredSpecializations.
  rewrite <- !includes_true, <- !orb_true_iff, !orb_assoc.
  destruct (hasBusinessIncome client); cbn [orb];
    repeat match goal with
           | |- context [if ?b then _ else _] => destruct b
           end;
    vm_compute;
    repeat split; intros; try discriminate; try reflexivity;
    try (apply (bool_decide_unpack _); vm_compute; exact I);
    try (match goal with H : _ |- False => revert H end;
         apply (bool_decide_unpack _); vm_compute; exact I).
Qed.

(** ** Routing: who can be matched *)








Lemma getAvailableTaxPros_sublist (st : Database) :
  db.getAvailableTaxPros st `sublist_of` taxPros st.
Proof.
  unfold db.getAvailableTaxPros.
  induction (taxPros st) as [|tp l IH]; cbn [List.filter]; [constructor|].
  destruct (available tp && _); [apply sublist_skip, IH | apply sublist_cons, IH].
Qed.

Lemma getAvailableTaxPros_NoDup (st : Database) :
  NoDup (map tp_id (taxPros st)) -> NoDup (map tp_id (db.getAvailableTaxPros st)).
Proof.
  intros Hnodup. eapply sublist_NoDup; [exact Hnodup|].
  apply (fmap_sublist tp_id), getAvailableTaxPros_sublist.
Qed.

(** X5: the alternates are at most two, they are distinct staff members, and
    the match is never listed among its own alternates (the staff map having
    one entry per id); without a match there is no alternate, and with one
    there are as many alternates as other available staff members, up to
    two. *)
Theorem findBestTaxPro_alternates fmt (st : Database) (client : ClientProfile) (now : Z) :
  NoDup (map tp_id (taxPros st)) ->
  let result := snd (findBestTaxPro fmt st client now) in
  (length (alternates result) <= 2)%nat /\
  NoDup (map tp_id (alternates result)) /\
  (forall tp, taxPro result = Some tp ->
     (tp_id tp ∉ map tp_id (alternates result)) /\
     length (alternates result)
     = Nat.min 2 (length (db.getAvailableTaxPros st) - 1)) /\
  (taxPro result = None -> alternates result = []).
Proof.
  intros Hnodup result.
  pose proof (findBestTaxPro_cases fmt st client now) as Hcases. cbv zeta in Hcases.
  fold result in Hcases.
  pose proof (scoredPros_perm (getComplexityLevel (calculateComplexityScore client))
                (getRequiredSpecializations client) (db.getAvailableTaxPros st)) as Hperm.
  apply getAvailableTaxPros_NoDup in Hnodup.
  destruct (scoredPros _ _ (db.getAvailableTaxPros st)) as [|best rest].
  { destruct Hcases as [Hnone ->]. cbn. repeat split; try lia; try constructor.
    all: intros; congruence. }
  assert (NoDup (tp_id (pro best) :: map tp_id (map pro rest))) as Hids.
  { change (NoDup (map tp_id (map pro (best :: rest)))). by rewrite Hperm. }
  apply NoDup_cons in Hids as [Hbest Hrest].
  assert (length (db.getAvailableTaxPros st) = S (length rest)) as Hlen.
  { rewrite <- Hperm. cbn. by rewrite length_map. }
  destruct (Qnegative (score best)); destruct Hcases as [Hres ->].
  { cbn. repeat split; try lia; try constructor. all: intros; congruence. }
  assert (map tp_id (map pro (take 2 rest)) `sublist_of` map tp_id (map pro rest)) as Hsub
    by apply (fmap_sublist tp_id), (fmap_sublist pro), sublist_take.
  split; [rewrite length_map, length_take; lia|].
  split; [eapply sublist_NoDup; [exact Hrest | exact Hsub]|].
  split; [|congruence].
  intros tp Htp. rewrite Hres in Htp. injection Htp as <-. split.
  - intros Hin. apply Hbest. eapply elem_of_sublist; [exact Hin | exact Hsub].
  - rewrite length_map, length_take, Hlen. lia.
Qed.

Lemma findBestTaxPro_alternates_witness :
  let result := snd (findBestTaxPro (fun _ _ _ _ => "") initialDatabase cryptoWageEarner 0) in
  (length (alternates result) <= 2)%nat /\ NoDup (map tp_id (alternates result)).
Proof.
  intros result.
  destruct (findBestTaxPro_alternates (fun _ _ _ _ => "") initialDatabase cryptoWageEarner 0)
    as (Hlen & Hnodup & _).
  - apply (bool_decide_unpack _). vm_compute. exact I.
  - by split.
Defined.

(** ** Routing: capacity *)

(** What [routeClientToTaxPro] does to the staff list. *)
Lemma routeClientToTaxPro_taxPros fmt (st : Database) (clientId : string) (now : Z) :
  NoDup (map tp_id (taxPros st)) ->
  taxPros (fst (routeClientToTaxPro fmt st clientId now)) = taxPros st \/
  exists i chosen,
    taxPros st !! i = Some chosen /\
    (currentLoad chosen < maxDailyAppointments chosen)%nat /\
    taxPros (fst (routeClientToTaxPro fmt st clientId now))
    = <[i := set_currentLoad (currentLoad chosen + 1) chosen]> (taxPros st).
Proof.
  intros Hnodup. unfold routeClientToTaxPro.
  destruct (db.getClient st clientId) as [client|]; [|by left].
  pose proof (findBestTaxPro_store fmt st client now) as Hstore.
  pose proof (findBestTaxPro_result_available fmt st client now) as Havail.
  destruct (findBestTaxPro fmt st client now) as [st1 found]. cbn [fst snd] in *.
  assert (taxPros st1 = taxPros st) as Hpros1 by (subst st1; apply updateClient_taxPros).
  destruct (taxPro found) as [chosen|]; [|by left].
  destruct (Havail chosen (or_introl eq_refl)) as (Hin & _ & Hload).
  set (st2 := fst (db.updateClient st1 clientId (set_assignedTaxPro (Some (tp_id chosen))) now)).
  assert (taxPros st2 = taxPros st) as Hpros2 by (subst st2; by rewrite updateClient_taxPros).
  destruct (list_find_tp_id_elem (taxPros st) chosen Hnodup Hin) as (i & Hi & Hfind).
  rewrite <- Hpros2 in Hfind.
  rewrite (updateTaxProLoad_increment st2 i chosen Hfind). cbn [fst taxPros set_taxPros].
  right. exists i, chosen. by rewrite Hpros2.
Qed.

Lemma updateSession_taxPros (st : Database) (id : string)
    (updates : IntakeSession -> IntakeSession) (now : Z) :
  taxPros (fst (db.updateSession st id updates now)) = taxPros st.
Proof. unfold db.updateSession. by destruct (sessions st !! id). Qed.

Lemma processIntakeResponse_taxPros (st : Database) (sessionId answer : string) (now : Z) :
  taxPros (fst (processIntakeResponse st sessionId answer now)) = taxPros st.
Proof.
  unfold processIntakeResponse.
  destruct (db.getSession st sessionId) as [session|]; [|done].
  destruct (db.getClient st (ses_clientId session)) as [client|]; [|done].
  pose proof (updateClientFromResponse_store st client
                (currentStep (set_responses
                   (responses session ++
                      [ {| step := currentStep session; question := getCurrentQuestion session;
                           answer := answer; timestamp := now |} ]) session))
                answer now) as Hstore.
  destruct (updateClientFromResponse st client _ answer now) as [st1 client1].
  cbn [fst snd] in Hstore.
  assert (taxPros st1 = taxPros st) as <- by (rewrite Hstore; apply updateClient_taxPros).
  unfold continueStep.
  repeat case_match; cbn [fst];
    by rewrite ?updateSession_taxPros, ?updateClient_taxPros.
Qed.

Lemma applyOp_taxPros fmt (st : Database) (op : Operation) :
  (forall clientId now, op <> OpRoute clientId now) ->
  taxPros (applyOp fmt st op) = taxPros st.
Proof.
  intros Hop.
  destruct op as [id now|session|sessionId answer now|clientId now entropy
                 |clientId documentId now|clientId now
                 |clientId staffId time type now e|reminderId now];
    cbn [applyOp].
  - reflexivity.
  - reflexivity.
  - apply processIntakeResponse_taxPros.
  - unfold generateDocumentChecklist.
    destruct (db.getClient st clientId); [|done]. cbn. apply updateClient_taxPros.
  - unfold markDocumentCollected.
    destruct (db.getChecklist st clientId) as [checklist|] eqn:Hcl; [|done].
    destruct (List.find _ _); [|done]. cbn [fst].
    assert (taxPros (fst (db.updateChecklistItem st clientId documentId
                            (set_collected true) now)) = taxPros st) as Hitem.
    { unfold db.updateChecklistItem. destruct (checklists st !! clientId); [|done].
      by destruct (list_find _ _) as [[??]|]. }
    destruct (db.getClient _ clientId); [|done]. by rewrite updateClient_taxPros.
  - by destruct (Hop clientId now).
  - unfold createAppointment. destruct (db.getClient st clientId); [|done].
    cbv zeta. by rewrite updateClient_taxPros.
  - unfold sendReminder. destruct (db.getReminder st reminderId) as [r|] eqn:Hr; [|done].
    destruct (sent r); [done|]. destruct (db.getClient st (rem_clientId r)); [|done].
    cbn [fst]. unfold db.markReminderSent. unfold db.getReminder in Hr. by rewrite Hr.
Qed.

(** X6: routing keeps every staff member's load within its capacity and
    keeps the staff ids, whatever else happens to the store: after any history
    of operations on a store whose staff have distinct ids and loads within
    capacity, the same holds. *)
Theorem load_within_capacity fmt (st : Database) (ops : list Operation) :
  NoDup (map tp_id (taxPros st)) ->
  Forall (fun tp => (currentLoad tp <= maxDailyAppointments tp)%nat) (taxPros st) ->
  map tp_id (taxPros (runOps fmt st ops)) = map tp_id (taxPros st) /\
  Forall (fun tp => (currentLoad tp <= maxDailyAppointments tp)%nat)
         (taxPros (runOps fmt st ops)).
Proof.
  revert st. induction ops as [|op ops IH]; intros st Hnodup Hcap; [done|].
  cbn [runOps fold_left]. fold (runOps fmt (applyOp fmt st op) ops).
  assert (map tp_id (taxPros (applyOp fmt st op)) = map tp_id (taxPros st) /\
          Forall (fun tp => (currentLoad tp <= maxDailyAppointments tp)%nat)
                 (taxPros (applyOp fmt st op))) as [Hids Hcap'].
  { assert ((exists clientId now, op = OpRoute clientId now) \/
            (forall clientId now, op <> OpRoute clientId now)) as [(clientId & now & ->)|Hother]
      by (destruct op; eauto; right; discriminate).
    - cbn [applyOp].
      destruct (routeClientToTaxPro_taxPros fmt st clientId now Hnodup)
        as [->|(i & chosen & Hi & Hload & ->)]; [done|].
      split.
      + change (tp_id <$> <[i:=set_currentLoad (currentLoad chosen + 1) chosen]> (taxPros st)
                = tp_id <$> taxPros st).
        rewrite list_fmap_insert. apply list_insert_id. by rewrite list_lookup_fmap, Hi.
      + apply Forall_insert; [exact Hcap|]. cbn. lia.
    - by rewrite applyOp_taxPros. }
  destruct (IH (applyOp fmt st op)) as [Hids2 Hcap2]; [by rewrite Hids|exact Hcap'|].
  split; [by rewrite Hids2|exact Hcap2].
Qed.

Lemma load_within_capacity_witness :
  Forall (fun tp => (currentLoad tp <= maxDailyAppointments tp)%nat)
         (taxPros (runOps (fun _ _ _ _ => "") initialDatabase markedHistory)).
Proof.
  apply (load_within_capacity (fun _ _ _ _ => "") initialDatabase markedHistory).
  - apply (bool_decide_unpack _). vm_compute. exact I.
  - repeat constructor; cbn; lia.
Defined.

(** The operations keep the ids, the ratings and the capacities of the
    staff. *)
Lemma applyOp_staff fmt (st : Database) (op : Operation) (P : Q -> nat -> Prop) :
  NoDup (map tp_id (taxPros st)) ->
  Forall (fun tp => P (rating tp) (maxDailyAppointments tp)) (taxPros st) ->
  map tp_id (taxPros (applyOp fmt st op)) = map tp_id (taxPros st) /\
  Forall (fun tp => P (rating tp) (maxDailyAppointments tp)) (taxPros (applyOp fmt st op)).
Proof.
  intros Hnodup Hstaff.
  assert ((exists clientId now, op = OpRoute clientId now) \/
          (forall clientId now, op <> OpRoute clientId now)) as [(clientId & now & ->)|Hother]
    by (destruct op; eauto; right; discriminate).
  - cbn [applyOp].
    destruct (routeClientToTaxPro_taxPros fmt st clientId now Hnodup)
      as [->|(i & chosen & Hi & Hload & ->)]; [done|].
    split.
    + change (tp_id <$> <[i:=set_currentLoad (currentLoad chosen + 1) chosen]> (taxPros st)
              = tp_id <$> taxPros st).
      rewrite list_fmap_insert. apply list_insert_id. by rewrite list_lookup_fmap, Hi.
    + apply Forall_insert; [exact Hstaff|].
      apply (proj1 (Forall_lookup _ _) Hstaff) in Hi. exact Hi.
  - by rewrite applyOp_taxPros.
Qed.

Lemma runOps_staff fmt (st : Database) (ops : list Operation) (P : Q -> nat -> Prop) :
  NoDup (map tp_id (taxPros st)) ->
  Forall (fun tp => P (rating tp) (maxDailyAppointments tp)) (taxPros st) ->
  Forall (fun tp => P (rating tp) (maxDailyAppointments tp)) (taxPros (runOps fmt st ops)).
Proof.
  revert st. induction ops as [|op ops IH]; intros st Hnodup Hstaff; [done|].
  cbn [runOps fold_left]. fold (runOps fmt (applyOp fmt st op) ops).
  destruct (applyOp_staff fmt st op P Hnodup Hstaff) as [Hids Hstaff'].
  apply IH; [by rewrite Hids|exact Hstaff'].
Qed.

(** In every store that a history of operations reaches from the initial
    one, every candidate's score is a number. *)
Lemma reachable_scores_are_numbers fmt (ops : list Operation) (client : ClientProfile) :
  Forall (fun sp => PrimFloat.is_nan (Float64.score sp) = false)
         (Float64.scoredPros (getComplexityLevel (calculateComplexityScore client))
                             (getRequiredSpecializations client)
                             (db.getAvailableTaxPros (runOps fmt initialDatabase ops))).
Proof.
  apply shipped_scores_are_numbers.
  apply (runOps_staff fmt initialDatabase ops
           (fun stars capacity => stars ∈ map rating initialTaxPros /\ (capacity <= 12)%nat)).
  - apply (bool_decide_unpack _). by vm_compute.
  - repeat constructor; cbn; try lia.
    all: apply list_elem_of_In; cbn; tauto.
Qed.

(** X7: [findBestTaxPro] is not a pure query: whether or not it finds a
    match, it writes the complexity score it computed (and the time) into the
    stored record of the client it was given, and it changes nothing else in
    the store. *)
Theorem findBestTaxPro_persists_score fmt (st : Database) (client : ClientProfile) (now : Z) :
  let st' := fst (findBestTaxPro fmt st client now) in
  checklists st' = checklists st /\ appointments st' = appointments st /\
  taxPros st' = taxPros st /\ reminders st' = reminders st /\ sessions st' = sessions st /\
  (forall k, k <> client_id client -> db.getClient st' k = db.getClient st k) /\
  (forall stored, db.getClient st (client_id client) = Some stored ->
     db.getClient st' (client_id client)
     = Some (set_updatedAt now
               (set_complexityScore (calculateComplexityScore client) stored))) /\
  (db.getClient st (client_id client) = None -> st' = st).
Proof.
  intros st'. subst st'. rewrite findBestTaxPro_store.
  unfold db.updateClient, db.getClient.
  destruct (clients st !! client_id client) as [stored|] eqn:Hstored; cbn.
  - repeat split; try done.
    + intros k Hk. by rewrite lookup_insert_ne.
    + intros ? [= <-]. by rewrite lookup_insert_eq.
  - repeat split; done.
Qed.

Lemma findBestTaxPro_persists_score_witness :
  complexityScore
    <$> db.getClient (fst (findBestTaxPro (fun _ _ _ _ => "") fullRosterDatabaseWithClient
                             cryptoWageEarner 8)) "client-2"
  = Some 55 /\
  taxPro (snd (findBestTaxPro (fun _ _ _ _ => "") fullRosterDatabaseWithClient
                 cryptoWageEarner 8)) = None.
Proof.
  destruct (findBestTaxPro_persists_score (fun _ _ _ _ => "") fullRosterDatabaseWithClient
              cryptoWageEarner 8) as (_ & _ & _ & _ & _ & _ & Hstored & _).
  split; [|vm_compute; reflexivity].
  change "client-2" with (client_id cryptoWageEarner).
  rewrite (Hstored cryptoWageEarner); [reflexivity|]. vm_compute. reflexivity.
Defined.

(** ** Staff load *)

Lemma list_find_insert_same {A} (P : A -> Prop) `{!forall x, Decision (P x)}
    (l : list A) (i : nat) (x y : A) :
  list_find P l = Some (i, x) -> P y -> list_find P (<[i := y]> l) = Some (i, y).
Proof.
  intros Hfind Hy. apply list_find_Some in Hfind as (Hi & Hx & Hbefore).
  apply list_find_Some. split; [|split; [done|]].
  - apply list_lookup_insert_eq. by eapply lookup_lt_Some.
  - intros j z Hj Hlt. rewrite list_lookup_insert_ne in Hj by lia. by eapply Hbefore.
Qed.

(** X8: taking a staff member's load up by one and down by one again gives
    the store back exactly; with an id that the staff map does not hold the
    store is not touched; and a decrement at load 0 leaves the load at 0. *)
Theorem updateTaxProLoad_round_trip (st : Database) (id : string) :
  fst (db.updateTaxProLoad (fst (db.updateTaxProLoad st id 1)) id (-1)) = st /\
  (db.getTaxPro st id = None -> forall change, db.updateTaxProLoad st id change = (st, None)) /\
  (forall tp, db.getTaxPro st id = Some tp -> currentLoad tp = 0%nat ->
     snd (db.updateTaxProLoad st id (-1)) = Some tp /\
     fst (db.updateTaxProLoad st id (-1)) = st).
Proof.
  unfold db.getTaxPro, db.updateTaxProLoad.
  destruct (list_find (fun tp => tp_id tp = id) (taxPros st)) as [[i tp]|] eqn:Hfind.
  - pose proof Hfind as Hspec. apply list_find_Some in Hspec as (Hi & Hid & _).
    split; [|split; [done|]].
    + cbn [fst taxPros set_taxPros].
      erewrite list_find_insert_same; [|exact Hfind|by destruct tp].
      cbn [fst taxPros set_taxPros currentLoad set_currentLoad].
      rewrite list_insert_insert_eq.
      replace (set_currentLoad _ (set_currentLoad _ tp)) with tp.
      * rewrite list_insert_id by done. by destruct st.
      * destruct tp as [? ? ? ? ? load ? ? ?]; unfold set_currentLoad; cbn. f_equal. lia.
    + intros tp0 [= <-] Hzero.
      replace (set_currentLoad _ tp) with tp.
      * cbn. split; [done|]. rewrite list_insert_id by done. by destruct st.
      * destruct tp as [? ? ? ? ? load ? ? ?]; unfold set_currentLoad; cbn in *. f_equal. lia.
  - split; [cbn [fst]; by rewrite Hfind|]. split; [done|]. intros tp [=].
Qed.

Lemma updateTaxProLoad_round_trip_witness :
  snd (db.updateTaxProLoad idleRosterDatabase "tp-200" (-1)) = Some idleStaff.
Proof.
  destruct (updateTaxProLoad_round_trip idleRosterDatabase "tp-200") as (_ & _ & Hzero).
  apply (Hzero idleStaff); reflexivity.
Defined.

(** ** Appointments *)

(** X9: for a known client [createAppointment] returns a scheduled
    appointment that can be read back under its id and that the client record
    points to. The staff id is taken as given: it is not looked up, and no
    staff member's load changes. *)
Theorem createAppointment_stored (st : Database) (clientId staffId : string)
    (scheduledAt : Z) (type : option AppointmentType) (now : Z) (e : Entropy)
    (client : ClientProfile) :
  db.getClient st clientId = Some client ->
  exists st' appointment,
    createAppointment st clientId staffId scheduledAt type now e = Returned (st', appointment) /\
    db.getAppointment st' (apt_id appointment) = Some appointment /\
    appointmentId <$> db.getClient st' clientId = Some (Some (apt_id appointment)) /\
    apt_status appointment = apt_scheduled /\
    apt_clientId appointment = clientId /\
    taxProId appointment = staffId /\
    apt_type appointment = default virtual type /\
    intakeScore appointment = (if intakeCompleted client then 100 else 0) /\
    taxPros st' = taxPros st /\
    (forall k, k <> clientId -> db.getClient st' k = db.getClient st k).
Proof.
  intros Hclient. unfold createAppointment. rewrite Hclient. cbv zeta.
  eexists _, _. split; [reflexivity|].
  unfold db.getAppointment, db.getClient in *. unfold db.updateClient, db.createAppointment.
  cbn [fst clients set_appointments appointments apt_id]. rewrite Hclient.
  cbn. rewrite !lookup_insert_eq. repeat split.
  intros k Hk. by rewrite lookup_insert_ne.
Qed.

Lemma createAppointment_stored_witness :
  exists st' appointment,
    createAppointment routingDatabase "client-2" "no-such-staff" 1000 None 9 (7, "abc")
    = Returned (st', appointment) /\
    taxProId appointment = "no-such-staff".
Proof.
  destruct (createAppointment_stored routingDatabase "client-2" "no-such-staff" 1000 None 9
              (7, "abc") cryptoWageEarner)
    as (st' & appointment & Hcreate & _ & _ & _ & _ & Hstaff & _);
    [vm_compute; reflexivity|].
  by exists st', appointment.
Defined.

(** X10: the estimate and the booking agree: for the same stored client, the
    duration of a created appointment is the estimated duration, with the same
    tier. A completed intake always shortens the appointment: it saves the
    difference between the standard and the shortened duration, which is
    between 15 and 45 minutes; without a completed intake the saving reported
    is 0. *)
Theorem getAppointmentEstimate_agrees (st : Database) (clientId staffId : string)
    (scheduledAt : Z) (type : option AppointmentType) (now : Z) (e : Entropy)
    (client : ClientProfile) :
  db.getClient st clientId = Some client ->
  exists st' appointment estimate,
    createAppointment st clientId staffId scheduledAt type now e = Returned (st', appointment) /\
    getAppointmentEstimate st clientId = Returned estimate /\
    duration appointment = estimatedDuration estimate /\
    estimatedComplexity appointment = est_complexityLevel estimate /\
    est_complexityLevel estimate = getComplexityLevel (complexityScore client) /\
    estimatedDuration estimate + savings estimate <= standardDurations (est_complexityLevel estimate) /\
    (intakeCompleted client = true ->
       estimatedDuration estimate + savings estimate
       = standardDurations (est_complexityLevel estimate) /\
       15 <= savings estimate <= 45) /\
    (intakeCompleted client = false ->
       savings estimate = 0 /\
       estimatedDuration estimate = standardDurations (est_complexityLevel estimate)).
Proof.
  intros Hclient. unfold createAppointment, getAppointmentEstimate. rewrite Hclient. cbv zeta.
  eexists _, _, _. split; [reflexivity|]. split; [reflexivity|].
  cbn [duration estimatedDuration estimatedComplexity est_complexityLevel savings].
  destruct (intakeCompleted client), (getComplexityLevel (complexityScore client));
    cbn; repeat split; intros; try discriminate; lia.
Qed.

Lemma getAppointmentEstimate_agrees_witness :
  exists estimate,
    getAppointmentEstimate routingDatabase "client-2" = Returned estimate /\
    savings estimate = 0.
Proof.
  destruct (getAppointmentEstimate_agrees routingDatabase "client-2" "tp-002" 1000 None 9
              (7, "abc") cryptoWageEarner)
    as (st' & appointment & estimate & _ & Hest & _ & _ & _ & _ & _ & Hincomplete);
    [vm_compute; reflexivity|].
  exists estimate. split; [exact Hest|]. by apply Hincomplete.
Defined.

(** ** Checklist: the keys of a client *)

Lemma elem_of_Set_add {A} `{EqDecision A} (s : list A) (x y : A) :
  y ∈ Set_add s x <-> y ∈ s \/ y = x.
Proof.
  unfold Set_add. destruct (includes s x) eqn:Hx.
  - apply includes_true in Hx. split; [auto|]. by intros [?| ->].
  - rewrite elem_of_app, list_elem_of_singleton. tauto.
Qed.

Lemma NoDup_Set_add {A} `{EqDecision A} (s : list A) (x : A) :
  NoDup s -> NoDup (Set_add s x).
Proof.
  intros Hs. unfold Set_add. destruct (includes s x) eqn:Hx; [done|].
  apply NoDup_app. split; [done|]. split; [|apply NoDup_singleton].
  intros y Hy ->%list_elem_of_singleton.
  apply includes_true in Hy. congruence.
Qed.

Lemma elem_of_fold_Set_add {A} `{EqDecision A} (xs s : list A) (y : A) :
  y ∈ fold_left Set_add xs s <-> y ∈ s \/ y ∈ xs.
Proof.
  revert s. induction xs as [|x xs IH]; intros s; cbn.
  - rewrite elem_of_nil. tauto.
  - rewrite IH, elem_of_Set_add, elem_of_cons. tauto.
Qed.

Lemma NoDup_fold_Set_add {A} `{EqDecision A} (xs s : list A) :
  NoDup s -> NoDup (fold_left Set_add xs s).
Proof.
  revert s. induction xs as [|x xs IH]; intros s Hs; [done|].
  cbn. by apply IH, NoDup_Set_add.
Qed.

Lemma elem_of_fold_table {T} (table : T -> list string) (tags : list T)
    (s : list string) (y : string) :
  y ∈ fold_left (fun set tag => fold_left Set_add (table tag) set) tags s
  <-> y ∈ s \/ exists tag, tag ∈ tags /\ y ∈ table tag.
Proof.
  revert s. induction tags as [|tag tags IH]; intros s; cbn.
  - split; [auto|]. intros [?|(tag & Htag & _)]; [done|]. by apply elem_of_nil in Htag.
  - rewrite IH, elem_of_fold_Set_add. split.
    + intros [[?|?]|(tag' & Htag & Hy)]; [auto| |].
      * right. exists tag. split; [left|done].
      * right. exists tag'. split; [by right|done].
    + intros [?|(tag' & Htag & Hy)]; [auto|].
      apply elem_of_cons in Htag as [->|Htag]; [auto|].
      right. eauto.
Qed.

Lemma NoDup_fold_table {T} (table : T -> list string) (tags : list T) (s : list string) :
  NoDup s -> NoDup (fold_left (fun set tag => fold_left Set_add (table tag) set) tags s).
Proof.
  revert s. induction tags as [|tag tags IH]; intros s Hs; [done|].
  cbn. by apply IH, NoDup_fold_Set_add.
Qed.

Lemma documentSetOf_NoDup (client : ClientProfile) : NoDup (documentSetOf client).
Proof.
  unfold documentSetOf.
  repeat match goal with
         | |- NoDup (if ?b then _ else _) => destruct b
         | |- NoDup (fold_left Set_add _ _) => apply NoDup_fold_Set_add
         | |- NoDup (fold_left _ _ _) => apply NoDup_fold_table
         end; constructor.
Qed.

Lemma documentSetOf_elem (client : ClientProfile) (key : string) :
  key ∈ documentSetOf client <->
  key ∈ ["id_primary"; "id_ssn_card"; "id_prior_return"] \/
  (exists t, t ∈ incomeTypes client /\ key ∈ INCOME_TO_DOCUMENTS t) \/
  (exists d, d ∈ deductions client /\ key ∈ DEDUCTION_TO_DOCUMENTS d) \/
  (hasCrypto client = true /\ key ∈ ["income_crypto"; "income_crypto_1099"]) \/
  (hasForeignAccounts client = true /\ key ∈ ["income_foreign"; "doc_fbar"]) \/
  (hasRentalProperty client = true /\
   key ∈ ["income_rental"; "expense_rental"; "doc_1098_rental"]) \/
  (hasBusinessIncome client = true /\
   key ∈ ["income_business"; "expense_business"; "doc_business_assets"; "ded_home_office"]) \/
  (hasHealthInsurance client = true /\ key ∈ ["hc_1095a"; "hc_1095b"]).
Proof.
  unfold documentSetOf.
  destruct (hasCrypto client), (hasForeignAccounts client), (hasRentalProperty client),
    (hasBusinessIncome client), (hasHealthInsurance client);
    rewrite ?elem_of_fold_Set_add, !elem_of_fold_table, elem_of_fold_Set_add, elem_of_nil;
    intuition congruence.
Qed.

(** X11: the document keys gathered for a client are the union of the three
    identity keys, the keys of its income types and deductions, and the keys
    of the flags that are set (health insurance included), each key once,
    however many tags or flags lead to it. *)
Theorem documentSetOf_union (client : ClientProfile) :
  NoDup (documentSetOf client) /\
  forall key,
    key ∈ documentSetOf client <->
    key ∈ ["id_primary"; "id_ssn_card"; "id_prior_return"] \/
    (exists t, t ∈ incomeTypes client /\ key ∈ INCOME_TO_DOCUMENTS t) \/
    (exists d, d ∈ deductions client /\ key ∈ DEDUCTION_TO_DOCUMENTS d) \/
    (hasCrypto client = true /\ key ∈ ["income_crypto"; "income_crypto_1099"]) \/
    (hasForeignAccounts client = true /\ key ∈ ["income_foreign"; "doc_fbar"]) \/
    (hasRentalProperty client = true /\
     key ∈ ["income_rental"; "expense_rental"; "doc_1098_rental"]) \/
    (hasBusinessIncome client = true /\
     key ∈ ["income_business"; "expense_business"; "doc_business_assets"; "ded_home_office"]) \/
    (hasHealthInsurance client = true /\ key ∈ ["hc_1095a"; "hc_1095b"]).
Proof.
  split; [apply documentSetOf_NoDup|]. intros key. apply documentSetOf_elem.
Qed.

(** ** Checklist: the generated documents *)

Lemma Object_get_elem {V} (table : list (string * V)) (key : string) (v : V) :
  Object_get table key = Some v -> (key, v) ∈ table.
Proof.
  induction table as [|[k w] table IH]; [done|]. cbn.
  case_decide as Hk.
  - intros [= ->]. subst k. left.
  - intros Hget. right. by apply IH.
Qed.

Lemma NoDup_fmap_eq {A B} (f : A -> B) (l : list A) (x y : A) :
  NoDup (f <$> l) -> x ∈ l -> y ∈ l -> f x = f y -> x = y.
Proof.
  induction l as [|a l IH]; intros Hnd Hx Hy Hf; [by apply elem_of_nil in Hx|].
  rewrite fmap_cons in Hnd. apply NoDup_cons in Hnd as [Ha Hnd].
  apply elem_of_cons in Hx as [->|Hx]; apply elem_of_cons in Hy as [->|Hy].
  - done.
  - exfalso. apply Ha. rewrite Hf. by apply list_elem_of_fmap_2.
  - exfalso. apply Ha. rewrite <- Hf. by apply list_elem_of_fmap_2.
  - by apply IH.
Qed.

Lemma template_names_distinct :
  NoDup ((fun entry => t_name (snd entry)) <$> DOCUMENT_TEMPLATES).
Proof. apply (bool_decide_unpack _). vm_compute. reflexivity. Qed.

Lemma template_name_key (key1 key2 : string) (template1 template2 : DocumentTemplate) :
  Object_get DOCUMENT_TEMPLATES key1 = Some template1 ->
  Object_get DOCUMENT_TEMPLATES key2 = Some template2 ->
  t_name template1 = t_name template2 -> key1 = key2.
Proof.
  intros H1%Object_get_elem H2%Object_get_elem Hname.
  by pose proof (NoDup_fmap_eq (fun entry => t_name (snd entry)) _ _ _
                   template_names_distinct H1 H2 Hname) as [= -> _].
Qed.

Lemma documentSetOf_has_template (client : ClientProfile) (key : string) :
  key ∈ documentSetOf client ->
  is_Some (Object_get DOCUMENT_TEMPLATES key) /\
  key ∉ ["ded_1098t"; "gig_uber"; "gig_lyft"; "gig_doordash"].
Proof.
  intros Hkey.
  assert (forall keys : list string,
            forallb (fun k => match Object_get DOCUMENT_TEMPLATES k with
                              | Some _ => negb (includes ["ded_1098t"; "gig_uber"; "gig_lyft";
                                                          "gig_doordash"] k)
                              | None => false
                              end) keys = true ->
            key ∈ keys ->
            is_Some (Object_get DOCUMENT_TEMPLATES key) /\
            key ∉ ["ded_1098t"; "gig_uber"; "gig_lyft"; "gig_doordash"]) as Hall.
  { intros keys Hkeys Hin. rewrite forallb_forall in Hkeys.
    apply list_elem_of_In, Hkeys in Hin.
    destruct (Object_get DOCUMENT_TEMPLATES key); [|done].
    split; [by eexists|]. apply negb_true_iff in Hin.
    unfold includes in Hin. by apply bool_decide_eq_false in Hin. }
  apply documentSetOf_elem in Hkey
    as [H|[(t & _ & H)|[(d & _ & H)|[[_ H]|[[_ H]|[[_ H]|[[_ H]|[_ H]]]]]]]];
    try (revert H; apply Hall; vm_compute; reflexivity).
  - revert H. apply Hall. destruct t; vm_compute; reflexivity.
  - revert H. apply Hall. destruct d; vm_compute; reflexivity.
Qed.

Lemma fold_addDocumentItem (client : ClientProfile) (entropy : nat -> Entropy)
    (keys : list string) (documents : list DocumentItem) :
  Forall (fun key => is_Some (Object_get DOCUMENT_TEMPLATES key)) keys ->
  exists items,
    fold_left (addDocumentItem client entropy) keys documents = documents ++ items /\
    Forall2 (itemOfKey client) keys items /\
    doc_id <$> items
    = (fun n => generateDocumentId (entropy n)) <$> seq (length documents) (length keys).
Proof.
  revert documents. induction keys as [|key keys IH]; intros documents Hkeys.
  { exists []. by rewrite app_nil_r. }
  apply Forall_cons in Hkeys as [[template Hget] Hkeys].
  cbn [fold_left]. unfold addDocumentItem at 2. rewrite Hget.
  destruct (IH (documents ++ [ {| doc_id := generateDocumentId (entropy (length documents));
                                  doc_name := t_name template;
                                  description := t_description template;
                                  category := t_category template;
                                  required := t_required template;
                                  collected := includes (documentsCollected client) key;
                                  source := t_source template;
                                  reminderSent := false;
                                  reminderSentAt := None;
                                  doc_notes := None |} ]) Hkeys)
    as (items & Hfold & Hitems & Hids).
  eexists (_ :: items). split; [by rewrite Hfold, <- app_assoc|]. split.
  - constructor; [|done]. exists template. by repeat split.
  - rewrite fmap_cons. cbn [doc_id length seq fmap_cons]. rewrite fmap_cons. f_equal.
    rewrite Hids, length_app. cbn [length]. by rewrite Nat.add_1_r.
Qed.

Lemma itemOfKey_names_distinct (client : ClientProfile) (keys : list string)
    (items : list DocumentItem) :
  Forall2 (itemOfKey client) keys items -> NoDup keys -> NoDup (doc_name <$> items).
Proof.
  induction 1 as [|key d keys items Hd Hitems IH]; intros Hnd; [constructor|].
  apply NoDup_cons in Hnd as [Hkey Hnd]. rewrite fmap_cons. apply NoDup_cons.
  split; [|by apply IH].
  intros (d' & Hname & Hd')%list_elem_of_fmap.
  destruct (list_elem_of_lookup_1 _ _ Hd') as [i Hi].
  destruct (Forall2_lookup_r _ _ _ _ _ Hitems Hi) as (key' & Hkey' & Hrel).
  destruct Hd as (t & Ht & Hn & _), Hrel as (t' & Ht' & Hn' & _).
  assert (key = key') as -> by (eapply template_name_key; [done..|congruence]).
  apply Hkey. by eapply list_elem_of_lookup_2.
Qed.

(** X12: for a client on record the checklist is generated, with exactly one
    item per gathered key: each item carries the name, description, category,
    required flag and source of the template of its key, has no reminder sent,
    and is collected exactly when the client's collected list holds that key;
    no two items share a name; the ids are the first generated ids of the run,
    one each; there are between 3 and 38 items, and the templates of Form
    1098-T and of the Uber, Lyft and DoorDash forms are never among them. *)
Theorem generateDocumentChecklist_items (st : Database) (clientId : string) (now : Z)
    (entropy : nat -> Entropy) (client : ClientProfile) :
  db.getClient st clientId = Some client ->
  exists st' checklist,
    generateDocumentChecklist st clientId now entropy = Returned (st', checklist) /\
    cl_clientId checklist = clientId /\
    length (documents checklist) = length (documentSetOf client) /\
    (forall d, d ∈ documents checklist ->
       exists key, key ∈ documentSetOf client /\ itemOfKey client key d /\
                   key ∉ ["ded_1098t"; "gig_uber"; "gig_lyft"; "gig_doordash"]) /\
    (forall key, key ∈ documentSetOf client ->
       exists d, d ∈ documents checklist /\ itemOfKey client key d) /\
    NoDup (doc_name <$> documents checklist) /\
    doc_id <$> documents checklist
    ≡ₚ (fun n => generateDocumentId (entropy n)) <$> seq 0 (length (documents checklist)) /\
    (3 <= length (documents checklist) <= 38)%nat.
Proof.
  intros Hclient. unfold generateDocumentChecklist. rewrite Hclient. cbv zeta.
  set (docs := Array_sort _ _). do 2 eexists. split; [reflexivity|]. cbn [documents cl_clientId].
  destruct (fold_addDocumentItem client entropy (documentSetOf client) [])
    as (items & Hfold & Hitems & Hids).
  { apply Forall_forall. intros key Hkey. by apply documentSetOf_has_template in Hkey as [? _]. }
  cbn [app length] in Hfold, Hids.
  assert (docs ≡ₚ items) as Hperm by (subst docs; by rewrite Array_sort_perm, Hfold).
  assert (length items = length (documentSetOf client)) as Hlen
    by (symmetry; by eapply Forall2_length).
  split; [done|]. split; [by rewrite Hperm|]. split; [|split; [|split; [|split]]].
  - intros d Hd. rewrite Hperm in Hd.
    destruct (list_elem_of_lookup_1 _ _ Hd) as [i Hi].
    destruct (Forall2_lookup_r _ _ _ _ _ Hitems Hi) as (key & Hkey & Hrel).
    apply list_elem_of_lookup_2 in Hkey.
    exists key. split; [done|]. split; [done|]. by apply documentSetOf_has_template in Hkey as [_ ?].
  - intros key Hkey.
    destruct (list_elem_of_lookup_1 _ _ Hkey) as [i Hi].
    destruct (Forall2_lookup_l _ _ _ _ _ Hitems Hi) as (d & Hd & Hrel).
    exists d. split; [|done]. rewrite Hperm. by eapply list_elem_of_lookup_2.
  - rewrite Hperm. eapply itemOfKey_names_distinct; [done|]. apply documentSetOf_NoDup.
  - rewrite Hperm at 1. by rewrite Hperm, Hids, Hlen.
  - rewrite Hperm, Hlen. split.
    + change 3%nat with (length ["id_primary"; "id_ssn_card"; "id_prior_return"]).
      apply submseteq_length, NoDup_submseteq; [apply (bool_decide_unpack _); by vm_compute|].
      intros key Hkey. apply documentSetOf_elem. by left.
    + change 38%nat
        with (length (List.filter
                        (fun k => negb (includes ["ded_1098t"; "gig_uber"; "gig_lyft";
                                                  "gig_doordash"] k))
                        (fst <$> DOCUMENT_TEMPLATES))).
      apply submseteq_length, NoDup_submseteq; [apply documentSetOf_NoDup|].
      intros key Hkey. apply documentSetOf_has_template in Hkey as [[t Ht] Hnot].
      apply list_elem_of_In, filter_In. split.
      * by apply Object_get_key in Ht.
      * apply negb_true_iff. by apply includes_false.
Qed.

Lemma generateDocumentChecklist_items_witness :
  exists st' checklist,
    generateDocumentChecklist routingDatabase "client-2" 1000 sampleEntropy
    = Returned (st', checklist) /\
    length (documents checklist) = 6%nat.
Proof.
  destruct (generateDocumentChecklist_items routingDatabase "client-2" 1000 sampleEntropy
              cryptoWageEarner)
    as (st' & checklist & Hgen & _ & Hlen & _); [vm_compute; reflexivity|].
  exists st', checklist. split; [exact Hgen|]. rewrite Hlen. vm_compute. reflexivity.
Defined.

Lemma checklistOrder_trans (a b c : DocumentItem) :
  checklistOrder a b -> checklistOrder b c -> checklistOrder a c.
Proof.
  unfold checklistOrder.
  intros [[Ha Hb]|[Hab Hrank]] [[Hb' Hc]|[Hbc Hrank']].
  - congruence.
  - left. split; congruence.
  - left. split; congruence.
  - right. split; [congruence|lia].
Qed.

Lemma compareDocuments_order (a b : DocumentItem) :
  (compareDocuments a b <= 0 -> checklistOrder a b) /\
  (0 < compareDocuments a b -> checklistOrder b a).
Proof.
  unfold compareDocuments, checklistOrder.
  destruct (required a), (required b); cbn [Bool.eqb negb].
  2,3: split; intros; (lia || (left; done)).
  all: destruct (category a), (category b); vm_compute; split; intros H;
    try discriminate; try (exfalso; by apply H); right; split; (reflexivity || lia).
Qed.

(** X13: the documents of a generated checklist are in order: every required
    item stands before every optional item, and among the required items, as
    among the optional ones, the categories follow the alphabetical order of
    their names (business, education, expenses, healthcare, identity, income,
    investments, other, property). *)
Theorem generateDocumentChecklist_sorted (st st' : Database) (clientId : string) (now : Z)
    (entropy : nat -> Entropy) (checklist : DocumentChecklist) :
  generateDocumentChecklist st clientId now entropy = Returned (st', checklist) ->
  StronglySorted checklistOrder (documents checklist) /\
  forall i j a b,
    documents checklist !! i = Some a -> documents checklist !! j = Some b -> (i < j)%nat ->
    (required b = true -> required a = true) /\
    (required a = required b -> (categoryRank (category a) <= categoryRank (category b))%nat).
Proof.
  unfold generateDocumentChecklist.
  destruct (db.getClient st clientId) as [client|]; [|discriminate].
  cbv zeta. set (docs := Array_sort _ _). intros [= _ <-]. cbn [documents].
  assert (StronglySorted checklistOrder docs) as Hsorted.
  { subst docs. apply Array_sort_sorted.
    - apply checklistOrder_trans.
    - intros x y Hxy. apply (proj1 (compareDocuments_order x y)). by apply Z.ltb_ge in Hxy.
    - intros x y Hxy. apply (proj2 (compareDocuments_order x y)). by apply Z.ltb_lt in Hxy. }
  split; [done|]. clear -Hsorted.
  induction Hsorted as [|d docs Hsorted IH Hd]; intros i j a b Hi Hj Hij; [done|].
  destruct j as [|j]; [lia|]. destruct i as [|i].
  - injection Hi as ->. cbn in Hj. apply list_elem_of_lookup_2 in Hj.
    rewrite Forall_forall in Hd. destruct (Hd b Hj) as [[Ha Hb]|[Hab Hrank]].
    + split; [done|congruence].
    + split; [congruence|done].
  - cbn in Hi, Hj. eapply IH; [done..|lia].
Qed.

Lemma generateDocumentChecklist_sorted_witness :
  StronglySorted checklistOrder (documents sampleChecklist).
Proof.
  apply (generateDocumentChecklist_sorted routingDatabase checklistDatabase "client-2" 7
           sampleEntropy sampleChecklist).
  vm_compute. reflexivity.
Defined.

(** ** Checklist: marking documents *)

Lemma find_list_find {A} (P : A -> Prop) `{forall x, Decision (P x)} (l : list A) :
  List.find (fun x => bool_decide (P x)) l = snd <$> list_find P l.
Proof.
  induction l as [|x l IH]; [done|]. cbn.
  destruct (decide (P x)) as [Hx|Hx].
  - by rewrite bool_decide_eq_true_2.
  - rewrite bool_decide_eq_false_2 by done. rewrite IH. by destruct (list_find P l).
Qed.

(** The store after a successful [markDocumentCollected]. *)
Lemma markDocumentCollected_found (st : Database) (clientId documentId : string) (now : Z)
    (cl : DocumentChecklist) (i : nat) (d : DocumentItem) :
  checklists st !! clientId = Some cl ->
  list_find (fun d => doc_id d = documentId) (documents cl) = Some (i, d) ->
  markDocumentCollected st clientId documentId now
  = (let st1 :=
       set_checklists
         (<[clientId := set_lastUpdated now
                          (set_documents (<[i := set_collected true d]> (documents cl)) cl)]>
            (checklists st)) st in
     match clients st !! clientId with
     | Some client =>
         set_clients
           (<[clientId :=
                set_updatedAt now
                  (set_documentsPending
                     (List.filter (fun id => negb (bool_decide (id = documentId)))
                                  (documentsPending client))
                     (set_documentsCollected
                        (if negb (includes (documentsCollected client) documentId)
                         then documentsCollected client ++ [documentId]
                         else documentsCollected client) client))]> (clients st)) st1
     | None => st1
     end,
     {| success := true;
        op_message := "Marked " +:+ dquote +:+ doc_name d +:+ dquote +:+ " as collected" |}).
Proof.
  intros Hcl Hfind. unfold markDocumentCollected, db.getChecklist. rewrite Hcl.
  rewrite (find_list_find (fun d => doc_id d = documentId)), Hfind. cbn [fmap option_fmap option_map snd].
  unfold db.updateChecklistItem. rewrite Hcl, Hfind. cbn [fst].
  unfold db.getClient, db.updateClient. cbn [clients set_checklists].
  by destruct (clients st !! clientId).
Qed.

(** A failed [markDocumentCollected] leaves the store as it was. *)
Lemma markDocumentCollected_not_found (st : Database) (clientId documentId : string) (now : Z) :
  match checklists st !! clientId with
  | Some cl => list_find (fun d => doc_id d = documentId) (documents cl) = None
  | None => True
  end ->
  fst (markDocumentCollected st clientId documentId now) = st /\
  success (snd (markDocumentCollected st clientId documentId now)) = false.
Proof.
  unfold markDocumentCollected, db.getChecklist.
  destruct (checklists st !! clientId) as [cl|]; [|done].
  intros Hfind. by rewrite (find_list_find (fun d => doc_id d = documentId)), Hfind.
Qed.

Lemma filter_not_elem (id : string) (ids : list string) :
  id ∉ ids -> List.filter (fun x => negb (bool_decide (x = id))) ids = ids.
Proof.
  induction ids as [|x ids IH]; [done|].
  intros [Hx Hids]%not_elem_of_cons. cbn.
  rewrite bool_decide_eq_false_2 by done. cbn. by rewrite IH.
Qed.

Lemma pending_ids_insert (docs : list DocumentItem) (i : nat) (d d' : DocumentItem) :
  NoDup (doc_id <$> docs) -> docs !! i = Some d ->
  doc_id d' = doc_id d -> collected d' = true ->
  doc_id <$> List.filter (fun d => negb (collected d) && required d) (<[i := d']> docs)
  = List.filter (fun id => negb (bool_decide (id = doc_id d)))
                (doc_id <$> List.filter (fun d => negb (collected d) && required d) docs).
Proof.
  revert i. induction docs as [|a docs IH]; intros i Hnd Hi Hid Hcollected; [done|].
  rewrite fmap_cons in Hnd. apply NoDup_cons in Hnd as [Ha Hnd].
  destruct i as [|i].
  - injection Hi as ->. cbn [list_insert insert List.filter]. rewrite Hcollected. cbn [negb andb].
    assert (List.filter (fun id => negb (bool_decide (id = doc_id d)))
              (doc_id <$> List.filter (fun d => negb (collected d) && required d) docs)
            = doc_id <$> List.filter (fun d => negb (collected d) && required d) docs) as Hrest.
    { apply filter_not_elem. intros (x & Hx & Hin)%list_elem_of_fmap.
      apply Ha. rewrite Hx. apply list_elem_of_fmap_2.
      apply list_elem_of_In in Hin. apply filter_In in Hin as [Hin _]. by apply list_elem_of_In. }
    destruct (negb (collected d) && required d); [|by rewrite Hrest].
    rewrite fmap_cons. cbn [List.filter]. rewrite bool_decide_eq_true_2 by done.
    cbn [negb]. by rewrite Hrest.
  - cbn in Hi. cbn [list_insert insert List.filter].
    change (list_insert i d' docs) with (<[i := d']> docs).
    assert (doc_id a <> doc_id d) as Hne.
    { intros Heq. apply Ha. rewrite Heq. apply list_elem_of_fmap_2.
      by eapply list_elem_of_lookup_2. }
    destruct (negb (collected a) && required a).
    + rewrite !fmap_cons. cbn [List.filter]. rewrite bool_decide_eq_false_2 by done.
      cbn [negb]. f_equal. by apply IH.
    + by apply IH.
Qed.

Lemma pendingTracked_mark (st : Database) (clientId markedClient documentId : string)
    (now : Z) :
  pendingTracked st clientId ->
  pendingTracked (fst (markDocumentCollected st markedClient documentId now)) clientId.
Proof.
  intros (cl & c & Hcl & Hc & Hnd & Hpending).
  destruct (checklists st !! markedClient) as [cl'|] eqn:Hcl';
    [|by rewrite (proj1 (markDocumentCollected_not_found st markedClient documentId now
                           ltac:(by rewrite Hcl')));
          exists cl, c].
  destruct (list_find (fun d => doc_id d = documentId) (documents cl')) as [[i d]|] eqn:Hfind;
    [|by rewrite (proj1 (markDocumentCollected_not_found st markedClient documentId now
                           ltac:(by rewrite Hcl')));
          exists cl, c].
  rewrite (markDocumentCollected_found _ _ _ _ _ _ _ Hcl' Hfind). cbv zeta. cbn [fst].
  unfold pendingTracked, getPendingDocuments, db.getChecklist, db.getClient in *.
  rewrite Hcl in Hpending.
  destruct (decide (markedClient = clientId)) as [->|Hne].
  - rewrite Hc. cbn [clients checklists set_clients set_checklists].
    rewrite !lookup_insert_eq. rewrite Hcl in Hcl'. injection Hcl' as <-.
    apply list_find_Some in Hfind as (Hi & Hid & _).
    do 2 eexists. split; [reflexivity|]. split; [reflexivity|].
    cbn [documents set_lastUpdated set_documents documentsPending set_updatedAt
         set_documentsPending].
    split.
    + rewrite list_fmap_insert. cbn [doc_id set_collected].
      rewrite list_insert_id; [done|]. by rewrite list_lookup_fmap, Hi.
    + rewrite (pending_ids_insert _ _ d) by done. by rewrite Hpending, Hid.
  - exists cl, c.
    destruct (clients st !! markedClient);
      cbn [clients checklists set_clients set_checklists];
      rewrite ?lookup_insert_ne by done; by rewrite ?Hcl.
Qed.

Lemma pendingTracked_markAll (marks : list (string * string * Z)) (st : Database)
    (clientId : string) :
  pendingTracked st clientId -> pendingTracked (markAll st marks) clientId.
Proof.
  revert st. induction marks as [|[[c d] now] marks IH]; intros st Hst; [done|].
  apply IH. by apply pendingTracked_mark.
Qed.

(** X14: when a checklist is generated with pairwise distinct ids, the
    client's pending list is the list of ids of what getPendingDocuments
    returns, and it stays so after any run of markDocumentCollected calls, for
    this or any other client, with known or unknown document ids. *)
Theorem pending_list_tracks_checklist (st st' : Database) (clientId : string) (now : Z)
    (entropy : nat -> Entropy) (checklist : DocumentChecklist)
    (marks : list (string * string * Z)) :
  generateDocumentChecklist st clientId now entropy = Returned (st', checklist) ->
  NoDup (doc_id <$> documents checklist) ->
  exists client,
    db.getClient (markAll st' marks) clientId = Some client /\
    documentsPending client = doc_id <$> getPendingDocuments (markAll st' marks) clientId /\
    Forall (fun d => collected d = false /\ required d = true)
           (getPendingDocuments (markAll st' marks) clientId).
Proof.
  intros Hgen Hnd.
  assert (pendingTracked st' clientId) as Htracked.
  { apply generateDocumentChecklist_returned in Hgen
      as (client & Hclient & _ & Hchecklists & Hclients).
    unfold pendingTracked, getPendingDocuments, db.getChecklist, db.getClient.
    rewrite Hchecklists, Hclients, !lookup_insert_eq.
    do 2 eexists. by repeat split. }
  apply (pendingTracked_markAll marks) in Htracked as (cl & c & Hcl & Hc & _ & Hpending).
  exists c. split; [done|]. split; [done|].
  unfold getPendingDocuments. rewrite Hcl. apply Forall_forall.
  intros d [_ Hd]%list_elem_of_In%filter_In.
  apply andb_true_iff in Hd as [Hd ?]. by apply negb_true_iff in Hd.
Qed.

Lemma pending_list_tracks_checklist_witness :
  exists client,
    db.getClient (markAll checklistDatabase [("client-2", "doc-1700000000000-0", 9)])
                 "client-2" = Some client /\
    length (documentsPending client) = 3%nat.
Proof.
  destruct (pending_list_tracks_checklist routingDatabase checklistDatabase "client-2" 7
              sampleEntropy sampleChecklist [("client-2", "doc-1700000000000-0", 9)])
    as (client & Hclient & Hpending & _).
  - vm_compute. reflexivity.
  - apply (bool_decide_unpack _). vm_compute. reflexivity.
  - exists client. split; [exact Hclient|]. rewrite Hpending. vm_compute. reflexivity.
Defined.

Lemma filter_filter_same {A} (p : A -> bool) (l : list A) :
  List.filter p (List.filter p l) = List.filter p l.
Proof.
  induction l as [|x l IH]; [done|]. cbn.
  destruct (p x) eqn:Hx; [|done]. cbn. by rewrite Hx, IH.
Qed.

Lemma includes_after_push (ids : list string) (id : string) :
  includes (if negb (includes ids id) then ids ++ [id] else ids) id = true.
Proof.
  destruct (includes ids id) eqn:Hin; cbn [negb]; [done|].
  apply includes_true, elem_of_app. right. by left.
Qed.

(** X15: marking the same document of the same client again absorbs the
    earlier marking: the store and the answer are those of the later call
    alone, whether the document is known or not. In particular a repeated
    marking adds no second entry to the client's collected list. *)
Theorem markDocumentCollected_absorbs (st : Database) (clientId documentId : string)
    (now now' : Z) :
  markDocumentCollected (fst (markDocumentCollected st clientId documentId now))
                        clientId documentId now'
  = markDocumentCollected st clientId documentId now'.
Proof.
  destruct (checklists st !! clientId) as [cl|] eqn:Hcl;
    [|by rewrite (proj1 (markDocumentCollected_not_found st clientId documentId now
                           ltac:(by rewrite Hcl)))].
  destruct (list_find (fun d => doc_id d = documentId) (documents cl)) as [[i d]|] eqn:Hfind;
    [|by rewrite (proj1 (markDocumentCollected_not_found st clientId documentId now
                           ltac:(by rewrite Hcl)))].
  pose proof (proj1 (list_find_Some _ _ _ _) Hfind) as (Hi & Hid & _).
  rewrite (markDocumentCollected_found st _ _ now _ _ _ Hcl Hfind).
  rewrite (markDocumentCollected_found st _ _ now' _ _ _ Hcl Hfind).
  cbv zeta. cbn [fst].
  destruct (clients st !! clientId) as [client|] eqn:Hclient.
  - erewrite markDocumentCollected_found;
      [|cbn [checklists set_clients set_checklists]; apply lookup_insert_eq
       |cbn [documents set_lastUpdated set_documents];
        by apply (list_find_insert_same (fun d => doc_id d = documentId) _ _ d)].
    cbv zeta. cbn [clients checklists set_clients set_checklists]. rewrite lookup_insert_eq.
    cbn [documents set_lastUpdated set_documents documentsCollected documentsPending
         set_updatedAt set_documentsPending set_documentsCollected doc_name set_collected].
    rewrite includes_after_push, filter_filter_same. cbn [negb].
    unfold set_clients, set_checklists.
    cbn [clients checklists appointments taxPros reminders sessions].
    rewrite !insert_insert_eq, list_insert_insert_eq. done.
  - erewrite markDocumentCollected_found;
      [|cbn [checklists set_clients set_checklists]; apply lookup_insert_eq
       |cbn [documents set_lastUpdated set_documents];
        by apply (list_find_insert_same (fun d => doc_id d = documentId) _ _ d)].
    cbv zeta. cbn [clients checklists set_clients set_checklists]. rewrite Hclient.
    cbn [documents set_lastUpdated set_documents doc_name set_collected].
    unfold set_checklists.
    cbn [clients checklists appointments taxPros reminders sessions].
    rewrite !insert_insert_eq, list_insert_insert_eq. done.
Qed.

Lemma insert_as_map (f : DocumentItem -> DocumentItem) (docs : list DocumentItem) (i : nat)
    (d : DocumentItem) :
  NoDup (doc_id <$> docs) -> docs !! i = Some d ->
  <[i := f d]> docs
  = (fun x => if decide (doc_id x = doc_id d) then f x else x) <$> docs.
Proof.
  revert i. induction docs as [|a docs IH]; intros i Hnd Hi; [done|].
  rewrite fmap_cons in Hnd. apply NoDup_cons in Hnd as [Ha Hnd].
  destruct i as [|i].
  - injection Hi as ->. cbn. rewrite decide_True by done. f_equal.
    symmetry. etransitivity; [|apply list_fmap_id].
    apply list_fmap_ext. intros j x Hx. rewrite decide_False; [done|].
    intros Heq. apply Ha. rewrite <- Heq. apply list_elem_of_fmap_2.
    by eapply list_elem_of_lookup_2.
  - cbn in Hi. cbn. rewrite decide_False.
    + f_equal. by apply IH.
    + intros Heq. apply Ha. rewrite Heq. apply list_elem_of_fmap_2.
      by eapply list_elem_of_lookup_2.
Qed.

Lemma pending_after_collecting (docs : list DocumentItem) (id : string) :
  List.filter (fun d => negb (collected d) && required d)
    ((fun x => if decide (doc_id x = id) then set_collected true x else x) <$> docs)
  = List.filter (fun x => negb (bool_decide (doc_id x = id)))
      (List.filter (fun d => negb (collected d) && required d) docs).
Proof.
  induction docs as [|a docs IH]; [done|].
  rewrite fmap_cons. cbn [List.filter]. destruct (decide (doc_id a = id)) as [Ha|Ha].
  - cbn [collected set_collected negb andb].
    destruct (negb (collected a) && required a); [|done].
    cbn [List.filter]. by rewrite bool_decide_eq_true_2.
  - destruct (negb (collected a) && required a); [|done].
    cbn [List.filter]. rewrite bool_decide_eq_false_2 by done. cbn [negb]. by rewrite IH.
Qed.

(** X16: marking a document that the client's checklist holds, when the ids
    of the checklist are pairwise distinct, succeeds with a message naming the
    document; in the stored checklist exactly that item becomes collected, all
    other items and the order are kept and the update time is set; what
    getPendingDocuments returns afterwards is what it returned before without
    that item; staff, appointments, reminders and sessions are not touched. *)
Theorem markDocumentCollected_effect (st : Database) (clientId documentId : string) (now : Z)
    (checklist : DocumentChecklist) (d : DocumentItem) :
  db.getChecklist st clientId = Some checklist ->
  d ∈ documents checklist -> doc_id d = documentId ->
  NoDup (doc_id <$> documents checklist) ->
  let st' := fst (markDocumentCollected st clientId documentId now) in
  snd (markDocumentCollected st clientId documentId now)
  = {| success := true;
       op_message := "Marked " +:+ dquote +:+ doc_name d +:+ dquote +:+ " as collected" |} /\
  (exists checklist',
     getDocumentChecklist st' clientId = Some checklist' /\
     documents checklist'
     = (fun x => if decide (doc_id x = documentId) then set_collected true x else x)
         <$> documents checklist /\
     lastUpdated checklist' = now /\
     generatedAt checklist' = generatedAt checklist) /\
  getPendingDocuments st' clientId
  = List.filter (fun x => negb (bool_decide (doc_id x = documentId)))
                (getPendingDocuments st clientId) /\
  (forall other, other <> clientId ->
     getDocumentChecklist st' other = getDocumentChecklist st other /\
     db.getClient st' other = db.getClient st other) /\
  taxPros st' = taxPros st /\ appointments st' = appointments st /\
  reminders st' = reminders st /\ sessions st' = sessions st.
Proof.
  intros Hcl Hd Hid Hnd st'. unfold db.getChecklist in Hcl.
  destruct (list_elem_of_lookup_1 _ _ Hd) as [i Hi].
  assert (list_find (fun d => doc_id d = documentId) (documents checklist) = Some (i, d))
    as Hfind.
  { apply list_find_Some. split; [done|]. split; [done|].
    intros j y Hj Hlt Hy.
    assert (i = j); [|lia].
    apply (NoDup_lookup _ i j documentId Hnd); rewrite list_lookup_fmap;
      [rewrite Hi|rewrite Hj]; cbn; congruence. }
  subst st'. rewrite (markDocumentCollected_found _ _ _ _ _ _ _ Hcl Hfind). cbv zeta.
  cbn [fst snd]. split; [done|].
  rewrite (insert_as_map (set_collected true)), Hid by done.
  unfold getDocumentChecklist, getPendingDocuments, db.getChecklist, db.getClient.
  rewrite Hcl.
  destruct (clients st !! clientId) as [client|];
    cbn [clients checklists appointments taxPros reminders sessions set_clients set_checklists];
    rewrite lookup_insert_eq;
    (split; [eexists; split; [reflexivity|]; by repeat split|]);
    cbn [documents set_lastUpdated set_documents];
    (split; [apply pending_after_collecting|]);
    (split; [|done]);
    intros other Hother; by rewrite ?lookup_insert_ne by done.
Qed.

Lemma markDocumentCollected_effect_witness :
  length (getPendingDocuments
            (fst (markDocumentCollected checklistDatabase "client-2" "doc-1700000000000-0" 9))
            "client-2") = 3%nat.
Proof.
  destruct (markDocumentCollected_effect checklistDatabase "client-2" "doc-1700000000000-0" 9
              sampleChecklist
              (default {| doc_id := ""; doc_name := ""; description := "";
                          category := cat_other; required := false; collected := false;
                          source := None; reminderSent := false; reminderSentAt := None;
                          doc_notes := None |}
                       (List.find (fun d => bool_decide (doc_id d = "doc-1700000000000-0"))
                                  (documents sampleChecklist))))
    as (_ & _ & Hpending & _).
  - vm_compute. reflexivity.
  - apply (list_elem_of_lookup_2 _ 0%nat). vm_compute. reflexivity.
  - vm_compute. reflexivity.
  - apply (bool_decide_unpack _). vm_compute. reflexivity.
  - rewrite Hpending. vm_compute. reflexivity.
Defined.

(** ** Checklist: documents of gig employers *)

(** X17: the gig documents are decided by which of the words uber, lyft and
    doordash occur, in any letter case, inside some employer name: one 1099-NEC
    item per platform found, always in the order Uber, Lyft, DoorDash whatever
    the order of the employers, followed by the mileage log; with no platform
    found the result is empty, so it never has exactly one item. All items are
    required, not collected and without reminder, and they carry the first
    generated ids of the call in order. *)
Theorem getGigEconomyDocuments_platforms (employers : list string) (entropy : nat -> Entropy) :
  let works platform :=
    existsb (fun e => String_includes e platform) (map toLowerCase employers) in
  let platforms :=
    (if works "uber" then ["1099-NEC from Uber"] else []) ++
    (if works "lyft" then ["1099-NEC from Lyft"] else []) ++
    (if works "doordash" then ["1099-NEC from DoorDash"] else []) in
  let documents := getGigEconomyDocuments employers entropy in
  doc_name <$> documents
  = (if (0 <? length platforms)%nat then platforms ++ ["Mileage Log"] else []) /\
  doc_id <$> documents
  = (fun n => generateDocumentId (entropy n)) <$> seq 0 (length documents) /\
  Forall (fun d => required d = true /\ collected d = false /\ reminderSent d = false)
         documents /\
  (documents = [] <-> works "uber" = false /\ works "lyft" = false /\ works "doordash" = false) /\
  length documents <> 1%nat /\ (length documents <= 4)%nat.
Proof.
  cbv zeta. unfold getGigEconomyDocuments. cbv zeta.
  destruct (existsb (fun e => String_includes e "uber") (map toLowerCase employers)),
    (existsb (fun e => String_includes e "lyft") (map toLowerCase employers)),
    (existsb (fun e => String_includes e "doordash") (map toLowerCase employers));
    cbv -[generateDocumentId];
    (split; [reflexivity|]); (split; [reflexivity|]);
    (split; [by repeat constructor|]);
    (split; [split; [discriminate || done | intros (? & ? & ?); done || discriminate]|]);
    split; (lia || discriminate).
Qed.

(** ** Intake: the dialogue *)

Lemma updateClient_dom (st : Database) (id : string)
    (updates : ClientProfile -> ClientProfile) (now : Z) (k : string) :
  is_Some (clients (fst (db.updateClient st id updates now)) !! k)
  <-> is_Some (clients st !! k).
Proof.
  unfold db.updateClient. destruct (clients st !! id) as [c|] eqn:Hc; [|done].
  cbn. destruct (decide (k = id)) as [->|Hne].
  - rewrite lookup_insert_eq, Hc. split; by eexists.
  - by rewrite lookup_insert_ne.
Qed.

Lemma updateSession_clients (st : Database) (id : string)
    (updates : IntakeSession -> IntakeSession) (now : Z) :
  clients (fst (db.updateSession st id updates now)) = clients st.
Proof. unfold db.updateSession. by destruct (sessions st !! id). Qed.

Lemma updateSession_sessions (st : Database) (id : string) (session session' : IntakeSession)
    (now : Z) :
  sessions st !! id = Some session ->
  sessions (fst (db.updateSession st id (fun _ => session') now))
  = <[id := set_lastActivityAt now session']> (sessions st).
Proof. intros Hs. unfold db.updateSession. by rewrite Hs. Qed.

(** The sessions after [processIntakeResponse]: the session of the call is
    replaced by [sessionAfter], the others stay. *)
Lemma processIntakeResponse_sessions (st : Database) (sessionId answer : string) (now : Z)
    (session : IntakeSession) (client : ClientProfile) :
  db.getSession st sessionId = Some session ->
  db.getClient st (ses_clientId session) = Some client ->
  sessions (fst (processIntakeResponse st sessionId answer now))
  = <[sessionId := sessionAfter session answer now]> (sessions st) /\
  ir_success (snd (processIntakeResponse st sessionId answer now)) = true.
Proof.
  intros Hsession Hclient. unfold processIntakeResponse. rewrite Hsession, Hclient.
  pose proof (updateClientFromResponse_sessions st client
                (currentStep (set_responses
                   (responses session ++
                      [ {| step := currentStep session; question := getCurrentQuestion session;
                           answer := answer; timestamp := now |} ]) session))
                answer now) as Hsessions.
  destruct (updateClientFromResponse st client _ answer now) as [st1 client1].
  cbn [fst] in Hsessions. unfold db.getSession in Hsession. rewrite <- Hsessions in Hsession.
  unfold sessionAfter, continueStep. cbv zeta.
  repeat case_match; cbn [fst snd ir_success]; (split; [|done]);
    rewrite ?(updateSession_sessions _ _ session) by (by rewrite ?updateClient_sessions);
    by rewrite ?updateClient_sessions, ?Hsessions.
Qed.

Lemma sessionAfter_fields (session : IntakeSession) (answer : string) (now : Z) :
  let session' := sessionAfter session answer now in
  responses session'
  = responses session ++
    [ {| step := currentStep session; question := getCurrentQuestion session;
         answer := answer; timestamp := now |} ] /\
  currentStep session'
  = (if stepIsOver session answer then nextStep (currentStep session)
     else currentStep session) /\
  completedSteps session'
  = (if stepIsOver session answer then completedSteps session ++ [currentStep session]
     else completedSteps session) /\
  ses_status session'
  = (if stepIsOver session answer && bool_decide (currentStep session = review)
     then completed else ses_status session) /\
  session_id session' = session_id session /\
  ses_clientId session' = ses_clientId session /\
  startedAt session' = startedAt session /\
  lastActivityAt session' = now.
Proof.
  cbv zeta. unfold sessionAfter, stepIsOver, answered, nextStep. cbv zeta.
  cbn [currentStep responses completedSteps set_responses].
  rewrite List.filter_app. cbn [List.filter step].
  rewrite bool_decide_eq_true_2 by done. rewrite length_app. cbn [length].
  generalize ((length (INTAKE_QUESTIONS (currentStep session))
               <=? length (List.filter (fun r => bool_decide (step r = currentStep session))
                                       (responses session)) + 1)%nat
              || isStepComplete (currentStep session) answer).
  generalize (getCurrentQuestion session). intros q over.
  destruct over; cbn [andb]; [|by repeat split].
  cbn [currentStep completedSteps responses ses_status session_id ses_clientId startedAt
       lastActivityAt set_responses set_completedSteps set_currentStep set_ses_status
       set_lastActivityAt].
  destruct (currentStep session) eqn:Hcur; vm_compute; by repeat split.
Qed.

Lemma step_advance (s : IntakeStep) :
  (indexOf INTAKE_STEPS s <? Z.of_nat (length INTAKE_STEPS) - 1)
  = negb (bool_decide (s = complete)) /\
  bool_decide (default s (INTAKE_STEPS !! Z.to_nat (indexOf INTAKE_STEPS s + 1)) = complete)
  = bool_decide (s = review) || bool_decide (s = complete).
Proof. destruct s; vm_compute; done. Qed.

Lemma updateClientFromResponse_identity (st : Database) (client : ClientProfile)
    (step : IntakeStep) (answer : string) (now : Z) :
  client_id (snd (updateClientFromResponse st client step answer now)) = client_id client /\
  intakeCompleted (snd (updateClientFromResponse st client step answer now))
  = intakeCompleted client.
Proof.
  unfold updateClientFromResponse. cbn [snd].
  destruct step; try done; repeat case_match; simplify_eq; done.
Qed.

(** The record of the session's client after [processIntakeResponse], when
    it is stored under its own id. *)
Lemma processIntakeResponse_client (st : Database) (sessionId answer : string) (now : Z)
    (session : IntakeSession) (client : ClientProfile) :
  db.getSession st sessionId = Some session ->
  db.getClient st (ses_clientId session) = Some client ->
  client_id client = ses_clientId session ->
  exists client',
    db.getClient (fst (processIntakeResponse st sessionId answer now)) (ses_clientId session)
    = Some client' /\
    client_id client' = ses_clientId session /\
    intakeCompleted client'
    = intakeCompleted client
      || (stepIsOver session answer && bool_decide (currentStep session = review)).
Proof.
  intros Hsession Hclient Hid. unfold processIntakeResponse. rewrite Hsession, Hclient.
  pose proof (updateClientFromResponse_identity st client
                (currentStep (set_responses
                   (responses session ++
                      [ {| step := currentStep session; question := getCurrentQuestion session;
                           answer := answer; timestamp := now |} ]) session))
                answer now) as [Hid1 Hdone1].
  pose proof (updateClientFromResponse_store st client
                (currentStep (set_responses
                   (responses session ++
                      [ {| step := currentStep session; question := getCurrentQuestion session;
                           answer := answer; timestamp := now |} ]) session))
                answer now) as Hstore.
  destruct (updateClientFromResponse st client _ answer now) as [st1 client1].
  cbn [fst snd] in Hid1, Hdone1, Hstore. rewrite Hid in Hid1.
  assert (clients st1 = <[ses_clientId session := set_updatedAt now client1]> (clients st))
    as Hclients1.
  { rewrite Hstore, Hid1. unfold db.updateClient. unfold db.getClient in Hclient.
    by rewrite Hclient. }
  unfold stepIsOver, answered, continueStep. cbv zeta.
  cbn [currentStep responses completedSteps set_responses set_completedSteps].
  rewrite List.filter_app. cbn [List.filter step].
  rewrite bool_decide_eq_true_2 by done. rewrite length_app. cbn [length].
  generalize ((length (INTAKE_QUESTIONS (currentStep session))
               <=? length (List.filter (fun r => bool_decide (step r = currentStep session))
                                       (responses session)) + 1)%nat
              || isStepComplete (currentStep session) answer).
  intros over. destruct over; cbn [andb].
  2:{ rewrite orb_false_r. destruct (_ <? _)%nat; cbn [fst]; unfold db.getClient;
      rewrite updateSession_clients, Hclients1, lookup_insert_eq; by eexists. }
  cbn [currentStep set_completedSteps set_currentStep].
  destruct (step_advance (currentStep session)) as [-> ->].
  destruct (decide (currentStep session = complete)) as [Hlast|Hlast].
  { rewrite (bool_decide_eq_true_2 _ Hlast). cbn [negb].
    rewrite bool_decide_eq_false_2 by congruence. rewrite orb_false_r.
    destruct (_ <? _)%nat; cbn [fst]; unfold db.getClient;
      rewrite updateSession_clients, Hclients1, lookup_insert_eq; by eexists. }
  rewrite (bool_decide_eq_false_2 _ Hlast). cbn [negb]. rewrite orb_false_r.
  destruct (bool_decide (currentStep session = review)); cbn [fst]; unfold db.getClient.
  - rewrite updateSession_clients. unfold db.updateClient.
    cbn [client_id set_intakeCompletedAt set_intakeCompleted]. rewrite Hid1, Hclients1.
    rewrite lookup_insert_eq. cbn [fst clients set_clients]. rewrite lookup_insert_eq.
    eexists. split; [reflexivity|]. split; [done|]. cbn. by rewrite orb_true_r.
  - rewrite updateSession_clients, Hclients1, lookup_insert_eq. rewrite orb_false_r.
    by eexists.
Qed.

Lemma step_table (s : IntakeStep) :
  s <> complete ->
  stepIndex (nextStep s) = S (stepIndex s) /\
  questionsFrom s = (length (INTAKE_QUESTIONS s) + questionsFrom (nextStep s))%nat /\
  fewestAnswersFrom s = (fewestAnswers s + fewestAnswersFrom (nextStep s))%nat /\
  take (stepIndex (nextStep s)) INTAKE_STEPS = take (stepIndex s) INTAKE_STEPS ++ [s] /\
  (0 < length (INTAKE_QUESTIONS s))%nat /\
  (nextStep s = complete <-> s = review).
Proof. destruct s; intros Hs; try done; vm_compute; repeat split; (done || lia). Qed.

Lemma step_last :
  nextStep complete = complete /\
  questionsFrom complete = 0%nat /\
  fewestAnswersFrom complete = 0%nat /\
  length (INTAKE_QUESTIONS complete) = 0%nat /\
  take (stepIndex complete) INTAKE_STEPS
  = [ personal_info; filing_status; dependents_step; employment; income_types;
      deductions_step; special_situations; document_upload; review ].
Proof. vm_compute. done. Qed.

Lemma isStepComplete_steps (s : IntakeStep) (answer : string) :
  isStepComplete s answer = true -> s = dependents_step \/ s = special_situations.
Proof.
  unfold isStepComplete.
  destruct (decide (s = dependents_step)) as [->|Hd]; [by left|].
  destruct (decide (s = special_situations)) as [->|Hs]; [by right|].
  by rewrite !bool_decide_eq_false_2.
Qed.

Lemma stepIsOver_last (session : IntakeSession) (answer : string) :
  currentStep session = complete -> stepIsOver session answer = true.
Proof. intros Hcur. unfold stepIsOver. by rewrite Hcur. Qed.

Lemma filter_none {A} (p : A -> bool) (l : list A) :
  Forall (fun x => p x = false) l -> List.filter p l = [].
Proof. induction 1 as [|x l Hx _ IH]; [done|]. cbn. by rewrite Hx. Qed.

Lemma answered_sessionAfter (session : IntakeSession) (answer : string) (now : Z) :
  dialogueInOrder session ->
  answered (sessionAfter session answer now)
  = if stepIsOver session answer && negb (bool_decide (currentStep session = complete))
    then 0%nat else S (answered session).
Proof.
  intros (Hsteps & _ & _).
  destruct (sessionAfter_fields session answer now) as (Hresponses & Hstep & _).
  unfold answered. rewrite Hresponses, Hstep, List.filter_app, length_app.
  cbn [List.filter step].
  destruct (decide (currentStep session = complete)) as [Hlast|Hlast].
  - rewrite stepIsOver_last by done. rewrite Hlast.
    change (nextStep complete) with complete.
    rewrite !bool_decide_eq_true_2 by done. cbn [andb negb length]. lia.
  - rewrite (bool_decide_eq_false_2 _ Hlast), andb_true_r.
    destruct (stepIsOver session answer).
    + destruct (step_table _ Hlast) as (Hnext & _).
      rewrite (bool_decide_eq_false_2 (currentStep session = _))
        by (intros Heq; rewrite <- Heq in Hnext; lia).
      cbn [length]. rewrite Nat.add_0_r.
      apply length_zero_iff_nil, filter_none.
      eapply Forall_impl; [exact Hsteps|]. intros r Hr. cbn in Hr.
      apply bool_decide_eq_false_2. intros Heq. rewrite Heq in Hr. lia.
    + rewrite bool_decide_eq_true_2 by done. cbn [length]. lia.
Qed.

Lemma dialogueInOrder_sessionAfter (session : IntakeSession) (answer : string) (now : Z) :
  dialogueInOrder session -> dialogueInOrder (sessionAfter session answer now).
Proof.
  intros Hin. pose proof (answered_sessionAfter session answer now Hin) as Hanswered.
  destruct Hin as (Hsteps & Hfew & Hstatus).
  destruct (sessionAfter_fields session answer now)
    as (Hresponses & Hstep & _ & Hstatus' & _).
  unfold dialogueInOrder. rewrite Hanswered, Hresponses, Hstep, Hstatus'.
  destruct (decide (currentStep session = complete)) as [Hlast|Hlast].
  - rewrite stepIsOver_last by done. rewrite Hlast in *.
    change (nextStep complete) with complete.
    rewrite bool_decide_eq_true_2 by done. cbn [andb negb].
    split; [|split; [done|]].
    + apply Forall_app. split; [done|]. by repeat constructor.
    + intros _. rewrite bool_decide_eq_false_2 by done. by apply Hstatus.
  - rewrite (bool_decide_eq_false_2 _ Hlast), andb_true_r.
    destruct (step_table _ Hlast) as (Hnext & _ & _ & _ & _ & Hreview).
    destruct (stepIsOver session answer) eqn:Hover; cbn [andb].
    + split; [|split].
      * rewrite Hnext. apply Forall_app. split.
        -- eapply Forall_impl; [exact Hsteps|]. intros r Hr. cbn in Hr. lia.
        -- repeat constructor; cbn; lia.
      * intros Hnot. by apply step_table.
      * intros Hcomplete%Hreview. by rewrite bool_decide_eq_true_2.
    + split; [|split; [|done]].
      * apply Forall_app. split; [done|]. by repeat constructor.
      * intros _. unfold stepIsOver in Hover. apply orb_false_iff in Hover as [Hover _].
        apply Nat.leb_gt in Hover. lia.
Qed.

Lemma completedInOrder_sessionAfter (session : IntakeSession) (answer : string) (now : Z) :
  completedInOrder session -> completedInOrder (sessionAfter session answer now).
Proof.
  intros (extra & Hcompleted & Hextra).
  destruct (sessionAfter_fields session answer now) as (_ & Hstep & Hcompleted' & _).
  unfold completedInOrder. rewrite Hstep, Hcompleted'.
  destruct (decide (currentStep session = complete)) as [Hlast|Hlast].
  - rewrite stepIsOver_last by done. rewrite Hlast in *.
    change (nextStep complete) with complete.
    exists (S extra). split; [|done].
    rewrite Hcompleted, <- app_assoc. f_equal.
    change [complete] with (replicate 1 complete). rewrite <- replicate_add.
    f_equal. lia.
  - destruct (stepIsOver session answer).
    + exists 0%nat. split; [|done]. cbn [replicate]. rewrite app_nil_r.
      destruct (step_table _ Hlast) as (_ & _ & _ & -> & _).
      rewrite Hcompleted, (Hextra Hlast). cbn [replicate]. by rewrite app_nil_r.
    + exists extra. by split.
Qed.

Lemma answersLeft_sessionAfter (session : IntakeSession) (answer : string) (now : Z) :
  dialogueInOrder session ->
  (currentStep session <> complete ->
     (answersLeftAtMost (sessionAfter session answer now) + 1
      <= answersLeftAtMost session)%nat) /\
  (answersLeftAtLeast session <= answersLeftAtLeast (sessionAfter session answer now) + 1)%nat /\
  (currentStep session = complete -> currentStep (sessionAfter session answer now) = complete).
Proof.
  intros Hin. pose proof (answered_sessionAfter session answer now Hin) as Hanswered.
  destruct Hin as (Hsteps & Hfew & Hstatus).
  destruct (sessionAfter_fields session answer now) as (_ & Hstep & _).
  unfold answersLeftAtMost, answersLeftAtLeast. rewrite Hanswered, Hstep.
  destruct (decide (currentStep session = complete)) as [Hlast|Hlast].
  - rewrite stepIsOver_last by done. rewrite Hlast.
    change (nextStep complete) with complete. split; [done|]. split; [|done].
    vm_compute. lia.
  - rewrite (bool_decide_eq_false_2 _ Hlast), andb_true_r.
    specialize (Hfew Hlast).
    destruct (step_table _ Hlast) as (_ & HQ & HF & _ & _ & _).
    rewrite HQ, HF.
    destruct (stepIsOver session answer) eqn:Hover.
    + split; [intros _; lia|]. split; [|done].
      unfold stepIsOver in Hover. apply orb_true_iff in Hover as [Hover|Hover].
      * apply Nat.leb_le in Hover.
        destruct (nextStep (currentStep session)), (currentStep session);
          cbn [fewestAnswers] in *; lia.
      * apply isStepComplete_steps in Hover as [Hs|Hs]; rewrite Hs; cbn [fewestAnswers].
        -- destruct (nextStep dependents_step); lia.
        -- destruct (nextStep special_situations); lia.
    + rewrite HQ, HF. split; [intros _; lia|]. split; [|done].
      destruct (currentStep session); cbn [fewestAnswers]; lia.
Qed.

(** A run of answers keeps the dialogue in order and moves the two bounds
    by at most one per answer. *)
Lemma processIntakeResponses_run (sessionId : string) (answers : list (string * Z)) :
  forall (st : Database) (session : IntakeSession) (client : ClientProfile),
    db.getSession st sessionId = Some session ->
    db.getClient st (ses_clientId session) = Some client ->
    client_id client = ses_clientId session ->
    dialogueInOrder session -> completedInOrder session ->
    (currentStep session = complete -> intakeCompleted client = true) ->
    exists session' client',
      db.getSession (processIntakeResponses st sessionId answers) sessionId = Some session' /\
      db.getClient (processIntakeResponses st sessionId answers) (ses_clientId session)
      = Some client' /\
      dialogueInOrder session' /\ completedInOrder session' /\
      (currentStep session' = complete -> intakeCompleted client' = true) /\
      length (responses session') = (length (responses session) + length answers)%nat /\
      (currentStep session = complete -> currentStep session' = complete) /\
      (currentStep session' = complete \/
       (answersLeftAtMost session' + length answers <= answersLeftAtMost session)%nat) /\
      (answersLeftAtLeast session <= answersLeftAtLeast session' + length answers)%nat.
Proof.
  induction answers as [|[answer now] answers IH];
    intros st session client Hsession Hclient Hid Hin Hcompleted Hdone.
  { exists session, client. cbn [processIntakeResponses fold_left length].
    do 5 (split; [done|]). split; [lia|]. split; [done|]. split; [right|]; lia. }
  cbn [processIntakeResponses fold_left fst snd].
  change (fold_left _ answers ?s) with (processIntakeResponses s sessionId answers).
  destruct (processIntakeResponse_sessions st sessionId answer now session client Hsession Hclient)
    as [Hsessions _].
  destruct (processIntakeResponse_client st sessionId answer now session client
              Hsession Hclient Hid) as (client1 & Hclient1 & Hid1 & Hdone1).
  destruct (sessionAfter_fields session answer now)
    as (Hresponses & Hstep & _ & _ & _ & Hcid & _).
  destruct (answersLeft_sessionAfter session answer now Hin) as (Hmost & Hleast & Hstay).
  destruct (IH (fst (processIntakeResponse st sessionId answer now))
               (sessionAfter session answer now) client1)
    as (session' & client' & Hsession' & Hclient' & Hin' & Hcompleted' & Hdone' & Hlen
         & Hstay' & Hmost' & Hleast').
  - unfold db.getSession. by rewrite Hsessions, lookup_insert_eq.
  - by rewrite Hcid.
  - by rewrite Hcid.
  - by apply dialogueInOrder_sessionAfter.
  - by apply completedInOrder_sessionAfter.
  - rewrite Hdone1, Hstep. intros Hcomplete.
    destruct (decide (currentStep session = complete)) as [Hlast|Hlast];
      [by rewrite Hdone|].
    destruct (stepIsOver session answer); [|done].
    apply (step_table _ Hlast) in Hcomplete. rewrite bool_decide_eq_true_2 by done.
    by rewrite orb_true_r.
  - rewrite Hcid in Hclient'. exists session', client'.
    split; [done|]. split; [done|]. split; [done|]. split; [done|]. split; [done|].
    split; [rewrite Hlen, Hresponses, length_app; cbn; lia|].
    split; [by intros Hlast; apply Hstay', Hstay|].
    split; [|cbn [length]; lia].
    destruct (decide (currentStep session = complete)) as [Hlast|Hlast].
    + left. by apply Hstay', Hstay.
    + destruct Hmost' as [?|Hmost']; [by left|]. right.
      specialize (Hmost Hlast). cbn [length]. lia.
Qed.

Lemma updateClient_other_stores (st : Database) (id : string)
    (updates : ClientProfile -> ClientProfile) (now : Z) :
  let st' := fst (db.updateClient st id updates now) in
  checklists st' = checklists st /\ appointments st' = appointments st /\
  reminders st' = reminders st.
Proof. cbv zeta. unfold db.updateClient. by destruct (clients st !! id). Qed.

Lemma updateSession_other_stores (st : Database) (id : string)
    (updates : IntakeSession -> IntakeSession) (now : Z) :
  let st' := fst (db.updateSession st id updates now) in
  checklists st' = checklists st /\ appointments st' = appointments st /\
  reminders st' = reminders st.
Proof. cbv zeta. unfold db.updateSession. by destruct (sessions st !! id). Qed.

Lemma processIntakeResponse_other_stores (st : Database) (sessionId answer : string) (now : Z) :
  let st' := fst (processIntakeResponse st sessionId answer now) in
  checklists st' = checklists st /\ appointments st' = appointments st /\
  reminders st' = reminders st /\
  forall k, is_Some (clients st' !! k) <-> is_Some (clients st !! k).
Proof.
  cbv zeta. unfold processIntakeResponse.
  destruct (db.getSession st sessionId) as [session|]; [|done].
  destruct (db.getClient st (ses_clientId session)) as [client|]; [|done].
  pose proof (updateClientFromResponse_store st client
                (currentStep (set_responses
                   (responses session ++
                      [ {| step := currentStep session; question := getCurrentQuestion session;
                           answer := answer; timestamp := now |} ]) session))
                answer now) as Hstore.
  destruct (updateClientFromResponse st client _ answer now) as [st1 client1].
  cbn [fst snd] in Hstore.
  destruct (updateClient_other_stores st (client_id client1) (fun _ => client1) now)
    as (Hc & Ha & Hr).
  pose proof (updateClient_dom st (client_id client1) (fun _ => client1) now) as Hdom.
  rewrite <- Hstore in Hc, Ha, Hr, Hdom. rewrite <- Hc, <- Ha, <- Hr.
  setoid_rewrite <- Hdom.
  unfold continueStep.
  repeat case_match; cbn [fst];
    repeat match goal with
           | |- context [db.updateSession ?s ?i ?u ?n] =>
               destruct (updateSession_other_stores s i u n) as (-> & -> & ->);
               rewrite (updateSession_clients s i u n)
           | |- context [db.updateClient ?s ?i ?u ?n] =>
               destruct (updateClient_other_stores s i u n) as (-> & -> & ->);
               setoid_rewrite (updateClient_dom s i u n)
           end; done.
Qed.

(** X18: with the session and its client on record, processIntakeResponse
    succeeds and writes the session back with the answer appended to its
    responses (under the step and the question that were current); the step
    either stays, or moves to the next entry of INTAKE_STEPS with the step
    just left appended to the completed steps, and it is over exactly when the
    answer count of the step reaches its number of questions or the answer is
    one that isStepComplete accepts; the session is marked completed exactly
    when the review step is left. Other sessions, the set of clients on record,
    checklists, appointments, reminders and staff are untouched. *)
Theorem processIntakeResponse_records (st : Database) (sessionId answer : string) (now : Z)
    (session : IntakeSession) (client : ClientProfile) :
  db.getSession st sessionId = Some session ->
  db.getClient st (ses_clientId session) = Some client ->
  let st' := fst (processIntakeResponse st sessionId answer now) in
  ir_success (snd (processIntakeResponse st sessionId answer now)) = true /\
  (exists session',
     db.getSession st' sessionId = Some session' /\
     responses session'
     = responses session ++
       [ {| step := currentStep session; question := getCurrentQuestion session;
            answer := answer; timestamp := now |} ] /\
     (if stepIsOver session answer
      then currentStep session' = nextStep (currentStep session) /\
           completedSteps session' = completedSteps session ++ [currentStep session]
      else currentStep session' = currentStep session /\
           completedSteps session' = completedSteps session) /\
     (ses_status session' = completed
      <-> ses_status session = completed
          \/ (stepIsOver session answer = true /\ currentStep session = review)) /\
     session_id session' = session_id session /\
     ses_clientId session' = ses_clientId session /\
     startedAt session' = startedAt session /\
     lastActivityAt session' = now) /\
  (forall other, other <> sessionId -> db.getSession st' other = db.getSession st other) /\
  (forall k, is_Some (db.getClient st' k) <-> is_Some (db.getClient st k)) /\
  checklists st' = checklists st /\ appointments st' = appointments st /\
  reminders st' = reminders st /\ taxPros st' = taxPros st.
Proof.
  intros Hsession Hclient st'. subst st'.
  destruct (processIntakeResponse_sessions st sessionId answer now session client Hsession Hclient)
    as [Hsessions Hsuccess].
  destruct (processIntakeResponse_other_stores st sessionId answer now)
    as (Hchecklists & Happointments & Hreminders & Hdom).
  destruct (sessionAfter_fields session answer now)
    as (Hresponses & Hstep & Hcompleted & Hstatus & Hsid & Hcid & Hstarted & Hlast).
  split; [done|]. split; [|split; [|split; [done|]]].
  - exists (sessionAfter session answer now). unfold db.getSession.
    rewrite Hsessions, lookup_insert_eq. split; [done|]. split; [done|].
    split; [by destruct (stepIsOver session answer)|].
    split; [|done].
    rewrite Hstatus. destruct (stepIsOver session answer); cbn [andb].
    + case_bool_decide as Hreview.
      * split; [|done]. intros _. by right.
      * split; [by left|]. by intros [?|[_ ?]].
    + split; [by left|]. by intros [?|[? _]].
  - intros other Hother. unfold db.getSession. by rewrite Hsessions, lookup_insert_ne.
  - by rewrite processIntakeResponse_taxPros.
Qed.

Lemma processIntakeResponse_records_witness :
  exists session',
    db.getSession (fst (processIntakeResponse freshIntakeDatabase "session-2" "Jane Doe" 6))
                  "session-2" = Some session' /\
    length (responses session') = 1%nat.
Proof.
  destruct (processIntakeResponse_records freshIntakeDatabase "session-2" "Jane Doe" 6
              (freshSession "session-2" "client-2" 5) cryptoWageEarner)
    as (_ & (session' & Hsession' & Hresponses & _) & _);
    [vm_compute; reflexivity..|].
  exists session'. split; [exact Hsession'|]. by rewrite Hresponses.
Defined.

(** X19: processIntakeResponse fails exactly when the session id is unknown
    or the client of the session is not on record; it then reports which of the
    two is missing, asks no question and leaves the store as it was: the answer
    is not recorded. *)
Theorem processIntakeResponse_failure (st : Database) (sessionId answer : string) (now : Z) :
  let result := snd (processIntakeResponse st sessionId answer now) in
  (ir_success result = false
   <-> db.getSession st sessionId = None
       \/ exists session, db.getSession st sessionId = Some session /\
                          db.getClient st (ses_clientId session) = None) /\
  (db.getSession st sessionId = None ->
     processIntakeResponse st sessionId answer now = (st, intakeFailure "Session not found")) /\
  (forall session,
     db.getSession st sessionId = Some session ->
     db.getClient st (ses_clientId session) = None ->
     processIntakeResponse st sessionId answer now = (st, intakeFailure "Client not found")).
Proof.
  cbv zeta. split; [|split].
  - destruct (db.getSession st sessionId) as [session|] eqn:Hsession.
    + destruct (db.getClient st (ses_clientId session)) as [client|] eqn:Hclient.
      * destruct (processIntakeResponse_sessions st sessionId answer now session client
                    Hsession Hclient) as [_ ->].
        split; [done|]. intros [?|(session' & [= <-] & Hnone)]; congruence.
      * unfold processIntakeResponse. rewrite Hsession, Hclient.
        split; [|done]. intros _. right. by exists session.
    + unfold processIntakeResponse. rewrite Hsession. split; [|done]. by left.
  - intros Hnone. unfold processIntakeResponse. by rewrite Hnone.
  - intros session Hsession Hnone. unfold processIntakeResponse. by rewrite Hsession, Hnone.
Qed.

Lemma processIntakeResponses_app (st : Database) (sessionId : string)
    (first rest : list (string * Z)) :
  processIntakeResponses st sessionId (first ++ rest)
  = processIntakeResponses (processIntakeResponses st sessionId first) sessionId rest.
Proof. unfold processIntakeResponses. apply fold_left_app. Qed.

(** Answers given at the last step: each one appends an entry [complete]. *)
Lemma processIntakeResponses_at_last_step (sessionId : string) (answers : list (string * Z)) :
  forall (st : Database) (session : IntakeSession),
    db.getSession st sessionId = Some session ->
    is_Some (db.getClient st (ses_clientId session)) ->
    currentStep session = complete ->
    exists session',
      db.getSession (processIntakeResponses st sessionId answers) sessionId = Some session' /\
      currentStep session' = complete /\
      completedSteps session'
      = completedSteps session ++ replicate (length answers) complete.
Proof.
  induction answers as [|[answer now] answers IH]; intros st session Hsession [client Hclient] Hlast.
  { exists session. cbn. by rewrite app_nil_r. }
  cbn [processIntakeResponses fold_left fst snd].
  change (fold_left _ answers ?s) with (processIntakeResponses s sessionId answers).
  destruct (processIntakeResponse_sessions st sessionId answer now session client Hsession Hclient)
    as [Hsessions _].
  destruct (processIntakeResponse_other_stores st sessionId answer now) as (_ & _ & _ & Hdom).
  destruct (sessionAfter_fields session answer now)
    as (_ & Hstep & Hcompleted & _ & _ & Hcid & _).
  rewrite stepIsOver_last in Hstep, Hcompleted by done. rewrite Hlast in Hstep, Hcompleted.
  destruct (IH (fst (processIntakeResponse st sessionId answer now))
               (sessionAfter session answer now))
    as (session' & Hsession' & Hlast' & Hcompleted').
  - unfold db.getSession. by rewrite Hsessions, lookup_insert_eq.
  - rewrite Hcid. unfold db.getClient in *. apply Hdom. by rewrite Hclient.
  - done.
  - exists session'. split; [done|]. split; [done|].
    rewrite Hcompleted', Hcompleted, <- app_assoc. done.
Qed.

(** The answer with which a session reaches the last step. *)
Lemma processIntakeResponses_reaches (sessionId : string) (answers : list (string * Z)) :
  forall (st : Database) (session : IntakeSession) (client : ClientProfile),
    db.getSession st sessionId = Some session ->
    db.getClient st (ses_clientId session) = Some client ->
    dialogueInOrder session ->
    completedSteps session = take (stepIndex (currentStep session)) INTAKE_STEPS ->
    currentStep session <> complete ->
    forall session',
      db.getSession (processIntakeResponses st sessionId answers) sessionId = Some session' ->
      currentStep session' = complete ->
      exists used,
        (1 <= used <= length answers)%nat /\
        (forall j earlier,
           (j < used)%nat ->
           db.getSession (processIntakeResponses st sessionId (take j answers)) sessionId
           = Some earlier ->
           currentStep earlier <> complete) /\
        (exists reached,
           db.getSession (processIntakeResponses st sessionId (take used answers)) sessionId
           = Some reached /\
           currentStep reached = complete /\
           completedSteps reached = take (stepIndex complete) INTAKE_STEPS) /\
        completedSteps session'
        = take (stepIndex complete) INTAKE_STEPS
          ++ replicate (length answers - used) complete.
Proof.
  induction answers as [|[answer now] answers IH];
    intros st session client Hsession Hclient Hin Hcompleted Hnot session' Hsession' Hlast'.
  { cbn in Hsession'. congruence. }
  cbn [processIntakeResponses fold_left fst snd] in Hsession'.
  change (fold_left _ answers ?s) with (processIntakeResponses s sessionId answers) in Hsession'.
  destruct (processIntakeResponse_sessions st sessionId answer now session client Hsession Hclient)
    as [Hsessions _].
  destruct (processIntakeResponse_other_stores st sessionId answer now) as (_ & _ & _ & Hdom).
  destruct (sessionAfter_fields session answer now)
    as (_ & Hstep & Hcompleted1 & _ & _ & Hcid & _).
  pose proof (dialogueInOrder_sessionAfter session answer now Hin) as Hin1.
  assert (db.getSession (fst (processIntakeResponse st sessionId answer now)) sessionId
          = Some (sessionAfter session answer now)) as Hsession1
    by (unfold db.getSession; by rewrite Hsessions, lookup_insert_eq).
  assert (is_Some (db.getClient (fst (processIntakeResponse st sessionId answer now))
                     (ses_clientId (sessionAfter session answer now)))) as Hclient1
    by (rewrite Hcid; unfold db.getClient in *; apply Hdom; by rewrite Hclient).
  assert (completedSteps (sessionAfter session answer now)
          = take (stepIndex (currentStep (sessionAfter session answer now))) INTAKE_STEPS)
    as Hcompleted1'.
  { rewrite Hcompleted1, Hstep. destruct (stepIsOver session answer); [|done].
    destruct (step_table _ Hnot) as (_ & _ & _ & -> & _). by rewrite Hcompleted. }
  assert (forall earlier,
            db.getSession (processIntakeResponses st sessionId (take 0 ((answer, now) :: answers)))
                          sessionId = Some earlier ->
            currentStep earlier <> complete) as Hstart.
  { intros earlier. cbn. rewrite Hsession. by intros [= <-]. }
  destruct (decide (currentStep (sessionAfter session answer now) = complete)) as [Hlast1|Hnot1].
  - destruct (processIntakeResponses_at_last_step sessionId answers _ _ Hsession1 Hclient1 Hlast1)
      as (final & Hfinal & _ & Hcompletedf).
    rewrite Hsession' in Hfinal. injection Hfinal as <-.
    exists 1%nat. split; [cbn [length]; lia|]. split; [|split].
    + intros j earlier Hj. replace j with 0%nat by lia. apply Hstart.
    + exists (sessionAfter session answer now). split; [done|]. split; [done|].
      by rewrite Hcompleted1', Hlast1.
    + rewrite Hcompletedf, Hcompleted1', Hlast1. cbn [length]. do 2 f_equal. lia.
  - destruct Hclient1 as [client1 Hclient1].
    destruct (IH _ _ client1 Hsession1 Hclient1 Hin1 Hcompleted1' Hnot1 session' Hsession' Hlast')
      as (used & Hused & Hbefore & Hreached & Hcompletedf).
    exists (S used). split; [cbn [length]; lia|]. split; [|split].
    + intros [|j] earlier Hj; [apply Hstart|].
      cbn [take processIntakeResponses fold_left fst snd].
      change (fold_left _ (take j answers) ?s)
        with (processIntakeResponses s sessionId (take j answers)).
      apply Hbefore. lia.
    + exact Hreached.
    + by rewrite Hcompletedf.
Qed.

(** X20: a session as startIntakeSession creates it, for a client on record
    under its own id, reaches the last step after 23 answers at the latest,
    whatever the answers are, and never with fewer than 19. When it has
    reached it, the session is marked completed and the client's intake is
    marked completed; the answer that reached it is one of the 19th to 23rd,
    the completed steps were then the nine steps before the last in order, and
    they are now those nine followed by exactly one entry complete for each
    answer given after that one. Before the last step is reached, the completed
    steps are exactly the steps before the current one. *)
Theorem intake_completes (st : Database) (sessionId : string) (session : IntakeSession)
    (client : ClientProfile) (answers : list (string * Z)) :
  db.getSession st sessionId = Some session ->
  currentStep session = personal_info ->
  responses session = [] -> completedSteps session = [] ->
  db.getClient st (ses_clientId session) = Some client ->
  client_id client = ses_clientId session ->
  let st' := processIntakeResponses st sessionId answers in
  exists session' client',
    db.getSession st' sessionId = Some session' /\
    db.getClient st' (ses_clientId session) = Some client' /\
    length (responses session') = length answers /\
    ((23 <= length answers)%nat -> currentStep session' = complete) /\
    (currentStep session' = complete ->
       (19 <= length answers)%nat /\
       ses_status session' = completed /\
       intakeCompleted client' = true /\
       exists used,
         (19 <= used <= 23)%nat /\ (used <= length answers)%nat /\
         (forall j earlier,
            (j < used)%nat ->
            db.getSession (processIntakeResponses st sessionId (take j answers)) sessionId
            = Some earlier ->
            currentStep earlier <> complete) /\
         (exists reached,
            db.getSession (processIntakeResponses st sessionId (take used answers)) sessionId
            = Some reached /\
            currentStep reached = complete /\
            completedSteps reached
            = [ personal_info; filing_status; dependents_step; employment; income_types;
                deductions_step; special_situations; document_upload; review ]) /\
         completedSteps session'
         = [ personal_info; filing_status; dependents_step; employment; income_types;
             deductions_step; special_situations; document_upload; review ]
           ++ replicate (length answers - used) complete) /\
    (currentStep session' <> complete ->
       completedSteps session' = take (stepIndex (currentStep session')) INTAKE_STEPS).
Proof.
  intros Hsession Hstep Hresponses Hcompleted Hclient Hid st'. subst st'.
  assert (dialogueInOrder session) as Hin.
  { unfold dialogueInOrder, answered. rewrite Hresponses, Hstep.
    split; [constructor|]. split; [intros _; vm_compute; lia|done]. }
  assert (completedInOrder session) as Hordered
    by (exists 0%nat; rewrite Hcompleted, Hstep; by split).
  assert (currentStep session = complete -> intakeCompleted client = true) as Hdone
    by (by rewrite Hstep).
  assert (answersLeftAtMost session = 23)%nat as Hmost0
    by (unfold answersLeftAtMost, answered; rewrite Hresponses, Hstep; vm_compute; done).
  assert (answersLeftAtLeast session = 19)%nat as Hleast0
    by (unfold answersLeftAtLeast, answered; rewrite Hresponses, Hstep; vm_compute; done).
  assert (forall run session',
            db.getSession (processIntakeResponses st sessionId run) sessionId = Some session' ->
            (currentStep session' = complete -> (19 <= length run)%nat) /\
            (currentStep session' <> complete -> (length run < 23)%nat)) as Hbounds.
  { intros run final Hfinal.
    destruct (processIntakeResponses_run sessionId run st session client Hsession Hclient Hid
                Hin Hordered Hdone)
      as (final' & _ & Hfinal' & _ & Hin' & _ & _ & _ & _ & Hmost & Hleast).
    rewrite Hfinal in Hfinal'. injection Hfinal' as <-.
    rewrite Hmost0 in Hmost. rewrite Hleast0 in Hleast. split.
    - intros Hcomplete. unfold answersLeftAtLeast in Hleast. rewrite Hcomplete in Hleast.
      change (fewestAnswersFrom complete) with 0%nat in Hleast. lia.
    - intros Hnot. destruct Hmost as [?|Hmost]; [done|].
      destruct Hin' as (_ & Hfew & _). specialize (Hfew Hnot).
      destruct (step_table _ Hnot) as (_ & HQ & _).
      unfold answersLeftAtMost in Hmost. lia. }
  destruct (processIntakeResponses_run sessionId answers st session client Hsession Hclient Hid
              Hin Hordered Hdone)
    as (session' & client' & Hsession' & Hclient' & Hin' & (extra & Hcompleted' & Hextra)
         & Hdone' & Hlen & _).
  exists session', client'. split; [done|]. split; [done|].
  split; [by rewrite Hlen, Hresponses|].
  destruct (Hbounds answers session' Hsession') as [Hlower Hupper].
  split; [|split].
  - intros Hlong. destruct (decide (currentStep session' = complete)) as [?|Hnot]; [done|].
    specialize (Hupper Hnot). lia.
  - intros Hcomplete. split; [by apply Hlower|]. split; [by apply Hin'|].
    split; [by apply Hdone'|].
    destruct (processIntakeResponses_reaches sessionId answers st session client Hsession Hclient
                Hin) with (session' := session')
      as (used & Hused & Hbefore & (reached & Hreached & Hlast & Hnine) & Hfinal);
      [by rewrite Hcompleted, Hstep|by rewrite Hstep|done|done|].
    destruct step_last as (_ & _ & _ & _ & Hnine').
    exists used. split; [|split; [lia|split; [exact Hbefore|split]]].
    + split.
      { destruct (Hbounds (take used answers) reached Hreached) as [Hfrom _].
        specialize (Hfrom Hlast). rewrite length_take in Hfrom. lia. }
      destruct used as [|used]; [lia|].
      destruct (processIntakeResponses_run sessionId (take used answers) st session client
                  Hsession Hclient Hid Hin Hordered Hdone)
        as (earlier & _ & Hearlier & _).
      pose proof (Hbefore used earlier ltac:(lia) Hearlier) as Hnot.
      destruct (Hbounds (take used answers) earlier Hearlier) as [_ Hshort].
      specialize (Hshort Hnot). rewrite length_take in Hshort. lia.
    + exists reached. by rewrite <- Hnine'.
    + by rewrite Hfinal, Hnine'.
  - intros Hnot. rewrite Hcompleted', (Hextra Hnot). cbn [replicate]. by rewrite app_nil_r.
Qed.

Lemma intake_completes_witness :
  exists session',
    db.getSession (processIntakeResponses freshIntakeDatabase "session-2"
                     (replicate 23 ("yes", 6))) "session-2" = Some session' /\
    currentStep session' = complete.
Proof.
  destruct (intake_completes freshIntakeDatabase "session-2"
              (freshSession "session-2" "client-2" 5) cryptoWageEarner
              (replicate 23 ("yes", 6)))
    as (session' & client' & Hsession' & _ & _ & Hlong & _);
    [vm_compute; reflexivity..|].
  exists session'. split; [exact Hsession'|]. apply Hlong. vm_compute. lia.
Defined.

(** ** Intake: progress *)

Lemma Math_round_tenths (n : nat) :
  Math_round (inject_Z (Z.of_nat n) / inject_Z (Z.of_nat 10) * 100) = 10 * Z.of_nat n.
Proof.
  unfold Math_round.
  assert (inject_Z (Z.of_nat n) / inject_Z (Z.of_nat 10) * 100 + (1 # 2)
          == inject_Z (10 * Z.of_nat n) + (1 # 2))%Q as ->.
  { rewrite inject_Z_mult. change (inject_Z (Z.of_nat 10)) with (10 # 1)%Q.
    change (inject_Z 10) with (10 # 1)%Q. field. }
  apply Z.le_antisymm.
  - apply Z.lt_succ_r. rewrite Zlt_Qlt.
    eapply Qle_lt_trans; [apply Qfloor_le|].
    rewrite <- Z.add_1_r, inject_Z_plus. change (inject_Z 1) with 1%Q. lra.
  - rewrite <- (Qfloor_Z (10 * Z.of_nat n)) at 1. apply Qfloor_resp_le. lra.
Qed.

Lemma getIntakeProgress_found (st : Database) (sessionId : string) (session : IntakeSession) :
  db.getSession st sessionId = Some session ->
  exists progress,
    getIntakeProgress st sessionId = Some progress /\
    ip_currentStep progress = currentStep session /\
    ip_completedSteps progress = completedSteps session /\
    totalSteps progress = 10%nat /\
    percentComplete progress = 10 * Z.of_nat (length (completedSteps session)) /\
    remainingSteps progress = drop (S (stepIndex (currentStep session))) INTAKE_STEPS.
Proof.
  intros Hsession. unfold getIntakeProgress. rewrite Hsession. eexists.
  split; [reflexivity|]. cbn [ip_currentStep ip_completedSteps totalSteps percentComplete
                              remainingSteps].
  split; [done|]. split; [done|]. split; [done|]. split.
  - apply Math_round_tenths.
  - f_equal. unfold stepIndex. by destruct (currentStep session).
Qed.

(** X21: getIntakeProgress answers exactly for the sessions on record. It
    reports ten steps in total and ten percent per entry of the completed
    steps, without an upper limit; the remaining steps are the entries of
    INTAKE_STEPS after the current step, so that the steps before the current
    one, the current one and the remaining ones make up INTAKE_STEPS. *)
Theorem getIntakeProgress_report (st : Database) (sessionId : string) :
  (getIntakeProgress st sessionId = None <-> db.getSession st sessionId = None) /\
  forall session,
    db.getSession st sessionId = Some session ->
    exists progress,
      getIntakeProgress st sessionId = Some progress /\
      ip_currentStep progress = currentStep session /\
      ip_completedSteps progress = completedSteps session /\
      totalSteps progress = 10%nat /\
      percentComplete progress = 10 * Z.of_nat (length (completedSteps session)) /\
      take (stepIndex (currentStep session)) INTAKE_STEPS
      ++ currentStep session :: remainingSteps progress = INTAKE_STEPS /\
      (remainingSteps progress = [] <-> currentStep session = complete).
Proof.
  split.
  - unfold getIntakeProgress. by destruct (db.getSession st sessionId).
  - intros session Hsession.
    destruct (getIntakeProgress_found st sessionId session Hsession)
      as (progress & Hget & Hstep & Hcompleted & Htotal & Hpercent & Hremaining).
    exists progress. do 5 (split; [done|]). rewrite Hremaining.
    destruct (currentStep session); vm_compute; by repeat split.
Qed.

(** X22: a session that has reached the last step still takes answers: with
    its client on record, processIntakeResponse succeeds, asks for more
    details, keeps the step and appends one more entry to the completed steps,
    so that the reported percentage grows by ten with every such answer and is
    not bounded by 100. *)
Theorem answers_after_completion (st : Database) (sessionId answer : string) (now : Z)
    (session : IntakeSession) (client : ClientProfile) :
  db.getSession st sessionId = Some session ->
  db.getClient st (ses_clientId session) = Some client ->
  currentStep session = complete ->
  let st' := fst (processIntakeResponse st sessionId answer now) in
  let result := snd (processIntakeResponse st sessionId answer now) in
  ir_success result = true /\
  nextQuestion result = Some "Please provide more details." /\
  ir_currentStep result = Some complete /\
  exists progress progress',
    getIntakeProgress st sessionId = Some progress /\
    getIntakeProgress st' sessionId = Some progress' /\
    ip_currentStep progress' = complete /\
    ip_completedSteps progress' = ip_completedSteps progress ++ [complete] /\
    percentComplete progress' = percentComplete progress + 10.
Proof.
  intros Hsession Hclient Hcur st' result. subst st' result.
  destruct (processIntakeResponse_sessions st sessionId answer now session client Hsession Hclient)
    as [Hsessions Hsuccess].
  destruct (sessionAfter_fields session answer now) as (_ & Hstep & Hcompleted & _).
  rewrite stepIsOver_last in Hstep, Hcompleted by done. rewrite Hcur in Hstep, Hcompleted.
  split; [done|].
  assert (nextQuestion (snd (processIntakeResponse st sessionId answer now))
          = Some "Please provide more details." /\
          ir_currentStep (snd (processIntakeResponse st sessionId answer now)) = Some complete)
    as [Hquestion Hresult].
  { unfold processIntakeResponse. rewrite Hsession, Hclient.
    destruct (updateClientFromResponse st client _ answer now) as [st1 client1].
    unfold continueStep.
    cbn [currentStep responses completedSteps set_responses set_completedSteps].
    rewrite Hcur. cbn [INTAKE_QUESTIONS length Nat.leb orb].
    change (indexOf INTAKE_STEPS complete <? Z.of_nat (length INTAKE_STEPS) - 1) with false.
    cbv iota. by destruct (length _). }
  split; [done|]. split; [done|].
  destruct (getIntakeProgress_found st sessionId session Hsession)
    as (progress & Hget & _ & Hsteps & _ & Hpercent & _).
  destruct (getIntakeProgress_found (fst (processIntakeResponse st sessionId answer now))
              sessionId (sessionAfter session answer now))
    as (progress' & Hget' & Hstep' & Hsteps' & _ & Hpercent' & _).
  { unfold db.getSession. by rewrite Hsessions, lookup_insert_eq. }
  exists progress, progress'. split; [done|]. split; [done|].
  split; [by rewrite Hstep', Hstep|]. split; [by rewrite Hsteps', Hsteps, Hcompleted|].
  rewrite Hpercent', Hpercent, Hcompleted, length_app. cbn [length]. lia.
Qed.

Lemma answers_after_completion_witness :
  exists progress,
    getIntakeProgress
      (fst (processIntakeResponse
              (processIntakeResponses freshIntakeDatabase "session-2" (replicate 20 ("none", 6)))
              "session-2" "none" 6))
      "session-2" = Some progress /\
    percentComplete progress = 110.
Proof.
  destruct (answers_after_completion
              (processIntakeResponses freshIntakeDatabase "session-2" (replicate 20 ("none", 6)))
              "session-2" "none" 6
              (default (freshSession "" "" 0)
                 (db.getSession
                    (processIntakeResponses freshIntakeDatabase "session-2"
                       (replicate 20 ("none", 6))) "session-2"))
              (default cryptoWageEarner
                 (db.getClient
                    (processIntakeResponses freshIntakeDatabase "session-2"
                       (replicate 20 ("none", 6))) "client-2")))
    as (_ & _ & _ & progress & progress' & Hget & Hget' & _ & _ & Hpercent);
    [vm_compute; reflexivity..|].
  exists progress'. split.
  - exact Hget'.
  - rewrite Hpercent. revert Hget. vm_compute. by intros [= <-].
Defined.

(** ** Reminders *)

(** X23: sendReminder succeeds exactly when the reminder is on record, not
    yet sent, and its client is on record. A failed call leaves the store as
    it was. A successful call marks the reminder sent at the time of the call
    and touches nothing else, so that every later call for the same reminder
    fails with the message Reminder already sent and changes nothing: a
    reminder is sent at most once. *)
Theorem sendReminder_at_most_once (st : Database) (reminderId : string) (now now' : Z) :
  let st' := fst (sendReminder st reminderId now) in
  let result := snd (sendReminder st reminderId now) in
  (success result = true
   <-> exists reminder client,
         db.getReminder st reminderId = Some reminder /\ sent reminder = false /\
         db.getClient st (rem_clientId reminder) = Some client) /\
  (success result = false -> st' = st) /\
  (success result = true ->
     (exists reminder,
        db.getReminder st reminderId = Some reminder /\
        reminders st'
        = <[reminderId := set_sentAt (Some now) (set_sent true reminder)]> (reminders st)) /\
     clients st' = clients st /\ checklists st' = checklists st /\
     appointments st' = appointments st /\ taxPros st' = taxPros st /\
     sessions st' = sessions st /\
     sendReminder st' reminderId now'
     = (st', {| success := false; op_message := "Reminder already sent" |})).
Proof.
  cbv zeta. unfold sendReminder.
  destruct (db.getReminder st reminderId) as [reminder|] eqn:Hreminder.
  2:{ cbn. split; [|done]. split; [done|]. by intros (? & ? & ? & _). }
  destruct (sent reminder) eqn:Hsent.
  { cbn. split; [|done]. split; [done|]. intros (? & ? & [= <-] & ? & _). congruence. }
  destruct (db.getClient st (rem_clientId reminder)) as [client|] eqn:Hclient.
  2:{ cbn. split; [|done]. split; [done|]. intros (? & ? & [= <-] & _ & ?). congruence. }
  cbn [fst snd success]. split; [|split; [done|]].
  - split; [|done]. intros _. by exists reminder, client.
  - intros _. unfold db.getReminder in *. unfold db.markReminderSent. rewrite Hreminder.
    cbn [fst reminders set_reminders clients checklists appointments taxPros sessions].
    split; [by exists reminder|]. do 5 (split; [done|]).
    by rewrite lookup_insert_eq.
Qed.

Lemma sendReminder_at_most_once_witness :
  success (snd (sendReminder (fst (sendReminder reminderDatabase "reminder-8-r1" 200))
                             "reminder-8-r1" 300)) = false.
Proof.
  destruct (sendReminder_at_most_once reminderDatabase "reminder-8-r1" 200 300)
    as (_ & _ & Hsent).
  destruct Hsent as (_ & _ & _ & _ & _ & _ & ->); [vm_compute; reflexivity|].
  reflexivity.
Defined.

(** X24: createBatchDocumentReminder returns nothing, and leaves the store
    as it was, exactly when the client is not on record or has no pending
    document. Otherwise it stores one unsent e-mail reminder of type
    document_reminder, due 48 hours after the call, whose document ids are the
    ids of the pending documents in checklist order; the appointment id is
    stored as given, without being looked up. Nothing else in the store
    changes, and the new reminder can then be sent. *)
Theorem createBatchDocumentReminder_stored (st : Database) (clientId appointmentId : string)
    (now now' : Z) (e : Entropy) :
  let st' := fst (createBatchDocumentReminder st clientId appointmentId now e) in
  let result := snd (createBatchDocumentReminder st clientId appointmentId now e) in
  (result = None
   <-> db.getClient st clientId = None \/ getPendingDocuments st clientId = []) /\
  (result = None -> st' = st) /\
  (forall reminder,
     result = Some reminder ->
     reminder_id reminder = generateReminderId e /\
     rem_clientId reminder = clientId /\
     rem_appointmentId reminder = appointmentId /\
     rem_type reminder = document_reminder /\
     scheduledFor reminder = now + 172800000 /\
     sent reminder = false /\ sentAt reminder = None /\
     channel reminder = ch_email /\
     documentIds reminder = Some (doc_id <$> getPendingDocuments st clientId) /\
     reminders st' = <[reminder_id reminder := reminder]> (reminders st) /\
     clients st' = clients st /\ checklists st' = checklists st /\
     appointments st' = appointments st /\ taxPros st' = taxPros st /\
     sessions st' = sessions st /\
     success (snd (sendReminder st' (reminder_id reminder) now')) = true).
Proof.
  cbv zeta. unfold createBatchDocumentReminder.
  destruct (db.getClient st clientId) as [client|] eqn:Hclient.
  2:{ cbn. split; [|done]. split; [by left|done]. }
  destruct (getPendingDocuments st clientId) as [|doc docs] eqn:Hpending.
  { cbn. split; [|done]. split; [by right|done]. }
  cbn [length Nat.eqb fst snd]. split; [|split; [done|]].
  { split; [done|]. by intros [?|?]. }
  intros reminder [= <-].
  cbn [reminder_id rem_clientId rem_appointmentId rem_type scheduledFor sent sentAt channel
       documentIds].
  do 4 (split; [done|]). split; [f_equal; lia|]. do 10 (split; [done|]).
  unfold sendReminder, db.getReminder, db.createReminder.
  cbn [fst reminders set_reminders reminder_id]. rewrite lookup_insert_eq.
  cbn [sent rem_clientId]. unfold db.getClient in *. cbn [clients set_reminders].
  by rewrite Hclient.
Qed.

Lemma createBatchDocumentReminder_stored_witness :
  exists reminder,
    db.getReminder reminderDatabase "reminder-8-r1" = Some reminder /\
    documentIds reminder = Some (doc_id <$> getPendingDocuments checklistDatabase "client-2").
Proof.
  destruct (createBatchDocumentReminder_stored checklistDatabase "client-2" "apt-1" 100 200
              (8, "r1")) as (_ & _ & Hstored).
  destruct (snd (createBatchDocumentReminder checklistDatabase "client-2" "apt-1" 100 (8, "r1")))
    as [reminder|] eqn:Hresult; [|by vm_compute in Hresult].
  destruct (Hstored reminder eq_refl)
    as (Hid & _ & _ & _ & _ & _ & _ & _ & Hdocs & Hreminders & _).
  exists reminder. split; [|exact Hdocs].
  unfold reminderDatabase, db.getReminder. rewrite Hreminders, Hid.
  apply lookup_insert_eq.
Defined.

Lemma fold_createDocumentReminder (client : ClientProfile) (clientId appointmentId : string)
    (now : Z) (entropy : nat -> Entropy) (documents : list DocumentItem) :
  forall (st : Database) (before : list Reminder),
    let step := fun (acc : Database * list Reminder) doc =>
      let '(st, reminders) := acc in
      let reminder :=
        {| reminder_id := generateReminderId (entropy (length reminders));
           rem_clientId := clientId;
           rem_appointmentId := appointmentId;
           rem_type := document_reminder;
           message := generatePersonalizedMessage client doc;
           scheduledFor := now + 24 * 60 * 60 * 1000;
           sent := false;
           sentAt := None;
           channel := ch_email;
           documentIds := Some [doc_id doc] |} in
      (fst (db.createReminder st reminder), reminders ++ [reminder]) in
    exists created,
      snd (fold_left step documents (st, before)) = before ++ created /\
      Forall2 (fun doc reminder =>
                 reminder
                 = {| reminder_id := reminder_id reminder;
                      rem_clientId := clientId;
                      rem_appointmentId := appointmentId;
                      rem_type := document_reminder;
                      message := generatePersonalizedMessage client doc;
                      scheduledFor := now + 86400000;
                      sent := false;
                      sentAt := None;
                      channel := ch_email;
                      documentIds := Some [doc_id doc] |})
              documents created /\
      reminder_id <$> created
      = (fun n => generateReminderId (entropy n)) <$> seq (length before) (length documents) /\
      reminders (fst (fold_left step documents (st, before)))
      = foldl (fun m reminder => <[reminder_id reminder := reminder]> m) (reminders st) created /\
      clients (fst (fold_left step documents (st, before))) = clients st /\
      checklists (fst (fold_left step documents (st, before))) = checklists st /\
      appointments (fst (fold_left step documents (st, before))) = appointments st /\
      taxPros (fst (fold_left step documents (st, before))) = taxPros st /\
      sessions (fst (fold_left step documents (st, before))) = sessions st.
Proof.
  cbv zeta. induction documents as [|doc documents IH]; intros st before.
  { exists []. cbn. rewrite app_nil_r. by repeat split. }
  cbn [fold_left].
  match goal with
  | |- context [fold_left _ documents (?s, ?b)] => destruct (IH s b)
      as (created & Hsnd & Hall & Hids & Hreminders & Hc & Hl & Ha & Ht & Hs)
  end.
  eexists (_ :: created). rewrite Hsnd, <- app_assoc. split; [reflexivity|].
  split; [constructor; [|exact Hall]; cbn; f_equal; lia|].
  split.
  { rewrite fmap_cons. cbn [reminder_id length seq]. rewrite fmap_cons. f_equal.
    rewrite Hids, length_app. cbn [length]. by rewrite Nat.add_1_r. }
  by rewrite Hreminders, Hc, Hl, Ha, Ht, Hs.
Qed.

(** X25: createDocumentReminder throws exactly when the client is not on
    record. Otherwise it returns one reminder per given document, in order:
    an unsent e-mail reminder of type document_reminder for that single
    document, due 24 hours after the call, with the personalized message of
    the document and the next generated id. The reminders are written to the
    store in that order, a later one replacing an earlier one with the same
    id, and nothing else in the store changes. *)
Theorem createDocumentReminder_each (st : Database) (clientId appointmentId : string)
    (documents : list DocumentItem) (now : Z) (entropy : nat -> Entropy) :
  (createDocumentReminder st clientId appointmentId documents now entropy
   = Thrown "Client not found" <-> db.getClient st clientId = None) /\
  forall client,
    db.getClient st clientId = Some client ->
    exists st' created,
      createDocumentReminder st clientId appointmentId documents now entropy
      = Returned (st', created) /\
      Forall2 (fun doc reminder =>
                 reminder
                 = {| reminder_id := reminder_id reminder;
                      rem_clientId := clientId;
                      rem_appointmentId := appointmentId;
                      rem_type := document_reminder;
                      message := generatePersonalizedMessage client doc;
                      scheduledFor := now + 86400000;
                      sent := false;
                      sentAt := None;
                      channel := ch_email;
                      documentIds := Some [doc_id doc] |})
              documents created /\
      reminder_id <$> created
      = (fun n => generateReminderId (entropy n)) <$> seq 0 (length documents) /\
      reminders st'
      = foldl (fun m reminder => <[reminder_id reminder := reminder]> m) (reminders st) created /\
      (NoDup (reminder_id <$> created) ->
         forall reminder, reminder ∈ created ->
           db.getReminder st' (reminder_id reminder) = Some reminder) /\
      clients st' = clients st /\ checklists st' = checklists st /\
      appointments st' = appointments st /\ taxPros st' = taxPros st /\
      sessions st' = sessions st.
Proof.
  unfold createDocumentReminder. split.
  { by destruct (db.getClient st clientId). }
  intros client ->.
  destruct (fold_createDocumentReminder client clientId appointmentId now entropy documents st [])
    as (created & Hsnd & Hall & Hids & Hreminders & Hrest).
  cbn [app length] in Hsnd, Hids.
  match type of Hsnd with snd ?r = _ => destruct r as [st' created'] eqn:Hrun end.
  cbn [fst snd] in *. subst created'.
  exists st', created. split; [done|]. split; [done|]. split; [done|]. split; [done|].
  split; [|done].
  unfold db.getReminder. rewrite Hreminders. clear.
  generalize (reminders st). induction created as [|r created IH]; intros m Hnd reminder Hin.
  { by apply elem_of_nil in Hin. }
  rewrite fmap_cons in Hnd. apply NoDup_cons in Hnd as [Hr Hnd]. cbn [foldl].
  apply elem_of_cons in Hin as [->|Hin]; [|by apply IH].
  clear IH Hnd. revert m. induction created as [|r' created IH]; intros m.
  { cbn. apply lookup_insert_eq. }
  cbn [foldl]. rewrite fmap_cons in Hr. apply not_elem_of_cons in Hr as [Hne Hr].
  rewrite insert_insert_ne by done. by apply IH.
Qed.

Lemma createDocumentReminder_each_witness :
  exists st' created,
    createDocumentReminder checklistDatabase "client-2" "apt-1"
      (getPendingDocuments checklistDatabase "client-2") 100 sampleEntropy
    = Returned (st', created) /\
    length created = 4%nat.
Proof.
  destruct (createDocumentReminder_each checklistDatabase "client-2" "apt-1"
              (getPendingDocuments checklistDatabase "client-2") 100 sampleEntropy)
    as [_ Hcreated].
  destruct (Hcreated (default cryptoWageEarner (db.getClient checklistDatabase "client-2")))
    as (st' & created & Hrun & Hall & _); [vm_compute; reflexivity|].
  exists st', created. split; [exact Hrun|].
  apply Forall2_length in Hall. rewrite <- Hall. vm_compute. reflexivity.
Defined.

Lemma generatePersonalizedMessage_table (client : ClientProfile) :
  Forall (fun entry : string * DocumentTemplate =>
            forall doc,
              doc_name doc = t_name (snd entry) -> source doc = t_source (snd entry) ->
              generatePersonalizedMessage client doc
              = if includes ["gig_uber"; "gig_lyft"; "gig_doordash"] (fst entry)
                then scriptedMessage client (fst entry)
                else defaultMessage client doc)
         DOCUMENT_TEMPLATES.
Proof.
  unfold DOCUMENT_TEMPLATES.
  repeat (apply Forall_cons; split;
          [intros doc Hname Hsource; cbn [fst snd t_name t_source] in Hname, Hsource;
           unfold generatePersonalizedMessage, defaultMessage, scriptedMessage;
           rewrite Hname, Hsource; reflexivity|]).
  constructor.
Qed.

(** X26: for a document that carries the name and the source of a template,
    generatePersonalizedMessage uses a scripted message only for the Uber, Lyft
    and DoorDash forms, whose source names the platform; for every other
    template it falls back to the default message, the scripted messages for
    the mileage log, cryptocurrency records, 1099-NEC forms and foreign account
    statements included. No document of a generated checklist comes from those
    three templates, so that such documents always get the default message. *)
Theorem generatePersonalizedMessage_templates (client : ClientProfile) (key : string)
    (template : DocumentTemplate) (doc : DocumentItem) :
  Object_get DOCUMENT_TEMPLATES key = Some template ->
  doc_name doc = t_name template -> source doc = t_source template ->
  generatePersonalizedMessage client doc
  = (if includes ["gig_uber"; "gig_lyft"; "gig_doordash"] key
     then scriptedMessage client key
     else defaultMessage client doc) /\
  forall owner,
    key ∈ documentSetOf owner ->
    generatePersonalizedMessage client doc = defaultMessage client doc.
Proof.
  intros Hget%Object_get_elem Hname Hsource.
  pose proof (generatePersonalizedMessage_table client) as Htable.
  rewrite Forall_forall in Htable.
  specialize (Htable (key, template) Hget doc Hname Hsource). cbn [fst snd] in Htable.
  split; [done|]. intros owner Hkey.
  apply documentSetOf_has_template in Hkey as [_ Hnot].
  rewrite Htable, includes_false; [done|]. intros Hin. apply Hnot. by right.
Qed.

Lemma generatePersonalizedMessage_templates_witness :
  generatePersonalizedMessage cryptoWageEarner sampleDocument
  = defaultMessage cryptoWageEarner sampleDocument.
Proof.
  destruct (generatePersonalizedMessage_templates cryptoWageEarner "id_primary"
              (default {| t_name := ""; t_description := ""; t_category := cat_other;
                          t_required := false; t_source := None |}
                       (Object_get DOCUMENT_TEMPLATES "id_primary"))
              sampleDocument) as [_ Hdefault]; [vm_compute; reflexivity..|].
  apply (Hdefault cryptoWageEarner).
  apply (bool_decide_unpack _). vm_compute. reflexivity.
Defined.

(** ** Intake: what an answer does to the client *)

Lemma elem_of_mergeUnique {A} `{EqDecision A} (old added : list A) (x : A) :
  x ∈ mergeUnique old added <-> x ∈ old \/ x ∈ added.
Proof.
  unfold mergeUnique. rewrite elem_of_fold_Set_add, elem_of_app, elem_of_nil. tauto.
Qed.

Lemma NoDup_mergeUnique {A} `{EqDecision A} (old added : list A) :
  NoDup (mergeUnique old added).
Proof. unfold mergeUnique. apply NoDup_fold_Set_add. constructor. Qed.

Lemma pushIf_unless_included {A} `{EqDecision A} (l : list A) (x : A) :
  l ⊆ pushIf (negb (includes l x)) x l /\
  x ∈ pushIf (negb (includes l x)) x l /\
  (NoDup l -> NoDup (pushIf (negb (includes l x)) x l)).
Proof.
  unfold pushIf. destruct (includes l x) eqn:Hx; cbn [negb].
  - apply includes_true in Hx. done.
  - split; [|split].
    + intros y Hy. apply elem_of_app. by left.
    + apply elem_of_app. right. by left.
    + intros Hnd. apply NoDup_app. split; [done|]. split; [|apply NoDup_singleton].
      intros y Hy ->%list_elem_of_singleton. apply includes_true in Hy. congruence.
Qed.

(** X27: an intake answer only adds to what is known about the client's
    income and deductions: every income type and deduction recorded before is
    still recorded afterwards, a situation flag that is set stays set, and
    lists without duplicates stay without duplicates. The answer never changes
    the client's id, dependents, employment records, health insurance flag,
    documents, complexity score, assignment, appointment or intake status, at
    whatever step it is given; the dependents step and the employment step in
    particular record no dependent and no employer. *)
Theorem updateClientFromResponse_accumulates (st : Database) (client : ClientProfile)
    (step : IntakeStep) (answer : string) (now : Z) :
  let client' := snd (updateClientFromResponse st client step answer now) in
  incomeTypes client ⊆ incomeTypes client' /\
  deductions client ⊆ deductions client' /\
  (hasCrypto client = true -> hasCrypto client' = true) /\
  (hasForeignAccounts client = true -> hasForeignAccounts client' = true) /\
  (hasRentalProperty client = true -> hasRentalProperty client' = true) /\
  (hasBusinessIncome client = true -> hasBusinessIncome client' = true) /\
  (NoDup (incomeTypes client) -> NoDup (incomeTypes client')) /\
  (NoDup (deductions client) -> NoDup (deductions client')) /\
  client_id client' = client_id client /\
  dependents client' = dependents client /\
  employmentInfo client' = employmentInfo client /\
  hasHealthInsurance client' = hasHealthInsurance client /\
  documentsCollected client' = documentsCollected client /\
  documentsPending client' = documentsPending client /\
  complexityScore client' = complexityScore client /\
  assignedTaxPro client' = assignedTaxPro client /\
  appointmentId client' = appointmentId client /\
  intakeCompleted client' = intakeCompleted client.
Proof.
  cbv zeta. unfold updateClientFromResponse. cbn [snd].
  destruct step; try done; repeat case_match; simplify_eq; cbn -[mergeUnique pushIf];
    repeat match goal with
           | |- _ /\ _ => split
           | |- ?l ⊆ ?l => done
           | |- _ = _ => done
           | |- _ -> _ => intros ?
           | |- _ ⊆ mergeUnique _ _ => intros ? ?; apply elem_of_mergeUnique; by left
           | |- NoDup (mergeUnique _ _) => apply NoDup_mergeUnique
           | |- ?l ⊆ pushIf (negb (includes ?l ?x)) ?x ?l => apply pushIf_unless_included
           | |- NoDup (pushIf (negb (includes ?l ?x)) ?x ?l) => by apply pushIf_unless_included
           | |- _ => done
           end.
  all: try (etransitivity; apply pushIf_unless_included).
  all: try (do 2 (apply pushIf_unless_included; try done)).
Qed.

(** ** Intake: answers that end a step *)

Lemma includes_none_no (s : string) :
  String_includes s "none" = true -> String_includes s "no" = true.
Proof.
  induction s as [|c s IH].
  - cbn. done.
  - cbn [String_includes]. intros [Hprefix|Hrest]%orb_true_iff; apply orb_true_iff.
    + left. destruct s as [|c' s]; cbn [String.prefix] in *.
      * by destruct (Ascii.ascii_dec "n" c).
      * destruct (Ascii.ascii_dec "n" c); [|done].
        destruct (Ascii.ascii_dec "o" c'); [|done]. by destruct s.
    + right. by apply IH.
Qed.

(** X28: isStepComplete accepts an answer exactly in two cases: at the
    dependents step when the lower-cased answer contains no, and at the
    special situations step when it contains none (which contains no). At no
    other step can an answer end the step before all its questions are
    answered. *)
Theorem isStepComplete_iff (step : IntakeStep) (answer : string) :
  isStepComplete step answer = true
  <-> (step = dependents_step /\ String_includes (toLowerCase answer) "no" = true)
      \/ (step = special_situations /\ String_includes (toLowerCase answer) "none" = true).
Proof.
  unfold isStepComplete.
  pose proof (includes_none_no (toLowerCase answer)) as Himplied.
  destruct (String_includes (toLowerCase answer) "none"),
    (String_includes (toLowerCase answer) "no"), step; cbn;
    intuition (discriminate || congruence).
Qed.

(** ** Intake: the question asked and the question recorded *)

Lemma getCurrentQuestion_answered (session : IntakeSession) :
  (answered session < length (INTAKE_QUESTIONS (currentStep session)))%nat ->
  INTAKE_QUESTIONS (currentStep session) !! answered session
  = Some (getCurrentQuestion session).
Proof.
  intros Hfew. unfold getCurrentQuestion. cbv zeta. fold (answered session).
  rewrite Z.min_l by lia. destruct (Z.ltb_spec (Z.of_nat (answered session)) 0); [lia|].
  rewrite Nat2Z.id.
  destruct (lookup_lt_is_Some_2 (INTAKE_QUESTIONS (currentStep session)) (answered session) Hfew)
    as [q Hq].
  by rewrite Hq.
Qed.

(** The question with which [processIntakeResponse] answers. *)
Lemma processIntakeResponse_question (st : Database) (sessionId answer : string) (now : Z)
    (session : IntakeSession) (client : ClientProfile) :
  db.getSession st sessionId = Some session ->
  db.getClient st (ses_clientId session) = Some client ->
  nextQuestion (snd (processIntakeResponse st sessionId answer now))
  = if stepIsOver session answer
    then if bool_decide (currentStep session = complete)
         then Some "Please provide more details."
         else if bool_decide (currentStep session = review) then None
              else INTAKE_QUESTIONS (nextStep (currentStep session)) !! 0%nat
    else INTAKE_QUESTIONS (currentStep session) !! S (answered session).
Proof.
  intros Hsession Hclient. unfold processIntakeResponse. rewrite Hsession, Hclient.
  destruct (updateClientFromResponse st client _ answer now) as [st1 client1].
  unfold stepIsOver, answered, continueStep, nextStep. cbv zeta.
  cbn [currentStep responses completedSteps set_responses set_completedSteps set_currentStep].
  rewrite List.filter_app. cbn [List.filter step].
  rewrite bool_decide_eq_true_2 by done. rewrite length_app. cbn [length].
  destruct (step_advance (currentStep session)) as [-> ->].
  destruct ((length (INTAKE_QUESTIONS (currentStep session))
             <=? length (List.filter (fun r => bool_decide (step r = currentStep session))
                                     (responses session)) + 1)%nat
            || isStepComplete (currentStep session) answer) eqn:Hover.
  - destruct (decide (currentStep session = complete)) as [Hlast|Hlast].
    + rewrite (bool_decide_eq_true_2 _ Hlast). cbn [negb]. rewrite Hlast.
      cbn [INTAKE_QUESTIONS length]. by destruct (_ + 1)%nat.
    + rewrite (bool_decide_eq_false_2 _ Hlast). cbn [negb]. rewrite orb_false_r.
      by destruct (bool_decide (currentStep session = review)).
  - apply orb_false_iff in Hover as [Hcount _]. apply Nat.leb_gt in Hcount.
    destruct (Nat.ltb_spec
                (length (List.filter (fun r => bool_decide (step r = currentStep session))
                                     (responses session)) + 1)
                (length (INTAKE_QUESTIONS (currentStep session)))); [|lia].
    cbn [snd nextQuestion]. by rewrite Nat.add_1_r.
Qed.

(** X29: in a session whose dialogue is in order, as long as the last step
    is not reached, the question with which processIntakeResponse answers is
    the current question of the session it has written back: the next answer
    will be stored under the question that was asked. When the review step is
    left no question is asked. *)
Theorem asked_question_is_recorded (st : Database) (sessionId answer : string) (now : Z)
    (session : IntakeSession) (client : ClientProfile) :
  db.getSession st sessionId = Some session ->
  db.getClient st (ses_clientId session) = Some client ->
  dialogueInOrder session ->
  exists session',
    db.getSession (fst (processIntakeResponse st sessionId answer now)) sessionId
    = Some session' /\
    dialogueInOrder session' /\
    (currentStep session' <> complete ->
       nextQuestion (snd (processIntakeResponse st sessionId answer now))
       = Some (getCurrentQuestion session')) /\
    (currentStep session <> complete -> currentStep session' = complete ->
       nextQuestion (snd (processIntakeResponse st sessionId answer now)) = None /\
       ir_intakeCompleted (snd (processIntakeResponse st sessionId answer now)) = Some true).
Proof.
  intros Hsession Hclient Hin.
  destruct (processIntakeResponse_sessions st sessionId answer now session client Hsession Hclient)
    as [Hsessions _].
  pose proof (dialogueInOrder_sessionAfter session answer now Hin) as Hin'.
  pose proof (answered_sessionAfter session answer now Hin) as Hanswered.
  destruct (sessionAfter_fields session answer now) as (_ & Hstep & _).
  exists (sessionAfter session answer now).
  split; [unfold db.getSession; by rewrite Hsessions, lookup_insert_eq|]. split; [done|].
  rewrite (processIntakeResponse_question st sessionId answer now session client) by done.
  split.
  - intros Hnot. destruct Hin' as (_ & Hfew' & _). specialize (Hfew' Hnot).
    rewrite <- getCurrentQuestion_answered by done. rewrite Hanswered, Hstep.
    destruct (decide (currentStep session = complete)) as [Hlast|Hlast].
    { rewrite Hstep, stepIsOver_last in Hnot by done. by rewrite Hlast in Hnot. }
    rewrite (bool_decide_eq_false_2 _ Hlast), andb_true_r.
    destruct (stepIsOver session answer) eqn:Hover; [|done].
    rewrite Hstep in Hnot.
    rewrite bool_decide_eq_false_2; [done|].
    intros Hreview. apply Hnot. by apply step_table.
  - intros Hlast Hcomplete. rewrite Hstep in Hcomplete.
    destruct (stepIsOver session answer) eqn:Hover; [|done].
    apply (step_table _ Hlast) in Hcomplete.
    rewrite (bool_decide_eq_false_2 _ Hlast), (bool_decide_eq_true_2 _ Hcomplete).
    split; [done|].
    unfold processIntakeResponse. rewrite Hsession, Hclient.
    destruct (updateClientFromResponse st client _ answer now) as [st1 client1].
    unfold stepIsOver, answered in Hover.
    cbn [currentStep responses completedSteps set_responses set_completedSteps set_currentStep].
    rewrite List.filter_app. cbn [List.filter step].
    rewrite bool_decide_eq_true_2 by done. rewrite length_app. cbn [length].
    rewrite Hover, Hcomplete. reflexivity.
Qed.

Lemma asked_question_is_recorded_witness :
  exists session',
    db.getSession (fst (processIntakeResponse freshIntakeDatabase "session-2" "Jane Doe" 6))
                  "session-2" = Some session' /\
    nextQuestion (snd (processIntakeResponse freshIntakeDatabase "session-2" "Jane Doe" 6))
    = Some (getCurrentQuestion session').
Proof.
  destruct (asked_question_is_recorded freshIntakeDatabase "session-2" "Jane Doe" 6
              (freshSession "session-2" "client-2" 5) cryptoWageEarner)
    as (session' & Hsession' & _ & Hasked & _).
  - vm_compute. reflexivity.
  - vm_compute. reflexivity.
  - split; [constructor|]. split; [intros _; vm_compute; lia|discriminate].
  - exists session'. split; [exact Hsession'|]. apply Hasked.
    revert Hsession'. vm_compute. by intros [= <-].
Defined.

(** ** Routing: loads are only ever added *)

Lemma routeClientToTaxPro_load fmt (st : Database) (clientId : string) (now : Z) :
  NoDup (map tp_id (taxPros st)) ->
  if rt_success (snd (routeClientToTaxPro fmt st clientId now))
  then exists i chosen,
         taxPros st !! i = Some chosen /\
         taxPros (fst (routeClientToTaxPro fmt st clientId now))
         = <[i := set_currentLoad (currentLoad chosen + 1) chosen]> (taxPros st)
  else taxPros (fst (routeClientToTaxPro fmt st clientId now)) = taxPros st.
Proof.
  intros Hnodup. unfold routeClientToTaxPro.
  destruct (db.getClient st clientId) as [client|]; [|done].
  pose proof (findBestTaxPro_store fmt st client now) as Hstore.
  pose proof (findBestTaxPro_result_available fmt st client now) as Havail.
  destruct (findBestTaxPro fmt st client now) as [st1 found]. cbn [fst snd] in *.
  assert (taxPros st1 = taxPros st) as Hpros1 by (subst st1; apply updateClient_taxPros).
  destruct (taxPro found) as [chosen|]; [|done].
  destruct (Havail chosen (or_introl eq_refl)) as (Hin & _ & Hload).
  set (st2 := fst (db.updateClient st1 clientId (set_assignedTaxPro (Some (tp_id chosen))) now)).
  assert (taxPros st2 = taxPros st) as Hpros2 by (subst st2; by rewrite updateClient_taxPros).
  destruct (list_find_tp_id_elem (taxPros st) chosen Hnodup Hin) as (i & Hi & Hfind).
  rewrite <- Hpros2 in Hfind.
  pose proof (updateTaxProLoad_increment st2 i chosen Hfind) as Hincrement.
  destruct (db.updateTaxProLoad st2 (tp_id chosen) 1) as [st3 updated].
  cbn [fst snd rt_success] in *. exists i, chosen. split; [done|].
  injection Hincrement as -> _. cbn [taxPros set_taxPros]. by rewrite Hpros2.
Qed.

Lemma totalLoad_insert (l : list TaxProfessional) (i : nat) (old new : TaxProfessional) :
  l !! i = Some old ->
  (foldr (fun tp n => currentLoad tp + n) 0 (<[i := new]> l) + currentLoad old
   = foldr (fun tp n => currentLoad tp + n) 0 l + currentLoad new)%nat.
Proof.
  revert i. induction l as [|tp l IH]; intros i Hi; [done|].
  destruct i as [|i]; simpl in *.
  - injection Hi as ->. lia.
  - specialize (IH i Hi). lia.
Qed.

(** X30: a successful routing adds exactly one appointment to the total
    load of the staff and a failed one adds none, whether or not the client had
    been assigned before: routing a client again books a further slot and frees
    none. No operation lowers the total load, so that after any history it lies
    between the initial total and the initial total plus the number of routing
    calls. *)
Theorem routing_only_adds_load fmt (st : Database) (clientId : string) (now : Z)
    (ops : list Operation) :
  NoDup (map tp_id (taxPros st)) ->
  totalLoad (fst (routeClientToTaxPro fmt st clientId now))
  = (totalLoad st
     + if rt_success (snd (routeClientToTaxPro fmt st clientId now)) then 1 else 0)%nat /\
  (totalLoad st <= totalLoad (runOps fmt st ops) <= totalLoad st + routingCalls ops)%nat.
Proof.
  intros Hnodup.
  assert (forall st clientId now,
            NoDup (map tp_id (taxPros st)) ->
            NoDup (map tp_id (taxPros (fst (routeClientToTaxPro fmt st clientId now)))) /\
            totalLoad (fst (routeClientToTaxPro fmt st clientId now))
            = (totalLoad st
               + if rt_success (snd (routeClientToTaxPro fmt st clientId now))
                 then 1 else 0)%nat) as Hroute.
  { clear. intros st clientId now Hnodup.
    pose proof (routeClientToTaxPro_load fmt st clientId now Hnodup) as Hload.
    unfold totalLoad.
    destruct (rt_success _); [|rewrite Hload; split; [done|lia]].
    destruct Hload as (i & chosen & Hi & ->). split.
    - change (NoDup (tp_id <$> <[i:=set_currentLoad (currentLoad chosen + 1) chosen]>
                                 (taxPros st))).
      rewrite list_fmap_insert. cbn [tp_id set_currentLoad].
      rewrite list_insert_id; [done|]. by rewrite list_lookup_fmap, Hi.
    - pose proof (totalLoad_insert (taxPros st) i chosen
                    (set_currentLoad (currentLoad chosen + 1) chosen) Hi) as Hsum.
      cbn [currentLoad set_currentLoad] in Hsum. lia. }
  split; [by apply Hroute|].
  clear clientId now. revert st Hnodup.
  induction ops as [|op ops IH]; intros st Hnodup; [cbn; lia|].
  cbn [runOps fold_left]. fold (runOps fmt (applyOp fmt st op) ops).
  assert ((exists clientId now, op = OpRoute clientId now) \/
          (forall clientId now, op <> OpRoute clientId now)) as [(clientId & now & ->)|Hother]
    by (destruct op; eauto; right; discriminate).
  - cbn [applyOp]. destruct (Hroute st clientId now Hnodup) as [Hnodup' Htotal].
    specialize (IH _ Hnodup'). unfold routingCalls in *. cbn [List.filter length].
    destruct (rt_success _); lia.
  - pose proof (applyOp_taxPros fmt st op Hother) as Hpros.
    assert (totalLoad (applyOp fmt st op) = totalLoad st) as Htotal
      by (unfold totalLoad; by rewrite Hpros).
    specialize (IH (applyOp fmt st op)). rewrite Hpros, Htotal in IH. specialize (IH Hnodup).
    assert (routingCalls (op :: ops) = routingCalls ops) as ->; [|lia].
    unfold routingCalls. cbn [List.filter]. destruct op; try done.
    by destruct (Hother clientId now).
Qed.

Lemma routing_only_adds_load_witness :
  totalLoad (runOps (fun _ _ _ _ => "") routingDatabase routedTwice)
  = (totalLoad routingDatabase + 2)%nat.
Proof.
  destruct (routing_only_adds_load (fun _ _ _ _ => "") routingDatabase "client-2" 4 routedTwice)
    as [_ [_ Hupper]].
  - apply (bool_decide_unpack _). vm_compute. exact I.
  - vm_compute. reflexivity.
Defined.
